(** * phys400: image-entropy methods, verified against their specification

    A shallow embedding of [src/src/methods.py] (the seven entropy methods
    and their registry) and of the argument validators of [src/main.py].

    Modelling decisions, each stated where it is used:
    - pixel arrays are [list (list Z)], row-major; the integer dtype is the
      64-bit signed one that [main.py] produces with [astype(int)], with its
      wrap-around written as [wrap64];
    - float64 values are [float64]: a finite value carries the exact real
      number (rounding is not modelled), and the two infinities and NaN are
      separate constructors, so that a division by zero is visible;
    - numpy masked arrays are lists of [option float64], [None] being a
      masked entry;
    - Python exceptions are the [Raise] case of [result]. *)

From Stdlib Require Import String.
From Stdlib Require Import Reals ZArith List Bool Lia Lra.
Import ListNotations.

Local Open Scope Z_scope.

(* ------------------------------------------------------------------ *)
(** * Python built-ins used by the methods *)

Module Py.

(** Normalisation of one bound of a slice [xs[start:stop]] of a sequence
    of length [len]: a negative bound counts from the end, and every
    bound is clamped to [0 .. len]. *)
Definition slice_index (len idx : Z) : Z :=
  if idx <? 0 then Z.max 0 (idx + len) else Z.min idx len.

(** [xs[start:stop]] *)
Definition slice {A : Type} (start stop : Z) (xs : list A) : list A :=
  let len := Z.of_nat (length xs) in
  let a := slice_index len start in
  let b := slice_index len stop in
  firstn (Z.to_nat (b - a)) (skipn (Z.to_nat a) xs).

(** [xs[start:]] *)
Definition slice_from {A : Type} (start : Z) (xs : list A) : list A :=
  slice start (Z.of_nat (length xs)) xs.

(** [xs[:stop]] *)
Definition slice_to {A : Type} (stop : Z) (xs : list A) : list A :=
  slice 0 stop xs.

(** [round(n / 2)] for an integer [n]: true division followed by
    rounding to the nearest integer, a half going to the even one. *)
Definition round_half (n : Z) : Z :=
  let q := n / 2 in
  if Z.even n then q else if Z.even q then q else q + 1.

(** [range(a, b)] *)
Definition range (a b : Z) : list Z :=
  map (fun n => a + Z.of_nat n) (seq 0 (Z.to_nat (b - a))).

Inductive exn := ValueError | AssertionError | IndexError | ArgumentTypeError.

Inductive result (A : Type) :=
| Ok (a : A)
| Raise (e : exn).
Arguments Ok {A} a.
Arguments Raise {A} e.

Definition bind {A B : Type} (r : result A) (k : A -> result B) : result B :=
  match r with
  | Ok a => k a
  | Raise e => Raise e
  end.

End Py.

Notation "x <- r ;; k" := (Py.bind r (fun x => k))
  (at level 61, r at next level, right associativity).

(* ------------------------------------------------------------------ *)
(** * numpy: integers, floats, masked arrays *)

Module Np.

(** Wrap-around of the 64-bit signed integer dtype. *)
Definition wrap64 (z : Z) : Z := (z + 2 ^ 63) mod 2 ^ 64 - 2 ^ 63.

Definition array2 := list (list Z).

(** [a.shape] of a two-dimensional array. *)
Definition shape (a : array2) : Z * Z :=
  (Z.of_nat (length a), Z.of_nat (length (hd [] a))).

(** Element-wise binary operation on two arrays of the same shape. *)
Definition zip_with {A B C : Type} (f : A -> B -> C)
    (xs : list A) (ys : list B) : list C :=
  map (fun p => f (fst p) (snd p)) (combine xs ys).

Definition sub2 (a b : array2) : array2 :=
  zip_with (zip_with (fun x y => wrap64 (x - y))) a b.

Definition add2 (a b : array2) : array2 :=
  zip_with (zip_with (fun x y => wrap64 (x + y))) a b.

(** [a.flatten()] *)
Definition flatten {A : Type} (a : list (list A)) : list A := concat a.

(** [np.abs] *)
Definition abs (xs : list Z) : list Z := map (fun x => wrap64 (Z.abs x)) xs.

(** [np.invert] on signed integers: [~x = -x - 1]. *)
Definition invert (x : Z) : Z := - x - 1.

(** [np.max] of a flat array; it raises ValueError on an empty one. *)
Definition max (xs : list Z) : Py.result Z :=
  match xs with
  | [] => Py.Raise Py.ValueError
  | x :: r => Py.Ok (fold_left Z.max r x)
  end.

(** [a.sum()] of an integer array. *)
Definition sum (xs : list Z) : Z := wrap64 (fold_left Z.add xs 0).

(** [a.cumsum()] *)
Fixpoint cumsum_from (acc : Z) (xs : list Z) : list Z :=
  match xs with
  | [] => []
  | x :: r => (acc + x) :: cumsum_from (acc + x) r
  end.
Definition cumsum (xs : list Z) : list Z := cumsum_from 0 xs.

(** [np.nonzero(a)[0]]: the indices of the non-zero entries. *)
Definition nonzero (xs : list Z) : list Z :=
  map fst (filter (fun p => negb (snd p =? 0))
             (combine (Py.range 0 (Z.of_nat (length xs))) xs)).

(** float64 values.  [Fin x] is a finite value, held exactly; [Inf true]
    is minus infinity.  The sign of zero is not modelled. *)
Inductive float64 :=
| Fin (x : R)
| Inf (neg : bool)
| NaN.

Definition of_int (z : Z) : float64 := Fin (IZR z).

Definition is_neg (x : R) : bool := if Rlt_dec x 0 then true else false.

Definition isfinite (a : float64) : bool :=
  match a with Fin _ => true | _ => false end.

Definition isnan (a : float64) : bool :=
  match a with NaN => true | _ => false end.

Definition fneg (a : float64) : float64 :=
  match a with
  | Fin x => Fin (- x)
  | Inf s => Inf (negb s)
  | NaN => NaN
  end.

Definition fadd (a b : float64) : float64 :=
  match a, b with
  | NaN, _ | _, NaN => NaN
  | Fin x, Fin y => Fin (x + y)
  | Inf s, Inf t => if Bool.eqb s t then Inf s else NaN
  | Inf s, Fin _ => Inf s
  | Fin _, Inf t => Inf t
  end.

Definition fsub (a b : float64) : float64 := fadd a (fneg b).

Definition fmul (a b : float64) : float64 :=
  match a, b with
  | NaN, _ | _, NaN => NaN
  | Fin x, Fin y => Fin (x * y)
  | Inf s, Inf t => Inf (xorb s t)
  | Inf s, Fin y => if Req_EM_T y 0 then NaN else Inf (xorb s (is_neg y))
  | Fin x, Inf t => if Req_EM_T x 0 then NaN else Inf (xorb (is_neg x) t)
  end.

(** Division: a finite value over zero is NaN when the value is zero and
    an infinity otherwise. *)
Definition fdiv (a b : float64) : float64 :=
  match a, b with
  | NaN, _ | _, NaN => NaN
  | Fin x, Fin y =>
      if Req_EM_T y 0
      then (if Req_EM_T x 0 then NaN else Inf (is_neg x))
      else Fin (x / y)
  | Inf _, Inf _ => NaN
  | Inf s, Fin y => Inf (xorb s (is_neg y))
  | Fin _, Inf _ => Fin 0
  end.

(** [a < b]; every comparison with NaN is false. *)
Definition flt (a b : float64) : bool :=
  match a, b with
  | Fin x, Fin y => if Rlt_dec x y then true else false
  | Fin _, Inf t => negb t
  | Inf s, Fin _ => s
  | Inf s, Inf t => s && negb t
  | _, _ => false
  end.

Definition fle (a b : float64) : bool :=
  match a, b with
  | Fin x, Fin y => if Rle_dec x y then true else false
  | Fin _, Inf t => negb t
  | Inf s, Fin _ => s
  | Inf s, Inf t => s || negb t
  | _, _ => false
  end.

Definition fgt (a b : float64) : bool := flt b a.

(** Logarithm to a base given by the natural logarithm of the base
    ([ln_base = 1] for [np.log], [ln 2] for [np.log2]). *)
Definition flog_base (ln_base : R) (a : float64) : float64 :=
  match a with
  | Fin x =>
      if Rlt_dec x 0 then NaN
      else if Req_EM_T x 0 then Inf true
      else Fin (ln x / ln_base)
  | Inf false => Inf false
  | Inf true => NaN
  | NaN => NaN
  end.

(** [np.log] and [np.log2] *)
Definition log : float64 -> float64 := flog_base 1.
Definition log2 : float64 -> float64 := flog_base (ln 2).

(** [np.sum] of a float array (0.0 on an empty one). *)
Definition fsum (xs : list float64) : float64 := fold_left fadd xs (Fin 0).

(** Conversion on assignment into an integer array: truncation towards
    zero.  A non-finite value has no integer image; the hardware
    conversion yields the smallest 64-bit integer. *)
Definition Rtrunc (x : R) : Z :=
  if Rle_dec 0 x then Int_part x else - Int_part (- x).

Definition to_int (a : float64) : Z :=
  match a with
  | Fin x => wrap64 (Rtrunc x)
  | _ => - 2 ^ 63
  end.

(** ** Masked arrays ([np.ma]) *)

Definition masked := option float64.

(** A domained unary function of [np.ma] ([np.ma.log], [np.ma.log2]):
    an entry is masked when the result is not finite or when the
    argument is outside the domain [x > 0]. *)
Definition ma_domained (f : float64 -> float64) (a : float64) : masked :=
  let r := f a in
  if negb (isfinite r) || fle a (Fin 0) then None else Some r.

Definition ma_log (a : float64) : masked := ma_domained log a.
Definition ma_log2 (a : float64) : masked := ma_domained log2 a.

(** Unary minus keeps the mask. *)
Definition ma_neg (m : masked) : masked := option_map fneg m.

(** Plain value times masked value: masked where the operand is. *)
Definition ma_mul (a : float64) (m : masked) : masked := option_map (fmul a) m.

Definition filled0 (m : masked) : float64 :=
  match m with Some v => v | None => Fin 0 end.

Definition is_masked (m : masked) : bool :=
  match m with None => true | Some _ => false end.

(** [np.sum] of a masked array: the sum of the data with masked entries
    filled with 0, or the [masked] constant when every entry is masked. *)
Definition ma_sum (xs : list masked) : masked :=
  if forallb is_masked xs then None else Some (fsum (map filled0 xs)).

(** ** [np.gradient] *)

(** [a[i, j]] *)
Definition pixel (a : array2) (i j : Z) : Z :=
  nth (Z.to_nat j) (nth (Z.to_nat i) a []) 0.

(** The derivative at index [i] of the samples [f 0 .. f (n - 1)],
    [n >= 2], with the default spacing 1.0.  Integer samples are
    converted to float64 first; the interior uses central differences
    over twice the spacing, both ends use one-sided differences. *)
Definition gradient_at (f : Z -> Z) (n i : Z) : float64 :=
  if i =? 0 then fdiv (fsub (of_int (f 1)) (of_int (f 0))) (Fin 1)
  else if i =? n - 1
  then fdiv (fsub (of_int (f (n - 1))) (of_int (f (n - 2)))) (Fin 1)
  else fdiv (fsub (of_int (f (i + 1))) (of_int (f (i - 1)))) (Fin 2).

(** [np.gradient(a)] of a two-dimensional integer array: the derivative
    along the rows axis and the one along the columns axis.  It raises
    ValueError when an axis has fewer than two samples. *)
Definition gradient (a : array2)
    : Py.result (list (list float64) * list (list float64)) :=
  let h := fst (shape a) in
  let w := snd (shape a) in
  if (h <? 2) || (w <? 2) then Py.Raise Py.ValueError
  else
    Py.Ok
      (map (fun i =>
              map (fun j => gradient_at (fun k => pixel a k j) h i)
                  (Py.range 0 w))
           (Py.range 0 h),
       map (fun i =>
              map (fun j => gradient_at (fun k => pixel a i k) w j)
                  (Py.range 0 w))
           (Py.range 0 h)).

End Np.

(* ------------------------------------------------------------------ *)
(** * src/src/methods.py *)

Module Methods.
Import Np.

(** [a[i]] for an index [0 <= i] that the caller keeps in range. *)
Definition item (xs : list Z) (i : Z) : Z := nth (Z.to_nat i) xs 0.

(** Number of entries of [xs] that satisfy [f]. *)
Definition count {A : Type} (f : A -> bool) (xs : list A) : Z :=
  Z.of_nat (length (filter f xs)).

(** One axis of [np.histogram] / [np.histogram2d] over [nbins] equal bins
    on [lo, hi], for integer bounds and an integer sample [v]: the edges
    are [lo + k * (hi - lo) / nbins], a bin holds its left edge, the last
    bin also holds [hi], and a sample outside [lo, hi] is dropped.  When
    [lo = hi] numpy widens the range to [lo - 0.5, hi + 0.5]. *)
Definition hist_bin (nbins lo hi v : Z) : option Z :=
  if lo =? hi then (if v =? lo then Some (nbins / 2) else None)
  else if (v <? lo) || (hi <? v) then None
  else if v =? hi then Some (nbins - 1)
  else Some ((v - lo) * nbins / (hi - lo)).

Definition in_bin (nbins lo hi b v : Z) : bool :=
  match hist_bin nbins lo hi v with
  | Some b' => b' =? b
  | None => false
  end.

(** [np.histogram(a, bins=nbins, range=(lo, hi))[0]] *)
Definition histogram (xs : list Z) (nbins lo hi : Z) : list Z :=
  map (fun b => count (in_bin nbins lo hi b) xs) (Py.range 0 nbins).

(** [np.histogram2d(xs, ys, bins=nbins, range=[[lo, hi], [lo, hi]])[0]] *)
Definition histogram2d (xs ys : list Z) (nbins lo hi : Z) : array2 :=
  map (fun a =>
         map (fun b =>
                count (fun p => in_bin nbins lo hi a (fst p)
                                && in_bin nbins lo hi b (snd p))
                      (combine xs ys))
             (Py.range 0 nbins))
      (Py.range 0 nbins).

(** ** kapur1d *)

(** [np.nonzero(hist)[0][[0, -1]]]: IndexError when no bin is filled. *)
Definition first_last (xs : list Z) : Py.result (Z * Z) :=
  match xs with
  | [] => Py.Raise Py.IndexError
  | x :: r => Py.Ok (x, last r x)
  end.

(** Lines 40-41: the entropy of the low partition [hist[: i + 1]]. *)
Definition kapur_low (hist cdf : list Z) (i : Z) : masked :=
  let histrng :=
    map (fun h => fdiv (of_int h) (of_int (item cdf i)))
        (Py.slice_to (i + 1) hist) in
  ma_neg (ma_sum (map (fun x => ma_mul x (ma_log x)) histrng)).

(** Lines 43-44: the high partition [hist[i + 1 :]], its zero bins
    removed, divided by [cdf[binrng[1]] - cdf[i]]. *)
Definition kapur_high_part (hist cdf : list Z) (hi i : Z) : list float64 :=
  let histrng := Py.slice_from (i + 1) hist in
  map (fun h => fdiv (of_int h)
                  (fsub (of_int (item cdf hi)) (of_int (item cdf i))))
      (filter (fun h => negb (h =? 0)) histrng).

(** Line 45: the term subtracted from [entropy]. *)
Definition kapur_high (hist cdf : list Z) (hi i : Z) : float64 :=
  fsum (map (fun x => fmul x (log x)) (kapur_high_part hist cdf hi i)).

(** The value of [entropy] at the end of one iteration. *)
Definition kapur_candidate (hist cdf : list Z) (hi i : Z) : masked :=
  option_map (fun e => fsub e (kapur_high hist cdf hi i))
             (kapur_low hist cdf i).

(** The loop variables.  [entropy] is unbound before the first iteration
    ([None] here); the range is never empty. *)
Record kapur_state := {
  entropy : masked;
  entropymax : float64;
  threshold : Z
}.

(** [entropy > entropymax]; the masked constant is falsy. *)
Definition exceeds (e : masked) (m : float64) : bool :=
  match e with
  | Some v => fgt v m
  | None => false
  end.

Definition kapur_step (hist cdf : list Z) (hi : Z)
    (st : kapur_state) (i : Z) : kapur_state :=
  let e := kapur_candidate hist cdf hi i in
  if exceeds e (entropymax st)
  then {| entropy := e; entropymax := filled0 e; threshold := i |}
  else {| entropy := e; entropymax := entropymax st;
          threshold := threshold st |}.

Definition kapur_loop (hist cdf : list Z) (lo hi : Z) : kapur_state :=
  fold_left (kapur_step hist cdf hi) (Py.range lo (hi + 1))
    {| entropy := None; entropymax := Fin 0; threshold := 0 |}.

(** What [kapur1d] logs and returns. *)
Record kapur_out := {
  kapur_log_entropy : masked;
  kapur_log_threshold : Z;
  kapur_log_ratio : masked;
  kapur_entimg : array2
}.

Definition kapur1d (greyimg : array2) : Py.result kapur_out :=
  let hist := histogram (flatten greyimg) 256 0 256 in
  let cdf := cumsum hist in
  binrng <- first_last (nonzero hist) ;;
  let st := kapur_loop hist cdf (fst binrng) (snd binrng) in
  Py.Ok {| kapur_log_entropy := entropy st;
           kapur_log_threshold := threshold st;
           kapur_log_ratio :=
             option_map (fun e => fdiv e (Fin 8)) (entropy st);
           kapur_entimg :=
             map (map (fun p => if p <? threshold st then p else 0))
                 greyimg |}.

(** ** scipy1d *)

(** [scipy.special.entr] *)
Definition entr (a : float64) : float64 :=
  match a with
  | Fin x =>
      if Rlt_dec x 0 then Inf true
      else if Req_EM_T x 0 then Fin 0
      else Fin (- x * ln x)
  | Inf _ => Inf true
  | NaN => NaN
  end.

(** [scipy.stats.entropy(pk, base=b)]: [pk] is normalised to sum 1, the
    entropy is [sum(entr(pk))], divided by [log(b)]. *)
Definition spentropy (pk : list float64) (ln_base : R) : float64 :=
  let total := fsum pk in
  let pk := map (fun p => fdiv p total) pk in
  fdiv (fsum (map entr pk)) (Fin ln_base).

Definition scipy1d_signal (greyimg : array2) : list float64 :=
  map (fun p => fdiv (of_int p) (of_int (sum (flatten greyimg))))
      (flatten greyimg).

Definition scipy1d (greyimg : array2) : float64 :=
  spentropy (scipy1d_signal greyimg) (ln 8).

(** ** shannon1d *)

Definition shannon1d_signal (greyimg : array2) : list (list float64) :=
  map (map (fun p => fdiv (of_int p) (of_int (sum (flatten greyimg)))))
      greyimg.

Definition shannon1d_entimg (greyimg : array2) : list (list masked) :=
  map (map (fun s => ma_mul s (ma_neg (ma_log2 s))))
      (shannon1d_signal greyimg).

(** The logged [entropy]; [entimg] is the returned artefact. *)
Definition shannon1d (greyimg : array2) : masked :=
  ma_sum (flatten (shannon1d_entimg greyimg)).

(** ** delentropy2d *)

(** Lines 89-93 ([param_diffgrad] is the constant [True]). *)
Definition delentropy_fx (greyimg : array2) : array2 :=
  let fx := sub2 (map (Py.slice_from 2) greyimg)
                 (map (Py.slice_to (-2)) greyimg) in
  Py.slice 1 (-1) fx.

Definition delentropy_fy (greyimg : array2) : array2 :=
  let fy := sub2 (Py.slice_from 2 greyimg) (Py.slice_to (-2) greyimg) in
  map (Py.slice 1 (-1)) fy.

(** Line 105. *)
Definition delentropy_jrng (fx fy : array2) : Py.result Z :=
  mx <- Np.max (abs (flatten fx)) ;;
  my <- Np.max (abs (flatten fy)) ;;
  Py.Ok (Z.max mx my).

(** Lines 110-115. *)
Definition delentropy_hist (fx fy : array2) (jrng : Z) : array2 :=
  histogram2d (flatten fx) (flatten fy) (2 * jrng + 1) (- jrng) jrng.

(** Line 119. *)
Definition delentropy_density (hist : array2) : list (list float64) :=
  let total := fsum (map of_int (flatten hist)) in
  map (map (fun h => fdiv (of_int h) total)) hist.

(** Lines 120-122. *)
Definition delentropy_terms (density : list (list float64))
    : list (list masked) :=
  map (map (fun d => ma_mul d (ma_neg (ma_log2 d)))) density.

Definition delentropy_entropy (hist : array2) : masked :=
  option_map (fun e => fdiv e (Fin 2))
    (ma_sum (flatten (delentropy_terms (delentropy_density hist)))).

Record delentropy_out := {
  del_entropy : masked;
  del_hist : array2;
  del_gradimg : array2;
  del_deldensity : list (list masked)
}.

(** Lines 102-142, from the cropped gradient pair on.  [del_hist] is the
    local [hist], kept for the statements about the binning. *)
Definition delentropy_pipeline (fx fy : array2) : Py.result delentropy_out :=
  let grad := add2 fx fy in
  jrng <- delentropy_jrng fx fy ;;
  if 255 <? jrng then Py.Raise Py.AssertionError
  else
    let hist := delentropy_hist fx fy jrng in
    Py.Ok {| del_entropy := delentropy_entropy hist;
             del_hist := hist;
             del_gradimg := map (map invert) grad;
             del_deldensity := delentropy_terms (delentropy_density hist) |}.

Definition delentropy2d (greyimg : array2) : Py.result delentropy_out :=
  delentropy_pipeline (delentropy_fx greyimg) (delentropy_fy greyimg).

(** ** shannon2dr *)

(** Line 200: [round((kernsize - 1) / 2)]. *)
Definition kernrad (kernsize : Z) : Z := Py.round_half (kernsize - 1).

(** Lines 205-209: the flattened window of cell [(i, j)]. *)
Definition region (greyimg : array2) (h w r i j : Z) : list Z :=
  flatten
    (map (Py.slice (Z.max 0 (j - r)) (Z.min w (j + r)))
         (Py.slice (Z.max 0 (i - r)) (Z.min h (i + r)) greyimg)).

(** Line 212.  [set(region)] is the distinct values of the window; the
    iteration order of a Python set is unspecified, [nodup] fixes one. *)
Definition probs (region : list Z) : list float64 :=
  let size := Z.of_nat (length region) in
  map (fun v => fdiv (of_int (count (Z.eqb v) region)) (of_int size))
      (nodup Z.eq_dec region).

(** Line 213. *)
Definition window_entropy (region : list Z) : float64 :=
  fsum (map (fun p => fmul p (log2 (fdiv (Fin 1) p))) (probs region)).

(** [xs[n] = v] *)
Fixpoint list_set {A : Type} (n : nat) (v : A) (xs : list A) : list A :=
  match xs, n with
  | [], _ => []
  | _ :: r, O => v :: r
  | x :: r, S n' => x :: list_set n' v r
  end.

(** [a[i, j] = v] on an integer array: the row is updated in place. *)
Definition set2 (a : array2) (i j : Z) (v : Z) : array2 :=
  list_set (Z.to_nat i)
           (list_set (Z.to_nat j) v (nth (Z.to_nat i) a [])) a.

(** The two objects the loops update. *)
Record shannon2dr_state := {
  entropies : list float64;
  entimg : array2
}.

(** Lines 205-216: the body of the inner loop. *)
Definition shannon2dr_cell (greyimg : array2) (h w r : Z)
    (st : shannon2dr_state) (i j : Z) : shannon2dr_state :=
  let e := window_entropy (region greyimg h w r i j) in
  {| entropies := entropies st ++ [e];
     entimg := set2 (entimg st) i j (to_int e) |}.

(** Lines 196-216.  [entimg] starts as a deep copy of [greyimg], so the
    windows are read from the unmodified input. *)
Definition shannon2dr (kernel_size : Z) (greyimg : array2)
    : shannon2dr_state :=
  let h := fst (shape greyimg) in
  let w := snd (shape greyimg) in
  let r := kernrad kernel_size in
  fold_left
    (fun st i =>
       fold_left (fun st j => shannon2dr_cell greyimg h w r st i j)
                 (Py.range 0 w) st)
    (Py.range 0 h)
    {| entropies := []; entimg := greyimg |}.

(** Line 218: [np.average(entropies)]. *)
Definition average (xs : list float64) : float64 :=
  fdiv (fsum xs) (of_int (Z.of_nat (length xs))).

(** ** gradient2d *)

(** Lines 149-175 ([param_realgrad] and [param_concave] are the constant
    [True]): [np.invert(np.array(gradx + grady, dtype=int))].  The mean
    and the deviation of the result are only logged. *)
Definition gradient2d (greyimg : array2) : Py.result array2 :=
  grads <- gradient greyimg ;;
  Py.Ok (map (map (fun s => invert (to_int s)))
             (zip_with (zip_with fadd) (fst grads) (snd grads))).

(** ** The registry *)

Inductive method :=
| kapur1d_f | scipy1d_f | shannon1d_f | delentropy2d_f
| gradient2d_f | scikit2dr_f | shannon2dr_f.

Definition strtofunc : list (string * method) :=
  [ ("1d-kapur", kapur1d_f);
    ("1d-scipy", scipy1d_f);
    ("1d-shannon", shannon1d_f);
    ("2d-delentropy", delentropy2d_f);
    ("2d-gradient", gradient2d_f);
    ("2d-regional-scikit", scikit2dr_f);
    ("2d-regional-shannon", shannon2dr_f) ]%string.

Definition default : string := "2d-delentropy".

(** [strtofunc[name]] *)
Fixpoint lookup (name : string) (d : list (string * method)) : option method :=
  match d with
  | [] => None
  | (k, f) :: r => if String.eqb k name then Some f else lookup name r
  end.

End Methods.

(* ------------------------------------------------------------------ *)
(** * src/main.py: the argument validators *)

Module Main.

(** Lines 244-247. *)
Definition argtypemethod (val : string) : Py.result string :=
  if negb (String.eqb val "pseudo-spatial")
     && negb (String.eqb val "2d-delentropy")
     && negb (String.eqb val "2d-gradient")
  then Py.Raise Py.ArgumentTypeError
  else Py.Ok val.

(** Lines 250-254, after [int(val)]. *)
Definition argtypekernelsize (ival : Z) : Py.result Z :=
  if (ival <=? 1) || negb (ival mod 2 =? 1)
  then Py.Raise Py.ArgumentTypeError
  else Py.Ok ival.

(** The [default=] of the [--method] argument (line 273). *)
Definition method_default : string := "2d-delentropy".

(** [parser.parse_args()] on the [--method] option: the type function
    runs on a given value, the default is used otherwise. *)
Definition parse_method (given : option string) : Py.result string :=
  match given with
  | Some val => argtypemethod val
  | None => Py.Ok method_default
  end.

(** Lines 236-241: the branch of [main] that a method name selects;
    [None] when the if/elif chain falls through and nothing runs. *)
Inductive script_method := pseudo_spatial | delentropy | gradient.

Definition main_dispatch (method : string) : option script_method :=
  if String.eqb method "pseudo-spatial" then Some pseudo_spatial
  else if String.eqb method "2d-delentropy" then Some delentropy
  else if String.eqb method "2d-gradient" then Some gradient
  else None.

(** Lines 191-194 of [method_delentropy]: the density times its masked
    logarithm, halved in place, summed and negated. *)
Definition method_delentropy_entropy (hist : Np.array2) : Np.masked :=
  let deldensity := Methods.delentropy_density hist in
  let entimg :=
    map (map (fun d => Np.ma_mul d (Np.ma_log2 d))) deldensity in
  let entimg :=
    map (map (option_map (fun e => Np.fdiv e (Np.Fin 2)))) entimg in
  Np.ma_neg (Np.ma_sum (Np.flatten entimg)).

(** Lines 159-197 of [method_delentropy]: the logged entropy.  The
    gradient pair, [jrng], the assertion and the histogram are written as
    in [delentropy2d]. *)
Definition method_delentropy (greyimg : Np.array2) : Py.result Np.masked :=
  let fx := Methods.delentropy_fx greyimg in
  let fy := Methods.delentropy_fy greyimg in
  jrng <- Methods.delentropy_jrng fx fy ;;
  if 255 <? jrng then Py.Raise Py.AssertionError
  else Py.Ok (method_delentropy_entropy (Methods.delentropy_hist fx fy jrng)).

(** Conversion on assignment into a uint8 array: truncation towards
    zero; a value outside 0..255 keeps its low eight bits, a non-finite
    one has no image (0 here). *)
Definition to_uint8 (a : Np.float64) : Z :=
  match a with
  | Np.Fin x => Np.Rtrunc x mod 256
  | _ => 0
  end.

(** Lines 53-64 of [method_pseudo_spatial]: the body of the inner loop.
    The window and its entropy are written as in [shannon2dr]; the map
    [imgarr] is a copy of the uint8 greyscale array. *)
Definition pseudo_spatial_cell (greyimgarr : Np.array2) (h w r : Z)
    (st : Methods.shannon2dr_state) (i j : Z) : Methods.shannon2dr_state :=
  let e := Methods.window_entropy (Methods.region greyimgarr h w r i j) in
  {| Methods.entropies := Methods.entropies st ++ [e];
     Methods.entimg := Methods.set2 (Methods.entimg st) i j (to_uint8 e) |}.

(** Lines 42-64 of [method_pseudo_spatial]: [entropies] and [imgarr]
    after the loops. *)
Definition method_pseudo_spatial (kernel_size : Z) (greyimgarr : Np.array2)
    : Methods.shannon2dr_state :=
  let h := fst (Np.shape greyimgarr) in
  let w := snd (Np.shape greyimgarr) in
  let r := Py.round_half (kernel_size - 1) in
  fold_left
    (fun st i =>
       fold_left (fun st j => pseudo_spatial_cell greyimgarr h w r st i j)
                 (Py.range 0 w) st)
    (Py.range 0 h)
    {| Methods.entropies := []; Methods.entimg := greyimgarr |}.

End Main.

(* ------------------------------------------------------------------ *)
(** * Vocabulary of the statements *)

(** The names the specification lists for [--method], and the names the
    validator of [main.py] tests for. *)
Definition registry_names : list string :=
  [ "1d-kapur"; "1d-scipy"; "1d-shannon"; "2d-delentropy"; "2d-gradient";
    "2d-regional-scikit"; "2d-regional-shannon" ]%string.

Definition main_names : list string :=
  [ "pseudo-spatial"; "2d-delentropy"; "2d-gradient" ]%string.

(** The crop of the gradient pair in the words of the specification: the
    first and last column dropped from [fx], the first and last row
    dropped from [fy]. *)
Definition claimed_fx (greyimg : Np.array2) : Np.array2 :=
  map (Py.slice 1 (-1))
      (Np.sub2 (map (Py.slice_from 2) greyimg)
               (map (Py.slice_to (-2)) greyimg)).

Definition claimed_fy (greyimg : Np.array2) : Np.array2 :=
  Py.slice 1 (-1)
    (Np.sub2 (Py.slice_from 2 greyimg) (Py.slice_to (-2) greyimg)).

(** An array is rectangular of width [w]. *)
Definition rect (w : nat) (a : Np.array2) : Prop :=
  Forall (fun row => length row = w) a.

(** [a[r][c]] *)
Definition at2 (a : Np.array2) (r c : nat) : Z := nth c (nth r a []) 0.

(** The difference of two rows, as [sub2] computes it. *)
Definition rowsub : list Z -> list Z -> list Z :=
  Np.zip_with (fun x y => Np.wrap64 (x - y)).

(** A 5x5 image for the statements about the gradient pair. *)
Definition img5 : Np.array2 :=
  [ [ 0;  1;  4;  9; 16];
    [ 1;  2;  5; 10; 17];
    [ 4;  5;  8; 13; 20];
    [ 9; 10; 13; 18; 25];
    [16; 17; 20; 25; 32] ].

(** The histogram and the cumulative counts of kapur1d (lines 34-35). *)
Definition kapur_hist (greyimg : Np.array2) : list Z :=
  Methods.histogram (Np.flatten greyimg) 256 0 256.

Definition kapur_cdf (greyimg : Np.array2) : list Z :=
  Np.cumsum (kapur_hist greyimg).

(** Sums over the reals and the integers. *)
Definition Rsum (l : list R) : R := fold_right Rplus 0%R l.
Definition Zsum (l : list Z) : Z := fold_right Z.add 0 l.

(** [x ln x]; [ln] is 0 outside its domain, so [xlnx 0 = 0]. *)
Definition xlnx (x : R) : R := (x * ln x)%R.

(** Base-2 logarithm of a positive real. *)
Definition Rlog2 (x : R) : R := (ln x / ln 2)%R.

(** The value of [entropy] for the candidate threshold [i], over the
    reals: minus the sum of [p ln p] over the low partition, minus the
    same sum over the filled bins of the high partition. *)
Definition kapur_value (hist : list Z) (hi i : Z) : R :=
  (- Rsum (map (fun h => xlnx (IZR h / IZR (Zsum (firstn (Z.to_nat (i + 1)) hist))))
               (firstn (Z.to_nat (i + 1)) hist))
   - Rsum (map (fun h => xlnx (IZR h
                             / IZR (Zsum (firstn (Z.to_nat (hi + 1)) hist)
                                    - Zsum (firstn (Z.to_nat (i + 1)) hist))))
               (filter (fun h => negb (h =? 0))
                       (skipn (Z.to_nat (i + 1)) hist))))%R.

(** What [binrng = (lo, hi)] says about the histogram: both bins are
    filled and no bin above [hi] is. *)
Record filled_range (hist : list Z) (lo hi : Z) : Prop := {
  fr_lo : 0 <= lo;
  fr_le : lo <= hi;
  fr_hi : hi < Z.of_nat (length hist);
  fr_lo_filled : Methods.item hist lo <> 0;
  fr_hi_filled : Methods.item hist hi <> 0;
  fr_above : forall i, hi < i -> Methods.item hist i = 0
}.

(** A one-row image with five equally filled grey levels. *)
Definition img_ramp : Np.array2 := [[0; 1; 2; 3; 4]].

(** The exact entropy of a window, over the reals: the sum over its
    distinct values of [p * log2 (1 / p)], [p] the relative frequency. *)
Definition window_entropy_R (region : list Z) : R :=
  Rsum (map (fun v =>
               let p := (IZR (Methods.count (Z.eqb v) region)
                         / IZR (Z.of_nat (length region)))%R in
               (p * Rlog2 (1 / p))%R)
            (nodup Z.eq_dec region)).

(** The window that shannon2dr reads for the cell [(i, j)] of [g]. *)
Definition cell_region (k : Z) (g : Np.array2) (i j : Z) : list Z :=
  Methods.region g (fst (Np.shape g)) (snd (Np.shape g))
                 (Methods.kernrad k) i j.

(** A 3x3 image whose nine values are distinct. *)
Definition img3 : Np.array2 := [[0; 1; 2]; [3; 4; 5]; [6; 7; 8]].

(** The window of side [k] centred at [(i, j)] and clipped to the image,
    in the words of the specification: rows [i - r .. i + r] and columns
    [j - r .. j + r] with [r = (k - 1) / 2]. *)
Definition claimed_region (k : Z) (g : Np.array2) (i j : Z) : list Z :=
  let r := (k - 1) / 2 in
  Np.flatten
    (map (Py.slice (Z.max 0 (j - r)) (Z.min (snd (Np.shape g)) (j + r + 1)))
         (Py.slice (Z.max 0 (i - r)) (Z.min (fst (Np.shape g)) (i + r + 1)) g)).

(** An image with a window of four pixels and three distinct values. *)
Definition img_mixed : Np.array2 := [[0; 0; 9]; [1; 2; 9]; [9; 9; 9]].

(** Every pixel of the image is [c]. *)
Definition constant (c : Z) (g : Np.array2) : Prop :=
  Forall (Forall (eq c)) g.

(** The gradient field negated, in the integer dtype. *)
Definition neg2 (a : Np.array2) : Np.array2 :=
  map (map (fun v => Np.wrap64 (- v))) a.

(** Every element lies in [-255, 255], the invariant of a gradient pair. *)
Definition bounded (a : Np.array2) : Prop :=
  Forall (Forall (fun v => -255 <= v <= 255)) a.

(** A small gradient pair. *)
Definition sample_fx : Np.array2 := [[1; -2]; [0; 2]].
Definition sample_fy : Np.array2 := [[0; 1]; [-1; 2]].

(** The term [p * log2 p] of a density entry, over the reals; [None]
    where numpy masks it (the entry is not a positive finite number). *)
Definition plog2p (d : Np.float64) : option R :=
  match d with
  | Np.Fin x => if Rlt_dec 0 x then Some (x * (ln x / ln 2))%R else None
  | _ => None
  end.

(** A masked entry read as 0. *)
Definition unmask (o : option R) : R :=
  match o with Some t => t | None => 0%R end.

(** Every pixel is an 8-bit sample. *)
Definition eight_bit (g : Np.array2) : Prop :=
  Forall (Forall (fun p => 0 <= p <= 255)) g.

(** The image with [c] added to every pixel. *)
Definition offset (c : Z) (g : Np.array2) : Np.array2 :=
  map (map (Z.add c)) g.

(** The entropy, in bits, of the pixels of a flat array read as masses:
    minus the sum of [q log2 q] over the entries, [q] the share of the
    entry in the total. *)
Definition flat_entropy (xs : list Z) : R :=
  (- Rsum (map (fun p => xlnx (IZR p / IZR (Zsum xs))) xs) / ln 2)%R.

(** The image with every pixel multiplied by [c]. *)
Definition scaled (c : Z) (g : Np.array2) : Np.array2 :=
  map (map (Z.mul c)) g.

(** No pixel is negative. *)
Definition nonnegative (g : Np.array2) : Prop :=
  Forall (Forall (fun p => 0 <= p)) g.


(* ------------------------------------------------------------------ *)
(** * The method registry and the [--method] validator *)

Section Registry.
Import Methods.
Local Open Scope string_scope.

Lemma lookup_in_keys (name : string) (d : list (string * method)) :
  (exists f, lookup name d = Some f) <-> In name (map fst d).
Proof.
  induction d as [|[k f] d IH]; simpl.
  - split; [intros [f H]; discriminate | tauto].
  - destruct (String.eqb k name) eqn:E.
    + apply String.eqb_eq in E. split; [auto | eauto].
    + rewrite IH. split; [auto | intros [H | H]; [| exact H]].
      apply String.eqb_eq in H. congruence.
Qed.

Lemma argtypemethod_ok (val : string) :
  Main.argtypemethod val = Py.Ok val <-> In val main_names.
Proof.
  unfold Main.argtypemethod, main_names; simpl.
  destruct (String.eqb_spec val "pseudo-spatial");
    destruct (String.eqb_spec val "2d-delentropy");
    destruct (String.eqb_spec val "2d-gradient"); simpl;
    split; intros H; auto; try discriminate.
  intuition congruence.
Qed.

Lemma argtypemethod_total (val : string) :
  Main.argtypemethod val = Py.Ok val
  \/ Main.argtypemethod val = Py.Raise Py.ArgumentTypeError.
Proof.
  unfold Main.argtypemethod.
  destruct (negb _ && negb _ && negb _); auto.
Qed.

(** C8, as stated, fails on the validator of [main.py]: the registry name
    [1d-kapur] is rejected, and [pseudo-spatial], which is not one of the
    seven names, is accepted. *)
Lemma C8_validator_rejects_registry_name :
  In "1d-kapur" registry_names
  /\ Main.parse_method (Some "1d-kapur") = Py.Raise Py.ArgumentTypeError
  /\ ~ In "pseudo-spatial" registry_names
  /\ Main.parse_method (Some "pseudo-spatial") = Py.Ok "pseudo-spatial".
Proof.
  repeat split; try reflexivity.
  - simpl; auto.
  - simpl. intuition discriminate.
Qed.

(** C8 (amended): the registry [strtofunc] has exactly the seven method
    names as keys and [2d-delentropy] as its default; the [--method]
    validator [argtypemethod] accepts exactly [pseudo-spatial],
    [2d-delentropy] and [2d-gradient], returns an accepted value
    unchanged, raises the argument type error on every other value, and
    the option defaults to [2d-delentropy]. *)
Theorem C8_registry_and_validator :
  (forall name,
     (exists f, lookup name strtofunc = Some f) <-> In name registry_names)
  /\ Methods.default = "2d-delentropy"
  /\ (forall val,
        Main.parse_method (Some val) = Py.Ok val <-> In val main_names)
  /\ (forall val,
        ~ In val main_names <->
        Main.parse_method (Some val) = Py.Raise Py.ArgumentTypeError)
  /\ Main.parse_method None = Py.Ok "2d-delentropy".
Proof.
  split; [intros name; apply (lookup_in_keys name strtofunc) |].
  split; [reflexivity |].
  split; [intros val; apply argtypemethod_ok |].
  split; [| reflexivity].
  intros val; unfold Main.parse_method. rewrite <- argtypemethod_ok.
  destruct (argtypemethod_total val) as [H | H]; rewrite H;
    split; intros G; try congruence; try discriminate.
Qed.

End Registry.

(* ------------------------------------------------------------------ *)
(** * Slices and element-wise operations *)

Section Slices.
Context {A : Type}.
Implicit Types xs : list A.

Lemma slice_index_nonneg (len idx : Z) :
  0 <= idx -> Py.slice_index len idx = Z.min idx len.
Proof.
  intros H. unfold Py.slice_index.
  destruct (idx <? 0) eqn:E; [lia | reflexivity].
Qed.

Lemma slice_index_neg (len idx : Z) :
  idx < 0 -> Py.slice_index len idx = Z.max 0 (idx + len).
Proof.
  intros H. unfold Py.slice_index.
  destruct (idx <? 0) eqn:E; [reflexivity | lia].
Qed.

Lemma slice_from_skipn (k : Z) xs :
  0 <= k -> Py.slice_from k xs = skipn (Z.to_nat k) xs.
Proof.
  intros Hk. unfold Py.slice_from, Py.slice.
  rewrite !slice_index_nonneg by lia.
  destruct (Z.le_gt_cases k (Z.of_nat (length xs))) as [Hle | Hgt].
  - rewrite Z.min_id. rewrite (Z.min_l k) by lia.
    apply firstn_all2. rewrite length_skipn. lia.
  - rewrite Z.min_id. rewrite (Z.min_r k) by lia.
    rewrite Z.sub_diag. simpl firstn.
    symmetry. apply skipn_all2. lia.
Qed.

Lemma slice_to_neg (k : Z) xs :
  0 < k -> Py.slice_to (- k) xs = firstn (length xs - Z.to_nat k) xs.
Proof.
  intros Hk. unfold Py.slice_to, Py.slice.
  rewrite (slice_index_nonneg _ 0) by lia.
  rewrite (slice_index_neg _ (- k)) by lia.
  rewrite (Z.min_l 0) by lia. simpl (Z.to_nat 0). simpl skipn.
  f_equal. lia.
Qed.

Lemma slice_to_firstn (k : Z) xs :
  0 <= k -> Py.slice_to k xs = firstn (Z.to_nat k) xs.
Proof.
  intros Hk. unfold Py.slice_to, Py.slice.
  rewrite !slice_index_nonneg by lia.
  rewrite (Z.min_l 0) by lia. simpl (Z.to_nat 0). simpl skipn.
  destruct (Z.le_gt_cases k (Z.of_nat (length xs))) as [Hle | Hgt].
  - rewrite (Z.min_l k) by lia. f_equal. lia.
  - rewrite (Z.min_r k) by lia. rewrite !firstn_all2; auto; lia.
Qed.

Lemma slice_interior xs :
  Py.slice 1 (-1) xs = firstn (length xs - 2) (skipn 1 xs).
Proof.
  unfold Py.slice.
  rewrite (slice_index_nonneg _ 1) by lia.
  rewrite (slice_index_neg _ (-1)) by lia.
  destruct xs as [| x xs']; [reflexivity |].
  rewrite Z.min_l by (simpl length; lia).
  rewrite Z.max_r by (simpl length; lia).
  f_equal. simpl length. lia.
Qed.

(** A window [a : b] with [0 <= a <= b <= len]. *)
Lemma slice_window (a b : Z) xs :
  0 <= a -> a <= b -> b <= Z.of_nat (length xs) ->
  Py.slice a b xs = firstn (Z.to_nat (b - a)) (skipn (Z.to_nat a) xs).
Proof.
  intros Ha Hab Hb. unfold Py.slice.
  rewrite !slice_index_nonneg by lia.
  rewrite (Z.min_l a), (Z.min_l b) by lia. reflexivity.
Qed.

Lemma nth_skipn_shift (k n : nat) xs (d : A) :
  nth n (skipn k xs) d = nth (k + n) xs d.
Proof.
  revert xs; induction k as [| k IH]; intros xs; [reflexivity |].
  destruct xs as [| x xs]; [destruct n; reflexivity |].
  simpl. apply IH.
Qed.

Lemma nth_firstn_lt (k n : nat) xs (d : A) :
  (n < k)%nat -> nth n (firstn k xs) d = nth n xs d.
Proof.
  revert n xs; induction k as [| k IH]; intros n xs Hn; [lia |].
  destruct xs as [| x xs]; [reflexivity |].
  destruct n as [| n]; [reflexivity |].
  simpl. apply IH. lia.
Qed.

End Slices.

Section ZipWith.
Context {A B C : Type} (f : A -> B -> C).

Lemma zip_with_length (xs : list A) (ys : list B) :
  length (Np.zip_with f xs ys) = Nat.min (length xs) (length ys).
Proof.
  unfold Np.zip_with. rewrite length_map. apply length_combine.
Qed.

Lemma zip_with_nth (xs : list A) (ys : list B) (n : nat)
    (dx : A) (dy : B) (d : C) :
  (n < length xs)%nat -> (n < length ys)%nat ->
  nth n (Np.zip_with f xs ys) d = f (nth n xs dx) (nth n ys dy).
Proof.
  revert ys n; induction xs as [| x xs IH]; intros ys n Hx Hy;
    [simpl in Hx; lia |].
  destruct ys as [| y ys]; [simpl in Hy; lia |].
  destruct n as [| n]; [reflexivity |].
  simpl in *. apply IH; lia.
Qed.

End ZipWith.

(* ------------------------------------------------------------------ *)
(** * delentropy2d: the gradient pair *)

Section Gradients.
Import Np Methods.

Lemma zip_with_map_same {A B C D : Type} (f : B -> C -> D)
    (a : A -> B) (b : A -> C) (l : list A) :
  zip_with f (map a l) (map b l) = map (fun x => f (a x) (b x)) l.
Proof.
  unfold zip_with. induction l as [| x l IH]; simpl; [| rewrite IH];
    reflexivity.
Qed.

Lemma nth_map_lt {A B : Type} (f : A -> B) (l : list A) (n : nat)
    (d : B) (d' : A) :
  (n < length l)%nat -> nth n (map f l) d = f (nth n l d').
Proof.
  intros H. rewrite (nth_indep _ d (f d')) by (rewrite length_map; exact H).
  apply map_nth.
Qed.

Lemma rect_nth (w : nat) (a : array2) (r : nat) :
  rect w a -> (r < length a)%nat -> length (nth r a []) = w.
Proof.
  intros Hr Hlt. unfold rect in Hr. rewrite Forall_forall in Hr.
  apply Hr. apply nth_In. exact Hlt.
Qed.

Lemma delentropy_fx_unfold (g : array2) :
  delentropy_fx g =
  firstn (length g - 2)
    (skipn 1
       (map (fun row => rowsub (skipn 2 row)
                               (firstn (length row - 2) row)) g)).
Proof.
  unfold delentropy_fx, sub2. rewrite slice_interior.
  rewrite (map_ext (Py.slice_from 2) (skipn 2))
    by (intros row; apply slice_from_skipn; lia).
  rewrite (map_ext (Py.slice_to (-2))
             (fun row => firstn (length row - 2) row))
    by (intros row; apply (slice_to_neg 2); lia).
  rewrite zip_with_map_same. rewrite length_map. reflexivity.
Qed.

Lemma delentropy_fy_unfold (g : array2) :
  delentropy_fy g =
  map (fun row => firstn (length row - 2) (skipn 1 row))
      (zip_with rowsub (skipn 2 g) (firstn (length g - 2) g)).
Proof.
  unfold delentropy_fy, sub2.
  rewrite slice_from_skipn by lia.
  rewrite (slice_to_neg 2) by lia.
  apply map_ext. intros row. apply slice_interior.
Qed.

Lemma rowsub_length (xs ys : list Z) :
  length (rowsub xs ys) = Nat.min (length xs) (length ys).
Proof. apply zip_with_length. Qed.

Lemma delentropy_fx_rows (g : array2) :
  length (delentropy_fx g) = (length g - 2)%nat.
Proof.
  rewrite delentropy_fx_unfold, length_firstn, length_skipn, length_map.
  lia.
Qed.

Lemma delentropy_fy_rows (g : array2) :
  length (delentropy_fy g) = (length g - 2)%nat.
Proof.
  rewrite delentropy_fy_unfold, length_map, zip_with_length,
    length_skipn, length_firstn.
  lia.
Qed.

Lemma delentropy_fx_row (g : array2) (r : nat) :
  (r < length g - 2)%nat ->
  nth r (delentropy_fx g) [] =
  rowsub (skipn 2 (nth (S r) g []))
         (firstn (length (nth (S r) g []) - 2) (nth (S r) g [])).
Proof.
  intros Hr. rewrite delentropy_fx_unfold.
  rewrite nth_firstn_lt by exact Hr.
  rewrite nth_skipn_shift.
  rewrite (nth_map_lt _ g (1 + r) [] []) by lia.
  reflexivity.
Qed.

Lemma delentropy_fy_row (g : array2) (r : nat) :
  (r < length g - 2)%nat ->
  nth r (delentropy_fy g) [] =
  firstn (length (rowsub (nth (2 + r) g []) (nth r g [])) - 2)
         (skipn 1 (rowsub (nth (2 + r) g []) (nth r g []))).
Proof.
  intros Hr. rewrite delentropy_fy_unfold.
  rewrite (nth_map_lt _ _ r [] [])
    by (rewrite zip_with_length, length_skipn, length_firstn; lia).
  rewrite (zip_with_nth rowsub _ _ r [] [] [])
    by (rewrite ?length_skipn, ?length_firstn; lia).
  rewrite nth_skipn_shift, nth_firstn_lt by exact Hr.
  reflexivity.
Qed.

Lemma delentropy_fx_row_length (g : array2) (w r : nat) :
  rect w g -> (r < length g - 2)%nat ->
  length (nth r (delentropy_fx g) []) = (w - 2)%nat.
Proof.
  intros Hg Hr. rewrite delentropy_fx_row by exact Hr.
  rewrite rowsub_length, length_skipn, length_firstn.
  rewrite (rect_nth w g (S r) Hg) by lia. lia.
Qed.

Lemma delentropy_fy_row_length (g : array2) (w r : nat) :
  rect w g -> (r < length g - 2)%nat ->
  length (nth r (delentropy_fy g) []) = (w - 2)%nat.
Proof.
  intros Hg Hr. rewrite delentropy_fy_row by exact Hr.
  rewrite length_firstn, length_skipn, rowsub_length.
  rewrite (rect_nth w g (2 + r) Hg), (rect_nth w g r Hg) by lia. lia.
Qed.

Lemma rect_of_rows (w : nat) (a : array2) :
  (forall r, (r < length a)%nat -> length (nth r a []) = w) -> rect w a.
Proof.
  intros H. unfold rect. rewrite Forall_forall. intros row Hin.
  destruct (In_nth _ _ [] Hin) as [r [Hr Heq]]. rewrite <- Heq. auto.
Qed.

Lemma delentropy_fx_at (g : array2) (w r c : nat) :
  rect w g -> (r < length g - 2)%nat -> (c < w - 2)%nat ->
  at2 (delentropy_fx g) r c =
  wrap64 (at2 g (r + 1) (c + 2) - at2 g (r + 1) c).
Proof.
  intros Hg Hr Hc. unfold at2.
  rewrite delentropy_fx_row by exact Hr.
  replace (r + 1)%nat with (S r) by lia.
  assert (Hw : length (nth (S r) g []) = w) by (apply rect_nth; [auto | lia]).
  unfold rowsub.
  rewrite (zip_with_nth _ _ _ c 0 0 0)
    by (rewrite ?length_skipn, ?length_firstn; lia).
  rewrite nth_skipn_shift, nth_firstn_lt by lia.
  replace (2 + c)%nat with (c + 2)%nat by lia. reflexivity.
Qed.

Lemma delentropy_fy_at (g : array2) (w r c : nat) :
  rect w g -> (r < length g - 2)%nat -> (c < w - 2)%nat ->
  at2 (delentropy_fy g) r c =
  wrap64 (at2 g (r + 2) (c + 1) - at2 g r (c + 1)).
Proof.
  intros Hg Hr Hc. unfold at2.
  rewrite delentropy_fy_row by exact Hr.
  assert (Hw2 : length (nth (2 + r) g []) = w) by (apply rect_nth; [auto | lia]).
  assert (Hw0 : length (nth r g []) = w) by (apply rect_nth; [auto | lia]).
  rewrite rowsub_length, Hw2, Hw0.
  rewrite nth_firstn_lt by lia. rewrite nth_skipn_shift.
  unfold rowsub.
  rewrite (zip_with_nth _ _ _ (1 + c) 0 0 0) by lia.
  replace (r + 2)%nat with (2 + r)%nat by lia.
  replace (c + 1)%nat with (1 + c)%nat by lia. reflexivity.
Qed.

(** C4, as stated, fails: on a 5x5 image the code's [fx] is 3x3 while
    dropping the first and last column of [fx] would leave a 5x1 array,
    and the crop in the words of the claim gives [fx] and [fy]
    different shapes (5x1 and 1x5). *)
Lemma C4_claimed_crop_differs :
  delentropy_fx img5 <> claimed_fx img5
  /\ shape (delentropy_fx img5) = (3, 3)
  /\ shape (claimed_fx img5) = (5, 1)
  /\ shape (claimed_fy img5) = (1, 5)
  /\ shape (claimed_fx img5) <> shape (claimed_fy img5).
Proof.
  repeat split; try (vm_compute; reflexivity);
    vm_compute; intros H; discriminate H.
Qed.

(** C4 (amended): in delentropy2d, [fx] and [fy] are the differences
    [f(n+1) - f(n-1)] along axis 1 and axis 0 respectively, cropped to the
    common interior by dropping the first and last row of [fx] and the
    first and last column of [fy]; on an image of [h] rows and [w]
    columns both then have [h - 2] rows of [w - 2] entries, with
    [fx[r][c] = g[r+1][c+2] - g[r+1][c]] and
    [fy[r][c] = g[r+2][c+1] - g[r][c+1]] (in the integer dtype). *)
Theorem C4_gradient_pair (g : array2) (w : nat) (Hg : rect w g) :
  length (delentropy_fx g) = (length g - 2)%nat
  /\ length (delentropy_fy g) = (length g - 2)%nat
  /\ rect (w - 2) (delentropy_fx g)
  /\ rect (w - 2) (delentropy_fy g)
  /\ forall r c, (r < length g - 2)%nat -> (c < w - 2)%nat ->
       at2 (delentropy_fx g) r c
         = wrap64 (at2 g (r + 1) (c + 2) - at2 g (r + 1) c)
       /\ at2 (delentropy_fy g) r c
         = wrap64 (at2 g (r + 2) (c + 1) - at2 g r (c + 1)).
Proof.
  split; [apply delentropy_fx_rows |].
  split; [apply delentropy_fy_rows |].
  split.
  { apply rect_of_rows. intros r Hr. rewrite delentropy_fx_rows in Hr.
    apply delentropy_fx_row_length; assumption. }
  split.
  { apply rect_of_rows. intros r Hr. rewrite delentropy_fy_rows in Hr.
    apply delentropy_fy_row_length; assumption. }
  intros r c Hr Hc. split.
  - apply (delentropy_fx_at g w); assumption.
  - apply (delentropy_fy_at g w); assumption.
Qed.

Lemma C4_gradient_pair_witness :
  rect 5 img5
  /\ (length (delentropy_fx img5) = (length img5 - 2)%nat
      /\ length (delentropy_fy img5) = (length img5 - 2)%nat
      /\ rect (5 - 2) (delentropy_fx img5)
      /\ rect (5 - 2) (delentropy_fy img5)
      /\ forall r c, (r < length img5 - 2)%nat -> (c < 5 - 2)%nat ->
           at2 (delentropy_fx img5) r c
             = wrap64 (at2 img5 (r + 1) (c + 2) - at2 img5 (r + 1) c)
           /\ at2 (delentropy_fy img5) r c
             = wrap64 (at2 img5 (r + 2) (c + 1) - at2 img5 r (c + 1))).
Proof.
  assert (H : rect 5 img5) by (repeat constructor).
  split; [exact H | apply (C4_gradient_pair img5 5 H)].
Defined.

End Gradients.

(* ------------------------------------------------------------------ *)
(** * delentropy2d: the range assertion and the joint histogram *)

Section JointHistogram.
Import Np Methods.

Lemma fold_max_ge (xs : list Z) (x : Z) :
  x <= fold_left Z.max xs x
  /\ (forall y, In y xs -> y <= fold_left Z.max xs x)
  /\ In (fold_left Z.max xs x) (x :: xs).
Proof.
  revert x; induction xs as [| a xs IH]; intros x; simpl.
  - split; [lia | split; [tauto | auto]].
  - destruct (IH (Z.max x a)) as (H1 & H2 & H3).
    split; [lia | split].
    + intros y [-> | Hy]; [lia | auto].
    + destruct H3 as [H3 | H3]; [| auto].
      destruct (Z.max_spec x a) as [[_ E] | [_ E]]; rewrite E in *; auto.
Qed.

Lemma np_max_spec (xs : list Z) (m : Z) :
  Np.max xs = Py.Ok m -> In m xs /\ forall y, In y xs -> y <= m.
Proof.
  destruct xs as [| x xs]; simpl; intros H; [discriminate |].
  injection H as <-.
  destruct (fold_max_ge xs x) as (H1 & H2 & H3). split; [exact H3 |].
  intros y [<- | Hy]; auto.
Qed.

Lemma np_max_ok (xs : list Z) :
  xs <> [] -> exists m, Np.max xs = Py.Ok m.
Proof. destruct xs; [congruence | simpl; eauto]. Qed.

(** [J] is the greatest of the absolute values of both arrays. *)
Lemma delentropy_jrng_spec (fx fy : array2) (J : Z) :
  delentropy_jrng fx fy = Py.Ok J ->
  In J (abs (flatten fx) ++ abs (flatten fy))
  /\ forall v, In v (abs (flatten fx) ++ abs (flatten fy)) -> v <= J.
Proof.
  unfold delentropy_jrng, Py.bind.
  destruct (Np.max (abs (flatten fx))) as [mx | e] eqn:Ex; [| discriminate].
  destruct (Np.max (abs (flatten fy))) as [my | e] eqn:Ey; [| discriminate].
  intros H; injection H as <-.
  destruct (np_max_spec _ _ Ex) as [Hx1 Hx2].
  destruct (np_max_spec _ _ Ey) as [Hy1 Hy2].
  split.
  - apply in_or_app.
    destruct (Z.max_spec mx my) as [[_ E] | [_ E]]; rewrite E; auto.
  - intros v Hv. apply in_app_or in Hv as [Hv | Hv];
      [specialize (Hx2 v Hv) | specialize (Hy2 v Hv)]; lia.
Qed.

Lemma range_length (a b : Z) : length (Py.range a b) = Z.to_nat (b - a).
Proof. unfold Py.range. rewrite length_map, length_seq. reflexivity. Qed.

Lemma range_nth (a b : Z) (n : nat) (d : Z) :
  (n < Z.to_nat (b - a))%nat -> nth n (Py.range a b) d = a + Z.of_nat n.
Proof.
  intros H. unfold Py.range.
  rewrite (nth_indep _ d (a + Z.of_nat 0))
    by (rewrite length_map, length_seq; exact H).
  rewrite (map_nth (fun n => a + Z.of_nat n)).
  rewrite seq_nth by exact H. reflexivity.
Qed.

Lemma histogram2d_rows (xs ys : list Z) (nbins lo hi : Z) :
  length (histogram2d xs ys nbins lo hi) = Z.to_nat nbins
  /\ rect (Z.to_nat nbins) (histogram2d xs ys nbins lo hi).
Proof.
  unfold histogram2d. split.
  - rewrite length_map, range_length. f_equal. lia.
  - unfold rect. rewrite Forall_forall. intros row Hin.
    apply in_map_iff in Hin as [a [<- _]].
    rewrite length_map, range_length. f_equal. lia.
Qed.

Lemma histogram2d_at (xs ys : list Z) (nbins lo hi a b : Z) :
  0 <= a < nbins -> 0 <= b < nbins ->
  at2 (histogram2d xs ys nbins lo hi) (Z.to_nat a) (Z.to_nat b) =
  count (fun p => in_bin nbins lo hi a (fst p) && in_bin nbins lo hi b (snd p))
        (combine xs ys).
Proof.
  intros Ha Hb. unfold at2, histogram2d.
  rewrite (nth_map_lt _ _ _ [] 0) by (rewrite range_length; lia).
  rewrite (nth_map_lt _ _ _ 0 0) by (rewrite range_length; lia).
  rewrite !range_nth by lia.
  replace (0 + Z.of_nat (Z.to_nat a)) with a by lia.
  replace (0 + Z.of_nat (Z.to_nat b)) with b by lia.
  reflexivity.
Qed.

(** One bin per integer gradient value: over [2J+1] bins on [-J, J] the
    bin of index [a + J] holds exactly the samples equal to [a]. *)
Lemma hist_bin_integer (J v : Z) :
  0 <= J -> - J <= v <= J ->
  hist_bin (2 * J + 1) (- J) J v = Some (v + J).
Proof.
  intros HJ Hv. unfold hist_bin.
  destruct (Z.eqb_spec (- J) J) as [E | E].
  - assert (J = 0) by lia. subst J.
    assert (v = 0) by lia. subst v. reflexivity.
  - destruct (Z.ltb_spec v (- J)); [lia |].
    destruct (Z.ltb_spec J v); [lia |]. cbn [orb].
    destruct (Z.eqb_spec v J) as [-> | Hne]; [f_equal; lia |].
    f_equal. symmetry.
    apply (Z.div_unique _ _ _ (v + J)); [lia | ring].
Qed.

Lemma hist_bin_outside (J v : Z) :
  0 <= J -> ~ (- J <= v <= J) -> hist_bin (2 * J + 1) (- J) J v = None.
Proof.
  intros HJ Hv. unfold hist_bin.
  destruct (Z.eqb_spec (- J) J) as [E | E].
  - destruct (Z.eqb_spec v (- J)); [lia | reflexivity].
  - destruct (Z.ltb_spec v (- J)); [reflexivity |].
    destruct (Z.ltb_spec J v); [reflexivity | lia].
Qed.

Lemma in_bin_integer (J a v : Z) :
  0 <= J -> - J <= a <= J ->
  in_bin (2 * J + 1) (- J) J (a + J) v = (v =? a).
Proof.
  intros HJ Ha. unfold in_bin.
  destruct (Z_le_dec (- J) v) as [H1 | H1];
    [destruct (Z_le_dec v J) as [H2 | H2] |].
  - rewrite hist_bin_integer by lia.
    destruct (Z.eqb_spec (v + J) (a + J)), (Z.eqb_spec v a);
      auto; lia.
  - rewrite hist_bin_outside by lia. symmetry. apply Z.eqb_neq. lia.
  - rewrite hist_bin_outside by lia. symmetry. apply Z.eqb_neq. lia.
Qed.

Lemma count_ext {A : Type} (f g : A -> bool) (xs : list A) :
  (forall x, f x = g x) -> count f xs = count g xs.
Proof.
  intros H. unfold count. f_equal. f_equal. apply filter_ext. exact H.
Qed.

Lemma delentropy_hist_at (fx fy : array2) (J a b : Z) :
  0 <= J -> - J <= a <= J -> - J <= b <= J ->
  at2 (delentropy_hist fx fy J) (Z.to_nat (a + J)) (Z.to_nat (b + J)) =
  count (fun p => (fst p =? a) && (snd p =? b))
        (combine (flatten fx) (flatten fy)).
Proof.
  intros HJ Ha Hb. unfold delentropy_hist.
  rewrite histogram2d_at by lia.
  apply count_ext. intros p. rewrite !in_bin_integer by lia. reflexivity.
Qed.

Lemma delentropy_pipeline_cases (fx fy : array2) :
  match delentropy_jrng fx fy with
  | Py.Raise e => delentropy_pipeline fx fy = Py.Raise e
  | Py.Ok J =>
      if 255 <? J
      then delentropy_pipeline fx fy = Py.Raise Py.AssertionError
      else exists out,
          delentropy_pipeline fx fy = Py.Ok out
          /\ del_hist out = delentropy_hist fx fy J
          /\ del_entropy out = delentropy_entropy (delentropy_hist fx fy J)
  end.
Proof.
  unfold delentropy_pipeline, Py.bind.
  destruct (delentropy_jrng fx fy) as [J | e]; [| reflexivity].
  destruct (255 <? J); [reflexivity |].
  eexists; split; [reflexivity | split; reflexivity].
Qed.

Lemma delentropy_jrng_raises (fx fy : array2) (e : Py.exn) :
  delentropy_jrng fx fy = Py.Raise e -> e = Py.ValueError.
Proof.
  unfold delentropy_jrng, Py.bind, Np.max.
  destruct (abs (flatten fx)); [intros H; injection H as <-; reflexivity |].
  destruct (abs (flatten fy)); [intros H; injection H as <-; reflexivity |].
  discriminate.
Qed.

(** C5: delentropy2d fails with the assertion error exactly when [J],
    the greatest absolute value over [fx] and [fy], exceeds 255; when
    [J <= 255] the assertion does not fire and the method builds the
    joint histogram with [2J+1] bins per axis over [-J, J], one bin per
    integer gradient value: the bin [(a + J, b + J)] counts the pairs
    equal to [(a, b)].  ([J] is non-negative unless a gradient is the
    smallest 64-bit integer, whose absolute value wraps.) *)
Theorem C5_range_assertion (g : array2) :
  (delentropy2d g = Py.Raise Py.AssertionError <->
   exists J, delentropy_jrng (delentropy_fx g) (delentropy_fy g) = Py.Ok J
             /\ 255 < J)
  /\ (forall J,
        delentropy_jrng (delentropy_fx g) (delentropy_fy g) = Py.Ok J ->
        In J (abs (flatten (delentropy_fx g))
              ++ abs (flatten (delentropy_fy g)))
        /\ forall v,
             In v (abs (flatten (delentropy_fx g))
                   ++ abs (flatten (delentropy_fy g))) -> v <= J)
  /\ (forall J,
        delentropy_jrng (delentropy_fx g) (delentropy_fy g) = Py.Ok J ->
        0 <= J <= 255 ->
        exists out,
          delentropy2d g = Py.Ok out
          /\ length (del_hist out) = Z.to_nat (2 * J + 1)
          /\ rect (Z.to_nat (2 * J + 1)) (del_hist out)
          /\ forall a b, - J <= a <= J -> - J <= b <= J ->
               at2 (del_hist out) (Z.to_nat (a + J)) (Z.to_nat (b + J)) =
               count (fun p => (fst p =? a) && (snd p =? b))
                     (combine (flatten (delentropy_fx g))
                              (flatten (delentropy_fy g)))).
Proof.
  unfold delentropy2d.
  pose proof (delentropy_pipeline_cases (delentropy_fx g) (delentropy_fy g))
    as Hc.
  split; [| split].
  - destruct (delentropy_jrng (delentropy_fx g) (delentropy_fy g))
      as [J | e] eqn:EJ.
    + destruct (Z.ltb_spec 255 J) as [Hgt | Hle].
      * split; [intros _; exists J; auto | intros _; exact Hc].
      * destruct Hc as (out & Hout & _). rewrite Hout. split.
        -- discriminate.
        -- intros (J' & HJ' & Hgt). injection HJ' as <-. lia.
    + rewrite Hc. apply delentropy_jrng_raises in EJ. subst e. split.
      * discriminate.
      * intros (J' & HJ' & _). discriminate.
  - intros J HJ. apply delentropy_jrng_spec. exact HJ.
  - intros J HJ HJr. rewrite HJ in Hc.
    destruct (Z.ltb_spec 255 J) as [Hgt | Hle]; [lia |].
    destruct Hc as (out & Hout & Hhist & _). exists out.
    split; [exact Hout |]. rewrite Hhist. unfold delentropy_hist.
    split; [apply histogram2d_rows |].
    split; [apply histogram2d_rows |].
    intros a b Ha Hb. apply (delentropy_hist_at _ _ J a b); lia.
Qed.

Lemma C5_range_assertion_witness :
  exists out,
    delentropy2d img5 = Py.Ok out
    /\ length (del_hist out) = Z.to_nat (2 * 12 + 1)
    /\ rect (Z.to_nat (2 * 12 + 1)) (del_hist out)
    /\ forall a b, - 12 <= a <= 12 -> - 12 <= b <= 12 ->
         at2 (del_hist out) (Z.to_nat (a + 12)) (Z.to_nat (b + 12)) =
         count (fun p => (fst p =? a) && (snd p =? b))
               (combine (flatten (delentropy_fx img5))
                        (flatten (delentropy_fy img5))).
Proof.
  apply (proj2 (proj2 (C5_range_assertion img5)) 12).
  - vm_compute. reflexivity.
  - lia.
Defined.

End JointHistogram.

(* ------------------------------------------------------------------ *)
(** * kapur1d: the range of filled bins *)

Section FilledBins.
Import Np Methods.

Lemma range_cons (a b : Z) : a < b -> Py.range a b = a :: Py.range (a + 1) b.
Proof.
  intros H. unfold Py.range.
  replace (Z.to_nat (b - a)) with (S (Z.to_nat (b - (a + 1)))) by lia.
  simpl. f_equal; [lia |].
  rewrite <- seq_shift, map_map. apply map_ext. intros n. lia.
Qed.

Lemma range_nil (a b : Z) : b <= a -> Py.range a b = [].
Proof.
  intros H. unfold Py.range.
  replace (Z.to_nat (b - a)) with O by lia. reflexivity.
Qed.

Lemma range_snoc (a b : Z) :
  a <= b -> Py.range a (b + 1) = Py.range a b ++ [b].
Proof.
  intros H. unfold Py.range.
  replace (Z.to_nat (b + 1 - a)) with (Z.to_nat (b - a) + 1)%nat by lia.
  rewrite seq_app, map_app. simpl. do 2 f_equal. lia.
Qed.

Lemma in_range (a b x : Z) : In x (Py.range a b) <-> a <= x < b.
Proof.
  unfold Py.range. rewrite in_map_iff. split.
  - intros [n [<- Hn]]. apply in_seq in Hn. lia.
  - intros H. exists (Z.to_nat (x - a)). split; [lia |].
    apply in_seq. lia.
Qed.

(** The indices of the non-zero entries, counted from [k]. *)
Lemma nonzero_from (k : Z) (xs : list Z) :
  map fst (filter (fun p => negb (snd p =? 0))
             (combine (Py.range k (k + Z.of_nat (length xs))) xs)) =
  match xs with
  | [] => []
  | x :: r =>
      (if x =? 0 then [] else [k])
      ++ map fst (filter (fun p => negb (snd p =? 0))
                    (combine (Py.range (k + 1)
                                (k + 1 + Z.of_nat (length r))) r))
  end.
Proof.
  destruct xs as [| x r]; [rewrite range_nil by (simpl; lia); reflexivity |].
  rewrite range_cons by (simpl length; lia).
  replace (k + Z.of_nat (length (x :: r)))
    with (k + 1 + Z.of_nat (length r)) by (simpl length; lia).
  simpl. destruct (x =? 0); reflexivity.
Qed.

Lemma nonzero_from_spec (xs : list Z) : forall (k i : Z),
  In i (map fst (filter (fun p => negb (snd p =? 0))
                   (combine (Py.range k (k + Z.of_nat (length xs))) xs)))
  <-> k <= i < k + Z.of_nat (length xs)
      /\ nth (Z.to_nat (i - k)) xs 0 <> 0.
Proof.
  induction xs as [| x r IH]; intros k i.
  - rewrite nonzero_from. simpl. split; [tauto | lia].
  - rewrite nonzero_from, in_app_iff, IH. simpl length.
    destruct (Z.eqb_spec x 0) as [-> | Hx]; simpl In.
    + split.
      * intros [[] | [H1 H2]]. split; [lia |].
        replace (Z.to_nat (i - k)) with (S (Z.to_nat (i - (k + 1)))) by lia.
        exact H2.
      * intros [H1 H2]. right.
        destruct (Z.eq_dec i k) as [-> | Hne];
          [rewrite Z.sub_diag in H2; simpl in H2; congruence |].
        split; [lia |].
        replace (Z.to_nat (i - k)) with (S (Z.to_nat (i - (k + 1))))
          in H2 by lia.
        exact H2.
    + split.
      * intros [[<- | []] | [H1 H2]].
        -- split; [lia |]. rewrite Z.sub_diag. exact Hx.
        -- split; [lia |].
           replace (Z.to_nat (i - k)) with (S (Z.to_nat (i - (k + 1))))
             by lia.
           exact H2.
      * intros [H1 H2].
        destruct (Z.eq_dec i k) as [-> | Hne]; [auto |]. right.
        split; [lia |].
        replace (Z.to_nat (i - k)) with (S (Z.to_nat (i - (k + 1))))
          in H2 by lia.
        exact H2.
Qed.

Lemma nonzero_spec (xs : list Z) (i : Z) :
  In i (nonzero xs)
  <-> 0 <= i < Z.of_nat (length xs) /\ item xs i <> 0.
Proof.
  unfold nonzero, item.
  rewrite (nonzero_from_spec xs 0 i). rewrite Z.sub_0_r. reflexivity.
Qed.

Lemma last_cons_default {A : Type} (r : list A) : forall (x d : A),
  last (x :: r) d = last r x.
Proof.
  induction r as [| y r IH]; intros x d; [reflexivity |].
  change (last (x :: y :: r) d) with (last (y :: r) d).
  rewrite (IH y d), (IH y x). reflexivity.
Qed.

(** The indices come out in increasing order, so the last is the
    greatest. *)
Lemma nonzero_from_le_last (xs : list Z) : forall (k i d : Z),
  In i (map fst (filter (fun p => negb (snd p =? 0))
                   (combine (Py.range k (k + Z.of_nat (length xs))) xs)))
  -> i <= last
            (map fst (filter (fun p => negb (snd p =? 0))
                        (combine (Py.range k (k + Z.of_nat (length xs)))
                                 xs))) d.
Proof.
  induction xs as [| x r IH]; intros k i d.
  - rewrite nonzero_from. simpl. tauto.
  - rewrite nonzero_from.
    assert (Hrest : forall j,
               In j (map fst (filter (fun p => negb (snd p =? 0))
                       (combine (Py.range (k + 1)
                                   (k + 1 + Z.of_nat (length r))) r)))
               -> k + 1 <= j).
    { intros j Hj. apply nonzero_from_spec in Hj. lia. }
    pose proof (IH (k + 1)) as IHk.
    remember (map fst (filter (fun p => negb (snd p =? 0))
                (combine (Py.range (k + 1)
                            (k + 1 + Z.of_nat (length r))) r))) as rest.
    destruct (Z.eqb_spec x 0) as [-> | Hx]; simpl app.
    + apply IHk.
    + rewrite last_cons_default. intros [<- | Hi]; [| apply IHk; exact Hi].
      destruct rest as [| j rest']; [simpl; lia |].
      assert (Hj : In j (j :: rest')) by (left; reflexivity).
      specialize (IHk j k Hj). specialize (Hrest j Hj). lia.
Qed.

Lemma last_in {A : Type} (r : list A) : forall x, In (last r x) (x :: r).
Proof.
  induction r as [| y r IH]; intros x; [left; reflexivity |].
  right. rewrite last_cons_default. apply IH.
Qed.

End FilledBins.

(* ------------------------------------------------------------------ *)
(** * float64 arithmetic on finite values *)

Section Floats.
Import Np.
Local Open Scope R_scope.

Lemma fdiv_fin (x y : R) : y <> 0 -> fdiv (Fin x) (Fin y) = Fin (x / y).
Proof.
  intros H. unfold fdiv. destruct (Req_EM_T y 0); [contradiction | reflexivity].
Qed.

Lemma fdiv_zero_zero : fdiv (Fin 0) (Fin 0) = NaN.
Proof.
  unfold fdiv. destruct (Req_EM_T 0 0) as [_ | H]; [reflexivity |].
  exfalso; apply H; reflexivity.
Qed.

Lemma fsub_fin (x y : R) : fsub (Fin x) (Fin y) = Fin (x - y).
Proof. reflexivity. Qed.

Lemma fold_fadd_fin (l : list R) : forall a,
  fold_left fadd (map Fin l) (Fin a) = Fin (a + Rsum l).
Proof.
  induction l as [| x l IH]; intros a; simpl.
  - f_equal. lra.
  - rewrite IH. f_equal. lra.
Qed.

Lemma fsum_fin (l : list R) : fsum (map Fin l) = Fin (Rsum l).
Proof. unfold fsum. rewrite fold_fadd_fin. f_equal. lra. Qed.

Lemma Rsum_app (l1 l2 : list R) : Rsum (l1 ++ l2) = Rsum l1 + Rsum l2.
Proof.
  induction l1 as [| x l1 IH]; simpl; [lra | rewrite IH; lra].
Qed.

Lemma flog_base_pos (b x : R) :
  0 < x -> flog_base b (Fin x) = Fin (ln x / b).
Proof.
  intros H. unfold flog_base.
  destruct (Rlt_dec x 0); [lra |].
  destruct (Req_EM_T x 0); [lra | reflexivity].
Qed.

Lemma flog_base_zero (b : R) : flog_base b (Fin 0) = Inf true.
Proof.
  unfold flog_base.
  destruct (Rlt_dec 0 0); [lra |].
  destruct (Req_EM_T 0 0) as [_ | H]; [reflexivity | exfalso; apply H; reflexivity].
Qed.

Lemma fle_fin (x y : R) : fle (Fin x) (Fin y) = true <-> x <= y.
Proof.
  unfold fle. destruct (Rle_dec x y); split; auto; discriminate.
Qed.

Lemma flt_fin (x y : R) : flt (Fin x) (Fin y) = true <-> x < y.
Proof.
  unfold flt. destruct (Rlt_dec x y); split; auto; discriminate.
Qed.

Lemma fgt_fin_true (x y : R) : y < x -> fgt (Fin x) (Fin y) = true.
Proof. intros H. apply flt_fin. exact H. Qed.

Lemma fgt_fin_false (x y : R) : x <= y -> fgt (Fin x) (Fin y) = false.
Proof.
  intros H. unfold fgt, flt. destruct (Rlt_dec y x); [lra | reflexivity].
Qed.

(** The masked logarithm of a finite value: masked at and below zero. *)
Lemma ma_domained_pos (b x : R) :
  0 < x -> ma_domained (flog_base b) (Fin x) = Some (Fin (ln x / b)).
Proof.
  intros H. unfold ma_domained. rewrite flog_base_pos by exact H.
  simpl. unfold fle. destruct (Rle_dec x 0); [lra | reflexivity].
Qed.

Lemma ma_domained_zero (b : R) : ma_domained (flog_base b) (Fin 0) = None.
Proof. unfold ma_domained. rewrite flog_base_zero. reflexivity. Qed.

Lemma ma_domained_nan (b : R) : ma_domained (flog_base b) NaN = None.
Proof. reflexivity. Qed.

Lemma xlnx_0 : xlnx 0 = 0.
Proof. unfold xlnx. lra. Qed.

Lemma xlnx_1 : xlnx 1 = 0.
Proof. unfold xlnx. rewrite ln_1. lra. Qed.

End Floats.

(* ------------------------------------------------------------------ *)
(** * kapur1d: the candidate entropies *)

Section KapurCandidates.
Import Np Methods.

Lemma cumsum_from_nth (xs : list Z) : forall (acc : Z) (n : nat),
  (n < length xs)%nat ->
  nth n (cumsum_from acc xs) 0 = acc + Zsum (firstn (S n) xs).
Proof.
  induction xs as [| x xs IH]; intros acc n Hn; [simpl in Hn; lia |].
  destruct n as [| n].
  - simpl. destruct xs; simpl; lia.
  - simpl in Hn. change (cumsum_from acc (x :: xs))
      with ((acc + x) :: cumsum_from (acc + x) xs).
    change (nth (S n) ((acc + x) :: cumsum_from (acc + x) xs) 0)
      with (nth n (cumsum_from (acc + x) xs) 0).
    rewrite IH by lia.
    change (firstn (S (S n)) (x :: xs)) with (x :: firstn (S n) xs).
    simpl Zsum. lia.
Qed.

Lemma cumsum_item (xs : list Z) (i : Z) :
  0 <= i < Z.of_nat (length xs) ->
  item (cumsum xs) i = Zsum (firstn (Z.to_nat (i + 1)) xs).
Proof.
  intros H. unfold item, cumsum.
  rewrite cumsum_from_nth by lia.
  replace (S (Z.to_nat i)) with (Z.to_nat (i + 1)) by lia. lia.
Qed.

Lemma Zsum_app (l1 l2 : list Z) : Zsum (l1 ++ l2) = Zsum l1 + Zsum l2.
Proof. induction l1 as [| x l1 IH]; simpl; [| rewrite IH]; lia. Qed.

Lemma Zsum_nonneg (l : list Z) : Forall (fun h => 0 <= h) l -> 0 <= Zsum l.
Proof. induction 1; simpl; lia. Qed.

Lemma Zsum_ge_elem (l : list Z) (x : Z) :
  Forall (fun h => 0 <= h) l -> In x l -> x <= Zsum l.
Proof.
  induction 1 as [| y l Hy Hl IH]; simpl; [tauto |].
  pose proof (Zsum_nonneg l Hl).
  intros [<- | Hin]; [lia | specialize (IH Hin); lia].
Qed.

Lemma in_firstn {A : Type} (n : nat) (l : list A) (x : A) :
  In x (firstn n l) -> In x l.
Proof.
  intros H. rewrite <- (firstn_skipn n l). apply in_or_app. auto.
Qed.

Lemma in_skipn {A : Type} (n : nat) (l : list A) (x : A) :
  In x (skipn n l) -> In x l.
Proof.
  intros H. rewrite <- (firstn_skipn n l). apply in_or_app. auto.
Qed.

Lemma Forall_firstn {A : Type} (P : A -> Prop) (n : nat) (l : list A) :
  Forall P l -> Forall P (firstn n l).
Proof.
  intros H. rewrite Forall_forall in *. intros x Hx.
  apply H. apply (in_firstn n). exact Hx.
Qed.

Lemma Forall_skipn {A : Type} (P : A -> Prop) (n : nat) (l : list A) :
  Forall P l -> Forall P (skipn n l).
Proof.
  intros H. rewrite Forall_forall in *. intros x Hx.
  apply H. apply (in_skipn n). exact Hx.
Qed.

Local Open Scope R_scope.

Lemma IZR_pos (z : Z) : (0 < z)%Z -> 0 < IZR z.
Proof. intros H. apply (IZR_lt 0 z). exact H. Qed.

Lemma div_IZR_pos (h c : Z) : (0 < h)%Z -> (0 < c)%Z -> 0 < IZR h / IZR c.
Proof.
  intros Hh Hc. apply Rdiv_lt_0_compat; apply IZR_pos; assumption.
Qed.

(** The masked terms [x * ma.log(x)] of a partition of non-negative
    counts divided by a positive total. *)
Lemma masked_terms (b : R) (l : list Z) (c : Z) :
  (0 < c)%Z -> Forall (fun h => (0 <= h)%Z) l ->
  map (fun x => ma_mul x (ma_domained (flog_base b) x))
      (map (fun h => fdiv (of_int h) (of_int c)) l) =
  map (fun h => if (h =? 0)%Z then None
                else Some (Fin (IZR h / IZR c * (ln (IZR h / IZR c) / b))))
      l.
Proof.
  intros Hc Hl. rewrite map_map. apply map_ext_in. intros h Hh.
  rewrite Forall_forall in Hl. specialize (Hl h Hh).
  unfold of_int. rewrite fdiv_fin by (apply Rgt_not_eq, IZR_pos, Hc).
  destruct (Z.eqb_spec h 0) as [-> | Hne].
  - replace (0 / IZR c) with 0
      by (unfold Rdiv; rewrite Rmult_0_l; reflexivity).
    rewrite ma_domained_zero. reflexivity.
  - rewrite ma_domained_pos by (apply div_IZR_pos; lia). reflexivity.
Qed.

Lemma ma_sum_masked_terms (f : Z -> R) (l : list Z) :
  f 0%Z = 0 -> (exists h, In h l /\ h <> 0%Z) ->
  ma_sum (map (fun h => if (h =? 0)%Z then None else Some (Fin (f h))) l)
  = Some (Fin (Rsum (map f l))).
Proof.
  intros Hf (h & Hin & Hne). unfold ma_sum.
  assert (E : forallb is_masked
                (map (fun h => if (h =? 0)%Z then None
                               else Some (Fin (f h))) l) = false).
  { apply not_true_is_false. intros Hall.
    rewrite forallb_forall in Hall.
    specialize (Hall (if (h =? 0)%Z then None else Some (Fin (f h)))).
    destruct (Z.eqb_spec h 0); [contradiction |].
    assert (is_masked (Some (Fin (f h))) = true)
      by (apply Hall, in_map_iff; exists h; split; auto;
          destruct (Z.eqb_spec h 0); [contradiction | reflexivity]).
    discriminate. }
  rewrite E. f_equal. rewrite map_map.
  rewrite <- fsum_fin, map_map. f_equal. apply map_ext. intros z.
  destruct (Z.eqb_spec z 0) as [-> | _]; [rewrite Hf |]; reflexivity.
Qed.

Lemma ma_sum_all_masked (l : list masked) :
  Forall (fun m => m = None) l -> ma_sum l = None.
Proof.
  intros H. unfold ma_sum.
  replace (forallb is_masked l) with true; [reflexivity |].
  symmetry. apply forallb_forall. rewrite Forall_forall in H.
  intros m Hm. rewrite (H m Hm). reflexivity.
Qed.

Section Histogram.
Variable hist : list Z.
Hypothesis hist_nonneg : Forall (fun h => (0 <= h)%Z) hist.

Lemma kapur_low_value (i : Z) :
  (0 <= i < Z.of_nat (length hist))%Z ->
  (exists h, In h (firstn (Z.to_nat (i + 1)) hist) /\ h <> 0%Z) ->
  kapur_low hist (cumsum hist) i =
  Some (Fin (- Rsum (map (fun h =>
               xlnx (IZR h / IZR (Zsum (firstn (Z.to_nat (i + 1)) hist))))
               (firstn (Z.to_nat (i + 1)) hist)))).
Proof.
  intros Hi Hex. unfold kapur_low, ma_log, log.
  rewrite cumsum_item by exact Hi.
  rewrite slice_to_firstn by lia.
  set (low := firstn (Z.to_nat (i + 1)) hist) in *.
  assert (Hlow : Forall (fun h => (0 <= h)%Z) low)
    by (apply Forall_firstn, hist_nonneg).
  assert (Hc : (0 < Zsum low)%Z).
  { destruct Hex as (h & Hin & Hne).
    pose proof (Zsum_ge_elem low h Hlow Hin).
    rewrite Forall_forall in Hlow. specialize (Hlow h Hin). lia. }
  rewrite (masked_terms 1 low (Zsum low) Hc Hlow).
  rewrite (ma_sum_masked_terms
             (fun h => IZR h / IZR (Zsum low)
                       * (ln (IZR h / IZR (Zsum low)) / 1)) low).
  - rewrite (map_ext _ (fun h => xlnx (IZR h / IZR (Zsum low))));
      [reflexivity |].
    intros h. unfold xlnx.
    unfold Rdiv at 2. rewrite Rinv_1, Rmult_1_r. reflexivity.
  - unfold Rdiv. rewrite !Rmult_0_l. reflexivity.
  - exact Hex.
Qed.

Lemma kapur_high_value (hi i : Z) :
  (0 <= i < Z.of_nat (length hist))%Z ->
  (0 <= hi < Z.of_nat (length hist))%Z ->
  (0 < Zsum (firstn (Z.to_nat (hi + 1)) hist)
       - Zsum (firstn (Z.to_nat (i + 1)) hist))%Z
  \/ filter (fun h => negb (h =? 0)%Z) (skipn (Z.to_nat (i + 1)) hist) = [] ->
  kapur_high hist (cumsum hist) hi i =
  Fin (Rsum (map (fun h =>
         xlnx (IZR h / IZR (Zsum (firstn (Z.to_nat (hi + 1)) hist)
                            - Zsum (firstn (Z.to_nat (i + 1)) hist))))
         (filter (fun h => negb (h =? 0)%Z)
                 (skipn (Z.to_nat (i + 1)) hist)))).
Proof.
  intros Hi Hhi Hd. unfold kapur_high, kapur_high_part.
  rewrite !cumsum_item by assumption.
  rewrite slice_from_skipn by lia.
  set (high := filter (fun h => negb (h =? 0)%Z)
                      (skipn (Z.to_nat (i + 1)) hist)) in *.
  set (d := (Zsum (firstn (Z.to_nat (hi + 1)) hist)
             - Zsum (firstn (Z.to_nat (i + 1)) hist))%Z) in *.
  destruct Hd as [Hd | Hd]; [| rewrite Hd; simpl; reflexivity].
  unfold of_int. rewrite fsub_fin, <- minus_IZR. fold d.
  rewrite map_map, <- fsum_fin, map_map. f_equal.
  apply map_ext_in. intros h Hh.
  assert (Hpos : (0 < h)%Z).
  { apply filter_In in Hh as [Hin Hnz].
    apply (in_skipn (Z.to_nat (i + 1))) in Hin.
    rewrite Forall_forall in hist_nonneg.
    specialize (hist_nonneg h Hin).
    apply negb_true_iff, Z.eqb_neq in Hnz. lia. }
  rewrite fdiv_fin by (apply Rgt_not_eq, IZR_pos, Hd).
  unfold log. rewrite flog_base_pos by (apply div_IZR_pos; assumption).
  simpl. f_equal. unfold xlnx.
  unfold Rdiv at 2. rewrite Rinv_1, Rmult_1_r. reflexivity.
Qed.

End Histogram.

Local Open Scope Z_scope.

Lemma firstn_add {A : Type} (a b : nat) (l : list A) :
  firstn (a + b) l = firstn a l ++ firstn b (skipn a l).
Proof.
  revert l; induction a as [| a IH]; intros l; [reflexivity |].
  destruct l as [| x l]; [destruct b; reflexivity |].
  simpl. rewrite IH. reflexivity.
Qed.

Lemma filter_nil {A : Type} (f : A -> bool) (l : list A) :
  (forall x, In x l -> f x = false) -> filter f l = [].
Proof.
  induction l as [| x l IH]; intros H; [reflexivity |].
  simpl. rewrite (H x) by (left; reflexivity).
  apply IH. intros y Hy. apply H. right. exact Hy.
Qed.

Lemma histogram_nonneg (xs : list Z) (nbins lo hi : Z) :
  Forall (fun h => 0 <= h) (histogram xs nbins lo hi).
Proof.
  unfold histogram. rewrite Forall_forall. intros h Hh.
  apply in_map_iff in Hh as [b [<- _]]. unfold count. lia.
Qed.

Lemma histogram_length (xs : list Z) (nbins lo hi : Z) :
  length (histogram xs nbins lo hi) = Z.to_nat nbins.
Proof.
  unfold histogram. rewrite length_map, range_length. f_equal. lia.
Qed.

Lemma first_last_filled_range (hist : list Z) (lo hi : Z) :
  first_last (nonzero hist) = Py.Ok (lo, hi) -> filled_range hist lo hi.
Proof.
  unfold first_last. destruct (nonzero hist) as [| x r] eqn:E;
    [discriminate |].
  intros H. injection H as <- <-.
  assert (Hlo : In x (nonzero hist)) by (rewrite E; left; reflexivity).
  assert (Hhi : In (last r x) (nonzero hist)) by (rewrite E; apply last_in).
  assert (Hmax : forall i, In i (nonzero hist) -> i <= last r x).
  { intros i Hi. rewrite <- (last_cons_default r x 0), <- E.
    unfold nonzero in *.
    pose proof (nonzero_from_le_last hist 0 i 0) as Hle.
    rewrite Z.add_0_l in Hle. apply Hle. exact Hi. }
  pose proof (Hmax x Hlo) as Hle.
  apply nonzero_spec in Hlo as [Hlo1 Hlo2].
  apply nonzero_spec in Hhi as [Hhi1 Hhi2].
  constructor; try lia; try assumption.
  intros i Hi.
  destruct (Z.eq_dec (item hist i) 0) as [Hz | Hnz]; [exact Hz |].
  destruct (Z_lt_dec i (Z.of_nat (length hist))) as [Hin | Hout].
  - assert (Hmem : In i (nonzero hist)) by (apply nonzero_spec; split; [lia | exact Hnz]).
    specialize (Hmax i Hmem). lia.
  - unfold item. apply nth_overflow. lia.
Qed.

Section Candidates.
Variables (hist : list Z) (lo hi : Z).
Hypothesis hist_nonneg : Forall (fun h => 0 <= h) hist.
Hypothesis range_ok : filled_range hist lo hi.

Lemma low_partition_filled (i : Z) :
  lo <= i ->
  exists h, In h (firstn (Z.to_nat (i + 1)) hist) /\ h <> 0.
Proof.
  intros Hi. destruct range_ok. exists (item hist lo). split; [| assumption].
  unfold item.
  rewrite <- (nth_firstn_lt (Z.to_nat (i + 1))) by lia.
  apply nth_In. rewrite length_firstn. lia.
Qed.

(** Above the last filled bin every bin is empty. *)
Lemma high_partition_empty :
  filter (fun h => negb (h =? 0)) (skipn (Z.to_nat (hi + 1)) hist) = [].
Proof.
  destruct range_ok. apply filter_nil. intros h Hh.
  destruct (In_nth _ _ 0 Hh) as (n & Hn & <-).
  rewrite nth_skipn_shift.
  pose proof (fr_above0 (Z.of_nat (Z.to_nat (hi + 1) + n))) as Hz.
  unfold item in Hz. rewrite Nat2Z.id in Hz. rewrite Hz by lia.
  reflexivity.
Qed.

Lemma high_total_pos (i : Z) :
  lo <= i < hi ->
  0 < Zsum (firstn (Z.to_nat (hi + 1)) hist)
      - Zsum (firstn (Z.to_nat (i + 1)) hist).
Proof.
  intros Hi. destruct range_ok.
  replace (Z.to_nat (hi + 1))
    with (Z.to_nat (i + 1) + Z.to_nat (hi - i))%nat by lia.
  rewrite firstn_add, Zsum_app.
  set (rest := firstn (Z.to_nat (hi - i)) (skipn (Z.to_nat (i + 1)) hist)).
  assert (Hrest : Forall (fun h => 0 <= h) rest)
    by (apply Forall_firstn, Forall_skipn, hist_nonneg).
  assert (Hin : In (item hist hi) rest).
  { unfold item, rest.
    replace (Z.to_nat hi)
      with (Z.to_nat (i + 1) + (Z.to_nat (hi - i) - 1))%nat by lia.
    rewrite <- nth_skipn_shift.
    rewrite <- (nth_firstn_lt (Z.to_nat (hi - i))) by lia.
    apply nth_In. rewrite length_firstn, length_skipn. lia. }
  pose proof (Zsum_ge_elem rest _ Hrest Hin).
  rewrite Forall_forall in Hrest. specialize (Hrest _ Hin). lia.
Qed.

(** Every candidate threshold yields a finite entropy: no division by
    zero reaches an array element and nothing is NaN. *)
Lemma kapur_candidate_value (i : Z) :
  lo <= i <= hi ->
  kapur_candidate hist (cumsum hist) hi i =
  Some (Fin (kapur_value hist hi i)).
Proof.
  intros Hi. pose proof range_ok as Hr. destruct Hr.
  unfold kapur_candidate.
  rewrite (kapur_low_value hist hist_nonneg i)
    by (try lia; apply low_partition_filled; lia).
  rewrite (kapur_high_value hist hist_nonneg hi i); try lia.
  - reflexivity.
  - destruct (Z.eq_dec i hi) as [-> | Hne].
    + right. apply high_partition_empty.
    + left. apply high_total_pos. lia.
Qed.

End Candidates.

(** C10: in kapur1d, for the candidate threshold equal to the last
    filled bin [binrng[1]], the denominator [cdf[binrng[1]] - cdf[i]] of
    the high partition is zero, yet nothing is divided by it: the zero
    bins are filtered out of [hist[i + 1 :]] first, which leaves an empty
    array, so the high-partition term is the empty sum 0 and the
    candidate's entropy is a finite number, not NaN. *)
Theorem C10_last_candidate_high_partition (g : array2) (lo hi : Z)
    (Hrng : first_last (nonzero (kapur_hist g)) = Py.Ok (lo, hi)) :
  In hi (Py.range lo (hi + 1))
  /\ fsub (of_int (item (kapur_cdf g) hi)) (of_int (item (kapur_cdf g) hi))
     = Fin 0
  /\ filter (fun h => negb (h =? 0)) (Py.slice_from (hi + 1) (kapur_hist g))
     = []
  /\ kapur_high_part (kapur_hist g) (kapur_cdf g) hi hi = []
  /\ kapur_high (kapur_hist g) (kapur_cdf g) hi hi = Fin 0
  /\ exists e,
       kapur_candidate (kapur_hist g) (kapur_cdf g) hi hi = Some (Fin e).
Proof.
  pose proof (first_last_filled_range _ _ _ Hrng) as Hr.
  pose proof (histogram_nonneg (flatten g) 256 0 256) as Hnn.
  fold (kapur_hist g) in Hnn.
  assert (Hempty : filter (fun h => negb (h =? 0))
                     (Py.slice_from (hi + 1) (kapur_hist g)) = []).
  { rewrite slice_from_skipn by (destruct Hr; lia).
    apply (high_partition_empty _ lo hi Hr). }
  split; [apply in_range; destruct Hr; lia |].
  split; [unfold of_int; rewrite fsub_fin; f_equal; apply Rminus_diag |].
  split; [exact Hempty |].
  split; [unfold kapur_high_part; rewrite Hempty; reflexivity |].
  split; [unfold kapur_high, kapur_high_part; rewrite Hempty; reflexivity |].
  exists (kapur_value (kapur_hist g) hi hi).
  apply (kapur_candidate_value _ lo hi Hnn Hr). destruct Hr; lia.
Qed.

Lemma C10_last_candidate_high_partition_witness :
  first_last (nonzero (kapur_hist img_ramp)) = Py.Ok (0, 4)
  /\ (In 4 (Py.range 0 (4 + 1))
      /\ fsub (of_int (item (kapur_cdf img_ramp) 4))
              (of_int (item (kapur_cdf img_ramp) 4)) = Fin 0
      /\ filter (fun h => negb (h =? 0))
                (Py.slice_from (4 + 1) (kapur_hist img_ramp)) = []
      /\ kapur_high_part (kapur_hist img_ramp) (kapur_cdf img_ramp) 4 4 = []
      /\ kapur_high (kapur_hist img_ramp) (kapur_cdf img_ramp) 4 4 = Fin 0
      /\ exists e,
           kapur_candidate (kapur_hist img_ramp) (kapur_cdf img_ramp) 4 4
           = Some (Fin e)).
Proof.
  assert (H : first_last (nonzero (kapur_hist img_ramp)) = Py.Ok (0, 4))
    by (vm_compute; reflexivity).
  split; [exact H | apply (C10_last_candidate_high_partition img_ramp 0 4 H)].
Defined.

End KapurCandidates.

(* ------------------------------------------------------------------ *)
(** * kapur1d: the loop *)

Section KapurLoop.
Import Np Methods.

(** Replace a closed integer or list expression by its value. *)
Ltac zcompute e := let v := eval vm_compute in e in change e with v.

Lemma kapur_step_entropy (hist cdf : list Z) (hi : Z) (st : kapur_state) (i : Z) :
  entropy (kapur_step hist cdf hi st i) = kapur_candidate hist cdf hi i.
Proof.
  unfold kapur_step.
  destruct (exceeds (kapur_candidate hist cdf hi i) (entropymax st));
    reflexivity.
Qed.

(** After the loop, [entropy] holds the value of the last candidate. *)
Lemma kapur_loop_entropy (hist cdf : list Z) (lo hi : Z) :
  lo <= hi ->
  entropy (kapur_loop hist cdf lo hi) = kapur_candidate hist cdf hi hi.
Proof.
  intros H. unfold kapur_loop.
  rewrite range_snoc by exact H. rewrite fold_left_app. simpl.
  apply kapur_step_entropy.
Qed.

Lemma kapur_step_up (hist cdf : list Z) (hi : Z) (st : kapur_state) (i : Z)
    (v m : R) :
  kapur_candidate hist cdf hi i = Some (Fin v) ->
  entropymax st = Fin m -> (m < v)%R ->
  kapur_step hist cdf hi st i =
  {| entropy := Some (Fin v); entropymax := Fin v; threshold := i |}.
Proof.
  intros Hc Hm Hlt. unfold kapur_step, exceeds. rewrite Hc, Hm.
  rewrite fgt_fin_true by exact Hlt. reflexivity.
Qed.

Lemma kapur_step_keep (hist cdf : list Z) (hi : Z) (st : kapur_state) (i : Z)
    (v m : R) :
  kapur_candidate hist cdf hi i = Some (Fin v) ->
  entropymax st = Fin m -> (v <= m)%R ->
  kapur_step hist cdf hi st i =
  {| entropy := Some (Fin v); entropymax := Fin m;
     threshold := threshold st |}.
Proof.
  intros Hc Hm Hle. unfold kapur_step, exceeds. rewrite Hc, Hm.
  rewrite fgt_fin_false by exact Hle. reflexivity.
Qed.

Lemma xlnx_recip (n : R) : (0 < n)%R -> xlnx (1 / n) = (- (ln n / n))%R.
Proof.
  intros H. unfold xlnx, Rdiv. rewrite Rmult_1_l.
  rewrite ln_Rinv by exact H. ring.
Qed.

Lemma ln_6 : (ln 2 + ln 3 = ln 6)%R.
Proof. rewrite <- ln_mult by lra. f_equal; lra. Qed.

(** Evaluation of [kapur_value] on the histogram of a given image. *)
Ltac kapur_eval :=
  unfold kapur_value;
  repeat match goal with
         | |- context [firstn ?n (kapur_hist ?g)] =>
             zcompute (firstn n (kapur_hist g))
         | |- context [filter ?f (skipn ?n (kapur_hist ?g))] =>
             zcompute (filter f (skipn n (kapur_hist g)))
         end;
  repeat match goal with
         | |- context [Zsum ?l] => zcompute (Zsum l)
         end;
  repeat match goal with
         | |- context [IZR (?a - ?b)] => zcompute (a - b)%Z
         end;
  cbn [map Rsum fold_right];
  rewrite ?xlnx_recip by lra;
  rewrite ?ln_1.

Lemma ramp_value_0 : kapur_value (kapur_hist img_ramp) 4 0 = ln 4.
Proof. kapur_eval. lra. Qed.

Lemma ramp_value_1 : kapur_value (kapur_hist img_ramp) 4 1 = ln 6.
Proof. kapur_eval. rewrite <- ln_6. lra. Qed.

Lemma ramp_value_2 : kapur_value (kapur_hist img_ramp) 4 2 = ln 6.
Proof. kapur_eval. rewrite <- ln_6. lra. Qed.

Lemma ramp_value_3 : kapur_value (kapur_hist img_ramp) 4 3 = ln 4.
Proof. kapur_eval. lra. Qed.

Lemma ramp_value_4 : kapur_value (kapur_hist img_ramp) 4 4 = ln 5.
Proof. kapur_eval. lra. Qed.

Lemma ramp_range : filled_range (kapur_hist img_ramp) 0 4.
Proof. apply first_last_filled_range. vm_compute. reflexivity. Qed.

Lemma ramp_candidate (i : Z) :
  0 <= i <= 4 ->
  kapur_candidate (kapur_hist img_ramp) (kapur_cdf img_ramp) 4 i =
  Some (Fin (kapur_value (kapur_hist img_ramp) 4 i)).
Proof.
  intros H. apply (kapur_candidate_value _ 0 4).
  - apply histogram_nonneg.
  - apply ramp_range.
  - exact H.
Qed.

Lemma ramp_loop :
  kapur_loop (kapur_hist img_ramp) (kapur_cdf img_ramp) 0 4 =
  {| entropy := Some (Fin (ln 5)); entropymax := Fin (ln 6); threshold := 1 |}.
Proof.
  assert (L1 : (0 < ln 4)%R) by (rewrite <- ln_1; apply ln_increasing; lra).
  assert (L2 : (ln 4 < ln 5)%R) by (apply ln_increasing; lra).
  assert (L3 : (ln 5 < ln 6)%R) by (apply ln_increasing; lra).
  unfold kapur_loop. zcompute (Py.range 0 (4 + 1)). cbn [fold_left].
  rewrite (kapur_step_up _ _ _ _ 0 (ln 4) 0);
    [| rewrite ramp_candidate, ramp_value_0 by lia; reflexivity
     | reflexivity | lra].
  rewrite (kapur_step_up _ _ _ _ 1 (ln 6) (ln 4));
    [| rewrite ramp_candidate, ramp_value_1 by lia; reflexivity
     | reflexivity | lra].
  rewrite (kapur_step_keep _ _ _ _ 2 (ln 6) (ln 6));
    [| rewrite ramp_candidate, ramp_value_2 by lia; reflexivity
     | reflexivity | lra].
  rewrite (kapur_step_keep _ _ _ _ 3 (ln 4) (ln 6));
    [| rewrite ramp_candidate, ramp_value_3 by lia; reflexivity
     | reflexivity | lra].
  rewrite (kapur_step_keep _ _ _ _ 4 (ln 5) (ln 6));
    [| rewrite ramp_candidate, ramp_value_4 by lia; reflexivity
     | reflexivity | lra].
  reflexivity.
Qed.

(** What kapur1d logs as the entropy is, for every image, the value of the
    last candidate threshold, whatever the running maximum is. *)
Lemma kapur1d_logs_last_candidate (g : array2) (out : kapur_out) (lo hi : Z) :
  first_last (nonzero (kapur_hist g)) = Py.Ok (lo, hi) ->
  kapur1d g = Py.Ok out ->
  kapur_log_entropy out =
  kapur_candidate (kapur_hist g) (kapur_cdf g) hi hi.
Proof.
  intros Hrng. unfold kapur1d. fold (kapur_hist g). fold (kapur_cdf g).
  rewrite Hrng. simpl. intros H. injection H as <-. simpl.
  apply kapur_loop_entropy.
  destruct (first_last_filled_range _ _ _ Hrng). assumption.
Qed.

(** C2 (the code at the failing input): on the one-row image
    [0 1 2 3 4] the candidates have the entropies ln 4, ln 6, ln 6, ln 4
    and ln 5; the running maximum is ln 6, first reached at threshold 1,
    which is the threshold logged and used for the output image, but the
    entropy logged is ln 5, the value of the last candidate, not the
    maximum. *)
Theorem C2_logged_entropy_is_last_candidate :
  exists out,
    kapur1d img_ramp = Py.Ok out
    /\ kapur_log_entropy out = Some (Fin (ln 5))
    /\ kapur_log_threshold out = 1
    /\ kapur_entimg out = [[0; 0; 0; 0; 0]]
    /\ kapur_candidate (kapur_hist img_ramp) (kapur_cdf img_ramp) 4 1
       = Some (Fin (ln 6))
    /\ (forall i, 0 <= i <= 4 ->
          exists v,
            kapur_candidate (kapur_hist img_ramp) (kapur_cdf img_ramp) 4 i
            = Some (Fin v) /\ (v <= ln 6)%R)
    /\ (ln 5 < ln 6)%R.
Proof.
  assert (L2 : (ln 4 < ln 5)%R) by (apply ln_increasing; lra).
  assert (L3 : (ln 5 < ln 6)%R) by (apply ln_increasing; lra).
  eexists. split.
  { unfold kapur1d. fold (kapur_hist img_ramp). fold (kapur_cdf img_ramp).
    replace (first_last (nonzero (kapur_hist img_ramp)))
      with (Py.Ok (0, 4)) by (vm_compute; reflexivity).
    unfold Py.bind. cbn [fst snd]. rewrite ramp_loop. reflexivity. }
  cbn [kapur_log_entropy kapur_log_threshold kapur_entimg
       entropy threshold].
  split; [reflexivity |]. split; [reflexivity |]. split; [reflexivity |].
  split; [rewrite ramp_candidate, ramp_value_1 by lia; reflexivity |].
  split; [| exact L3].
  intros i Hi. exists (kapur_value (kapur_hist img_ramp) 4 i).
  split; [apply ramp_candidate; exact Hi |].
  assert (Hc : i = 0 \/ i = 1 \/ i = 2 \/ i = 3 \/ i = 4) by lia.
  destruct Hc as [-> | [-> | [-> | [-> | ->]]]];
    rewrite ?ramp_value_0, ?ramp_value_1, ?ramp_value_2, ?ramp_value_3,
      ?ramp_value_4; lra.
Qed.

End KapurLoop.

(* ------------------------------------------------------------------ *)
(** * shannon2dr: the two loops *)

Section SlidingWindow.
Import Np Methods.

Lemma list_set_length {A : Type} (l : list A) : forall (n : nat) (v : A),
  length (list_set n v l) = length l.
Proof.
  induction l as [| x l IH]; intros n v; [destruct n; reflexivity |].
  destruct n; simpl; [| rewrite IH]; reflexivity.
Qed.

Lemma list_set_nth_id {A : Type} (l : list A) : forall (n : nat) (d : A),
  list_set n (nth n l d) l = l.
Proof.
  induction l as [| x l IH]; intros n d; [destruct n; reflexivity |].
  destruct n; simpl; [| rewrite IH]; reflexivity.
Qed.

Lemma list_set_nth_same {A : Type} (l : list A) : forall (n : nat) (v d : A),
  (n < length l)%nat -> nth n (list_set n v l) d = v.
Proof.
  induction l as [| x l IH]; intros n v d Hn; [simpl in Hn; lia |].
  destruct n; simpl in *; [reflexivity | apply IH; lia].
Qed.

Lemma list_set_twice {A : Type} (l : list A) : forall (n : nat) (u v : A),
  list_set n v (list_set n u l) = list_set n v l.
Proof.
  induction l as [| x l IH]; intros n u v; [destruct n; reflexivity |].
  destruct n; simpl; [| rewrite IH]; reflexivity.
Qed.

(** Writing position [n] of a list whose first [n] entries are already
    written and whose rest is still the original. *)
Lemma list_set_fill {A : Type} (pre l : list A) (v : A) (n : nat) :
  length pre = n -> (n < length l)%nat ->
  list_set n v (pre ++ skipn n l) = (pre ++ [v]) ++ skipn (S n) l.
Proof.
  intros <-. revert l; induction pre as [| x pre IH]; intros l Hlt.
  - destruct l as [| y l]; [simpl in Hlt; lia | reflexivity].
  - destruct l as [| y l]; [simpl in Hlt; lia |].
    simpl in *. rewrite IH by lia. reflexivity.
Qed.

Lemma range_0_succ (n : nat) :
  Py.range 0 (Z.of_nat (S n)) = Py.range 0 (Z.of_nat n) ++ [Z.of_nat n].
Proof.
  replace (Z.of_nat (S n)) with (Z.of_nat n + 1) by lia.
  apply range_snoc. lia.
Qed.

Variables (g : array2) (h w r : Z).

(** The inner loop, after its first [n] iterations on row [i]. *)
Lemma shannon2dr_inner (i : Z) (st : shannon2dr_state) (n : nat) :
  0 <= i -> (Z.to_nat i < length (entimg st))%nat ->
  (n <= length (nth (Z.to_nat i) (entimg st) []))%nat ->
  fold_left (fun st j => shannon2dr_cell g h w r st i j)
            (Py.range 0 (Z.of_nat n)) st =
  {| entropies :=
       entropies st
       ++ map (fun j => window_entropy (region g h w r i j))
              (Py.range 0 (Z.of_nat n));
     entimg :=
       list_set (Z.to_nat i)
         (map (fun j => to_int (window_entropy (region g h w r i j)))
              (Py.range 0 (Z.of_nat n))
          ++ skipn n (nth (Z.to_nat i) (entimg st) []))
         (entimg st) |}.
Proof.
  intros Hi Hrow. induction n as [| n IH]; intros Hn.
  - simpl. rewrite app_nil_r, list_set_nth_id. destruct st; reflexivity.
  - rewrite range_0_succ, fold_left_app, IH by lia.
    simpl fold_left. unfold shannon2dr_cell at 1. cbn [entropies entimg].
    rewrite !map_app, app_assoc. simpl map. f_equal.
    unfold set2. rewrite list_set_nth_same by exact Hrow.
    rewrite list_set_twice. f_equal.
    rewrite Nat2Z.id.
    set (pre := map (fun j => to_int (window_entropy (region g h w r i j)))
                    (Py.range 0 (Z.of_nat n))).
    assert (Hpre : length pre = n)
      by (unfold pre; rewrite length_map, range_length; lia).
    apply list_set_fill; [exact Hpre | lia].
Qed.

(** The inner loop, run over a whole row of width [w]. *)
Lemma shannon2dr_row (i : Z) (st : shannon2dr_state) :
  0 <= i -> 0 <= w -> (Z.to_nat i < length (entimg st))%nat ->
  length (nth (Z.to_nat i) (entimg st) []) = Z.to_nat w ->
  fold_left (fun st j => shannon2dr_cell g h w r st i j) (Py.range 0 w) st =
  {| entropies :=
       entropies st
       ++ map (fun j => window_entropy (region g h w r i j)) (Py.range 0 w);
     entimg :=
       list_set (Z.to_nat i)
         (map (fun j => to_int (window_entropy (region g h w r i j)))
              (Py.range 0 w))
         (entimg st) |}.
Proof.
  intros Hi Hw Hrow Hlen.
  pose proof (shannon2dr_inner i st (Z.to_nat w) Hi Hrow) as H.
  rewrite Z2Nat.id in H by exact Hw. rewrite H by lia.
  rewrite skipn_all2 by lia. rewrite app_nil_r. reflexivity.
Qed.

(** The outer loop, after its first [m] iterations. *)
Lemma shannon2dr_outer (m : nat) :
  0 <= w -> rect (Z.to_nat w) g -> (m <= length g)%nat ->
  fold_left
    (fun st i =>
       fold_left (fun st j => shannon2dr_cell g h w r st i j)
                 (Py.range 0 w) st)
    (Py.range 0 (Z.of_nat m))
    {| entropies := []; entimg := g |} =
  {| entropies :=
       concat (map (fun i =>
                      map (fun j => window_entropy (region g h w r i j))
                          (Py.range 0 w))
                   (Py.range 0 (Z.of_nat m)));
     entimg :=
       map (fun i =>
              map (fun j => to_int (window_entropy (region g h w r i j)))
                  (Py.range 0 w))
           (Py.range 0 (Z.of_nat m))
       ++ skipn m g |}.
Proof.
  intros Hw Hg. induction m as [| m IH]; intros Hm; [reflexivity |].
  rewrite range_0_succ, fold_left_app, IH by lia. simpl fold_left.
  set (pre := map (fun i =>
                     map (fun j => to_int (window_entropy (region g h w r i j)))
                         (Py.range 0 w))
                  (Py.range 0 (Z.of_nat m))).
  assert (Hpre : length pre = m)
    by (unfold pre; rewrite length_map, range_length; lia).
  rewrite shannon2dr_row; cbn [entropies entimg]; try lia.
  - rewrite !map_app, concat_app. simpl. rewrite app_nil_r.
    f_equal. rewrite Nat2Z.id. apply list_set_fill; [exact Hpre | lia].
  - rewrite length_app, length_skipn. lia.
  - rewrite Nat2Z.id, app_nth2 by lia. rewrite Hpre, Nat.sub_diag.
    rewrite nth_skipn_shift, Nat.add_0_r. apply rect_nth; [exact Hg | lia].
Qed.

End SlidingWindow.

(* ------------------------------------------------------------------ *)
(** * shannon2dr: the entropy of a window and the entropy map *)

Section EntropyMap.
Import Np Methods.

Lemma count_member_pos (v : Z) (xs : list Z) :
  In v xs -> 0 < count (Z.eqb v) xs.
Proof.
  intros H. unfold count.
  assert (Hin : In v (filter (Z.eqb v) xs))
    by (apply filter_In; split; [exact H | apply Z.eqb_refl]).
  destruct (filter (Z.eqb v) xs); [destruct Hin | simpl; lia].
Qed.

Lemma count_le_length {A : Type} (f : A -> bool) (xs : list A) :
  count f xs <= Z.of_nat (length xs).
Proof.
  unfold count. apply inj_le. induction xs as [| x xs IH]; simpl; [lia |].
  destruct (f x); simpl; lia.
Qed.

(** One term [p * log2 (1 / p)] of line 213 for a value present in the
    window: every operation stays finite and no divisor is zero. *)
Lemma window_term (c n : Z) :
  0 < c -> 0 < n ->
  fmul (fdiv (of_int c) (of_int n))
       (log2 (fdiv (Fin 1) (fdiv (of_int c) (of_int n)))) =
  Fin (IZR c / IZR n * Rlog2 (1 / (IZR c / IZR n))).
Proof.
  intros Hc Hn. unfold of_int.
  assert (Hp : (0 < IZR c / IZR n)%R) by (apply div_IZR_pos; assumption).
  rewrite fdiv_fin by (apply Rgt_not_eq, IZR_pos, Hn).
  rewrite fdiv_fin by (apply Rgt_not_eq, Hp).
  unfold log2. rewrite flog_base_pos; [reflexivity |].
  apply Rdiv_lt_0_compat; [lra | exact Hp].
Qed.

(** The entropy that shannon2dr computes for a window, whatever the
    window, is a finite number: the exact sum over the reals. *)
Lemma window_entropy_fin (region : list Z) :
  window_entropy region = Fin (window_entropy_R region).
Proof.
  unfold window_entropy, probs, window_entropy_R.
  rewrite map_map, <- fsum_fin, map_map. f_equal.
  apply map_ext_in. intros v Hv. apply nodup_In in Hv.
  apply window_term; [apply count_member_pos; exact Hv |].
  destruct region; [destruct Hv | simpl length; lia].
Qed.

Lemma rect_shape (wn : nat) (g : array2) :
  rect wn g -> rect (Z.to_nat (snd (shape g))) g.
Proof.
  intros H. destruct g as [| row g]; [constructor |].
  unfold shape. cbn [snd hd]. rewrite Nat2Z.id.
  inversion H; subst. exact H.
Qed.

Lemma shannon2dr_closed_form (k : Z) (g : array2) (wn : nat) :
  rect wn g ->
  shannon2dr k g =
  {| entropies :=
       concat (map (fun i =>
                      map (fun j => window_entropy (cell_region k g i j))
                          (Py.range 0 (snd (shape g))))
                   (Py.range 0 (fst (shape g))));
     entimg :=
       map (fun i =>
              map (fun j => to_int (window_entropy (cell_region k g i j)))
                  (Py.range 0 (snd (shape g))))
           (Py.range 0 (fst (shape g))) |}.
Proof.
  intros Hg. unfold shannon2dr, cell_region.
  unfold shape at 1 4. cbn [fst].
  rewrite (shannon2dr_outer g _ (snd (shape g)) _ (length g));
    [| unfold shape; cbn [snd]; lia | eapply rect_shape; exact Hg | lia].
  rewrite skipn_all, app_nil_r. reflexivity.
Qed.

Lemma ln2_pos : (0 < ln 2)%R.
Proof. pose proof ln_lt_2. lra. Qed.

Lemma Rlog2_1 : Rlog2 1 = 0%R.
Proof. unfold Rlog2. rewrite ln_1. unfold Rdiv. apply Rmult_0_l. Qed.

Lemma Rlog2_2 : Rlog2 2 = 1%R.
Proof. unfold Rlog2. pose proof ln2_pos. field. lra. Qed.

Lemma Rlog2_4 : Rlog2 4 = 2%R.
Proof.
  unfold Rlog2. replace 4%R with (2 * 2)%R by lra.
  rewrite ln_mult by lra. pose proof ln2_pos. field. lra.
Qed.

Lemma Rlog2_9_gt_3 : (3 < Rlog2 9)%R.
Proof.
  unfold Rlog2. pose proof ln2_pos as H2.
  apply (Rmult_lt_reg_r (ln 2)); [exact H2 |].
  replace (ln 9 / ln 2 * ln 2)%R with (ln 9) by (field; lra).
  replace (3 * ln 2)%R with (ln 8).
  - apply ln_increasing; lra.
  - replace 8%R with (2 * (2 * 2))%R by lra.
    rewrite !ln_mult by lra. lra.
Qed.

Lemma Rtrunc_between (x : R) (z : Z) :
  0 <= z -> (IZR z <= x < IZR z + 1)%R -> Rtrunc x = z.
Proof.
  intros Hz Hx. unfold Rtrunc.
  assert (H0 : (0 <= IZR z)%R) by (apply (IZR_le 0 z); exact Hz).
  destruct (Rle_dec 0 x); [| lra].
  symmetry. apply Int_part_spec. lra.
Qed.

(** Evaluation of [window_entropy_R] on a given window. *)
Ltac window_eval :=
  unfold window_entropy_R;
  repeat match goal with
         | |- context [nodup Z.eq_dec ?l] =>
             let v := eval vm_compute in (nodup Z.eq_dec l) in
             change (nodup Z.eq_dec l) with v
         end;
  cbn [map Rsum fold_right];
  repeat match goal with
         | |- context [IZR (count ?f ?l)] =>
             let v := eval vm_compute in (count f l) in
             change (count f l) with v
         | |- context [IZR (Z.of_nat (length ?l))] =>
             let v := eval vm_compute in (Z.of_nat (length l)) in
             change (Z.of_nat (length l)) with v
         end.

Lemma mixed_window_entropy :
  window_entropy_R [0; 0; 1; 2] = (3 / 2)%R.
Proof.
  window_eval.
  replace (1 / (2 / 4))%R with 2%R by field.
  replace (1 / (1 / 4))%R with 4%R by field.
  rewrite Rlog2_2, Rlog2_4. lra.
Qed.

Lemma distinct4_window_entropy :
  window_entropy_R [0; 1; 3; 4] = 2%R.
Proof.
  window_eval.
  replace (1 / (1 / 4))%R with 4%R by field.
  rewrite Rlog2_4. lra.
Qed.

Lemma distinct9_window_entropy :
  window_entropy_R [0; 1; 2; 3; 4; 5; 6; 7; 8] = Rlog2 9.
Proof.
  window_eval.
  replace (1 / (1 / 9))%R with 9%R by field.
  lra.
Qed.

Lemma shannon2dr_shape (k : Z) (g : array2) (wn : nat) :
  rect wn g ->
  length (entimg (shannon2dr k g)) = length g
  /\ rect wn (entimg (shannon2dr k g)).
Proof.
  intros Hg. rewrite (shannon2dr_closed_form k g wn Hg). cbn [entimg].
  destruct g as [| row g'].
  { split; [reflexivity | constructor]. }
  assert (Hw : snd (shape (row :: g')) = Z.of_nat wn).
  { unfold shape. cbn [snd hd]. inversion Hg; subst. reflexivity. }
  rewrite Hw. unfold shape. cbn [fst].
  split; [rewrite length_map, range_length; lia |].
  unfold rect. rewrite Forall_forall. intros r Hr.
  apply in_map_iff in Hr as [i [<- _]].
  rewrite length_map, range_length. lia.
Qed.

Lemma shannon2dr_entropies (k : Z) (g : array2) (wn : nat) :
  rect wn g ->
  entropies (shannon2dr k g) =
  concat (map (fun i =>
                 map (fun j => Fin (window_entropy_R (cell_region k g i j)))
                     (Py.range 0 (Z.of_nat wn)))
              (Py.range 0 (Z.of_nat (length g)))).
Proof.
  intros Hg. rewrite (shannon2dr_closed_form k g wn Hg). cbn [entropies].
  destruct g as [| row g']; [reflexivity |].
  assert (Hw : snd (shape (row :: g')) = Z.of_nat wn).
  { unfold shape. cbn [snd hd]. inversion Hg; subst. reflexivity. }
  rewrite Hw. unfold shape. cbn [fst].
  f_equal. apply map_ext. intros i. apply map_ext. intros j.
  apply window_entropy_fin.
Qed.

Lemma shannon2dr_at (k : Z) (g : array2) (wn i j : nat) :
  rect wn g -> (i < length g)%nat -> (j < wn)%nat ->
  at2 (entimg (shannon2dr k g)) i j =
  wrap64 (Rtrunc (window_entropy_R
                    (cell_region k g (Z.of_nat i) (Z.of_nat j)))).
Proof.
  intros Hg Hi Hj. rewrite (shannon2dr_closed_form k g wn Hg). cbn [entimg].
  destruct g as [| row g']; [simpl in Hi; lia |].
  assert (Hw : snd (shape (row :: g')) = Z.of_nat wn).
  { unfold shape. cbn [snd hd]. inversion Hg; subst. reflexivity. }
  rewrite Hw. unfold shape at 1. cbn [fst].
  unfold at2.
  rewrite (nth_map_lt _ _ _ [] 0) by (rewrite range_length; lia).
  rewrite (nth_map_lt _ _ _ 0 0) by (rewrite range_length; lia).
  rewrite !range_nth by lia. rewrite !Z.add_0_l.
  rewrite window_entropy_fin. reflexivity.
Qed.

(** C9: the entropy map returned by shannon2dr starts as a copy of the
    input array and keeps its shape and integer element type; each cell
    holds the entropy of its window converted to that type, that is,
    truncated towards zero, while the list [entropies] behind the mean
    and standard deviation holds the exact values. *)
Theorem C9_entropy_map_is_truncated (k : Z) (g : array2) (wn : nat)
    (Hg : rect wn g) :
  length (entimg (shannon2dr k g)) = length g
  /\ rect wn (entimg (shannon2dr k g))
  /\ entropies (shannon2dr k g) =
     concat (map (fun i =>
                    map (fun j => Fin (window_entropy_R (cell_region k g i j)))
                        (Py.range 0 (Z.of_nat wn)))
                 (Py.range 0 (Z.of_nat (length g))))
  /\ forall i j, (i < length g)%nat -> (j < wn)%nat ->
       at2 (entimg (shannon2dr k g)) i j =
       wrap64 (Rtrunc (window_entropy_R
                         (cell_region k g (Z.of_nat i) (Z.of_nat j)))).
Proof.
  split; [apply (shannon2dr_shape k g wn Hg) |].
  split; [apply (shannon2dr_shape k g wn Hg) |].
  split; [apply (shannon2dr_entropies k g wn Hg) |].
  intros i j Hi Hj. apply (shannon2dr_at k g wn); assumption.
Qed.

Lemma C9_entropy_map_is_truncated_witness :
  rect 3 img_mixed
  /\ at2 (entimg (shannon2dr 3 img_mixed)) 1 1 =
     wrap64 (Rtrunc (window_entropy_R (cell_region 3 img_mixed 1 1))).
Proof.
  assert (H : rect 3 img_mixed) by (repeat constructor).
  split; [exact H |].
  apply (proj2 (proj2 (proj2 (C9_entropy_map_is_truncated 3 img_mixed 3 H)))
           1%nat 1%nat); simpl; lia.
Defined.

(** The truncation loses information: the window of the centre cell of
    [img_mixed] has entropy 3/2, and the map stores 1. *)
Lemma shannon2dr_truncation_loses :
  window_entropy (cell_region 3 img_mixed 1 1) = Fin (3 / 2)
  /\ at2 (entimg (shannon2dr 3 img_mixed)) 1 1 = 1.
Proof.
  assert (H : rect 3 img_mixed) by (repeat constructor).
  assert (E : cell_region 3 img_mixed 1 1 = [0; 0; 1; 2])
    by (vm_compute; reflexivity).
  split.
  - rewrite window_entropy_fin, E, mixed_window_entropy. reflexivity.
  - rewrite (shannon2dr_at 3 img_mixed 3 1 1 H) by (simpl; lia).
    change (Z.of_nat 1) with 1. rewrite E, mixed_window_entropy.
    rewrite (Rtrunc_between _ 1); [reflexivity | lia | simpl; lra].
Qed.

(** C1 (the code at the failing input): on the 3x3 image of nine distinct
    values with kernel size 3 the window of the centre cell is the 2x2
    block [0 1 3 4] (rows 0..1, columns 0..1: the slice end [i + kernrad]
    is exclusive), not the 3x3 window of the claim; its entropy is
    log2 4 = 2, which is what the map stores, while the claimed window
    would give log2 9 > 3. *)
Theorem C1_centre_window_is_2x2 :
  Main.argtypekernelsize 3 = Py.Ok 3
  /\ kernrad 3 = 1
  /\ cell_region 3 img3 1 1 = [0; 1; 3; 4]
  /\ claimed_region 3 img3 1 1 = [0; 1; 2; 3; 4; 5; 6; 7; 8]
  /\ window_entropy (cell_region 3 img3 1 1) = Fin 2
  /\ at2 (entimg (shannon2dr 3 img3)) 1 1 = 2
  /\ window_entropy_R (claimed_region 3 img3 1 1) = Rlog2 9
  /\ (3 < Rlog2 9)%R.
Proof.
  assert (H : rect 3 img3) by (repeat constructor).
  assert (E : cell_region 3 img3 1 1 = [0; 1; 3; 4])
    by (vm_compute; reflexivity).
  assert (E' : claimed_region 3 img3 1 1 = [0; 1; 2; 3; 4; 5; 6; 7; 8])
    by (vm_compute; reflexivity).
  split; [reflexivity |]. split; [reflexivity |].
  split; [exact E |]. split; [exact E' |].
  split; [rewrite window_entropy_fin, E, distinct4_window_entropy;
          reflexivity |].
  split.
  { rewrite (shannon2dr_at 3 img3 3 1 1 H) by (simpl; lia).
    change (Z.of_nat 1) with 1. rewrite E, distinct4_window_entropy.
    rewrite (Rtrunc_between _ 2); [reflexivity | lia | simpl; lra]. }
  split; [rewrite E'; apply distinct9_window_entropy |].
  apply Rlog2_9_gt_3.
Qed.

(** ** Windows of one value *)

Lemma nodup_repeat (c : Z) (n : nat) :
  nodup Z.eq_dec (repeat c (S n)) = [c].
Proof.
  induction n as [| n IH]; [reflexivity |].
  change (repeat c (S (S n))) with (c :: repeat c (S n)).
  cbn [nodup]. destruct (in_dec Z.eq_dec c (repeat c (S n))) as [_ | Hn].
  - exact IH.
  - exfalso. apply Hn. left. reflexivity.
Qed.

Lemma count_repeat (c : Z) (n : nat) :
  count (Z.eqb c) (repeat c n) = Z.of_nat n.
Proof.
  unfold count. f_equal. induction n as [| n IH]; [reflexivity |].
  simpl. rewrite Z.eqb_refl. simpl. rewrite IH at 1. reflexivity.
Qed.

Lemma all_equal_repeat (c : Z) (xs : list Z) :
  Forall (eq c) xs -> xs = repeat c (length xs).
Proof.
  induction 1 as [| x xs Hx _ IH]; [reflexivity |].
  simpl. rewrite <- Hx, <- IH. reflexivity.
Qed.

(** A non-empty window of one value: a single outcome of probability 1. *)
Lemma probs_single (c : Z) (n : nat) :
  probs (repeat c (S n)) = [Fin 1].
Proof.
  unfold probs. rewrite nodup_repeat. cbn [map].
  rewrite count_repeat, repeat_length. unfold of_int. rewrite fdiv_fin.
  - do 2 f_equal. field. apply Rgt_not_eq, IZR_pos. lia.
  - apply Rgt_not_eq, IZR_pos. lia.
Qed.

Lemma window_entropy_single (c : Z) (n : nat) :
  window_entropy (repeat c (S n)) = Fin 0.
Proof.
  unfold window_entropy. rewrite probs_single. cbn [map].
  rewrite fdiv_fin by lra. unfold log2.
  rewrite flog_base_pos by lra. unfold fsum. cbn [fold_left fmul fadd].
  f_equal. replace (1 / 1)%R with 1%R by field. rewrite ln_1.
  unfold Rdiv. ring.
Qed.

Lemma window_entropy_empty : probs [] = [] /\ window_entropy [] = Fin 0.
Proof. split; reflexivity. Qed.

Lemma window_entropy_all_equal (c : Z) (xs : list Z) :
  Forall (eq c) xs -> window_entropy xs = Fin 0.
Proof.
  intros H. rewrite (all_equal_repeat c xs H).
  destruct (length xs); [reflexivity | apply window_entropy_single].
Qed.

(** ** What a window contains *)

Lemma in_slice {A : Type} (a b : Z) (l : list A) (x : A) :
  In x (Py.slice a b l) -> In x l.
Proof.
  unfold Py.slice. intros H. apply in_firstn in H. apply in_skipn in H.
  exact H.
Qed.

Lemma in_slice_nth {A : Type} (a b : Z) (l : list A) (n : nat) (d : A) :
  0 <= a <= Z.of_nat n -> Z.of_nat n < b -> b <= Z.of_nat (length l) ->
  In (nth n l d) (Py.slice a b l).
Proof.
  intros Ha Hb Hl. rewrite slice_window by lia.
  replace n with (Z.to_nat a + (n - Z.to_nat a))%nat at 1 by lia.
  rewrite <- nth_skipn_shift.
  rewrite <- (nth_firstn_lt (Z.to_nat (b - a))) by lia.
  apply nth_In. rewrite length_firstn, length_skipn. lia.
Qed.

Lemma kernrad_valid (k k' : Z) :
  Main.argtypekernelsize k = Py.Ok k' ->
  k' = k /\ k = 2 * kernrad k + 1 /\ 1 <= kernrad k.
Proof.
  unfold Main.argtypekernelsize.
  destruct (Z.leb_spec k 1) as [Hle | Hgt]; [discriminate |].
  destruct (Z.eqb_spec (k mod 2) 1) as [Hodd | Hev]; [| discriminate].
  cbn [orb negb]. intros H. injection H as <-.
  split; [reflexivity |].
  unfold kernrad, Py.round_half.
  assert (Hk : k = 2 * ((k - 1) / 2) + 1).
  { pose proof (Z.div_mod k 2 ltac:(lia)) as Hd.
    assert (Hq : (k - 1) / 2 = k / 2).
    { symmetry. apply (Z.div_unique (k - 1) 2 (k / 2) 0); lia. }
    lia. }
  assert (He : Z.even (k - 1) = true).
  { apply Z.even_spec. exists ((k - 1) / 2). lia. }
  rewrite He. cbv zeta. split; [exact Hk | lia].
Qed.

(** The window of a cell holds that cell, so it is never empty, as soon as
    the radius is at least 1. *)
Lemma cell_region_holds_cell (k : Z) (g : array2) (wn i j : nat) :
  rect wn g -> 1 <= kernrad k -> (i < length g)%nat -> (j < wn)%nat ->
  In (at2 g i j) (cell_region k g (Z.of_nat i) (Z.of_nat j)).
Proof.
  intros Hg Hr Hi Hj. unfold cell_region, region, flatten.
  assert (Hw : snd (shape g) = Z.of_nat wn).
  { destruct g as [| row g']; [simpl in Hi; lia |].
    unfold shape. cbn [snd hd]. inversion Hg; subst. reflexivity. }
  rewrite Hw. unfold shape. cbn [fst].
  apply in_concat. exists (Py.slice (Z.max 0 (Z.of_nat j - kernrad k))
                            (Z.min (Z.of_nat wn) (Z.of_nat j + kernrad k))
                            (nth i g [])).
  split.
  - apply in_map. apply in_slice_nth; lia.
  - unfold at2. apply in_slice_nth; try lia.
    rewrite (rect_nth wn g i Hg Hi). lia.
Qed.

(** On a constant image every window holds the one value only. *)
Lemma cell_region_constant (c k : Z) (g : array2) (i j : Z) :
  constant c g -> Forall (eq c) (cell_region k g i j).
Proof.
  intros Hc. unfold cell_region, region, flatten.
  rewrite Forall_forall. intros x Hx.
  apply in_concat in Hx as (row & Hrow & Hx).
  apply in_map_iff in Hrow as (row' & <- & Hrow').
  apply in_slice in Hx. apply in_slice in Hrow'.
  unfold constant in Hc. rewrite Forall_forall in Hc.
  specialize (Hc row' Hrow'). rewrite Forall_forall in Hc. auto.
Qed.

Lemma Rtrunc_0 : Rtrunc 0 = 0.
Proof. apply (Rtrunc_between 0 0); [lia | simpl; lra]. Qed.

Lemma window_entropy_R_constant (c k : Z) (g : array2) (i j : Z) :
  constant c g -> window_entropy_R (cell_region k g i j) = 0%R.
Proof.
  intros Hc.
  pose proof (window_entropy_all_equal c _ (cell_region_constant c k g i j Hc))
    as H.
  rewrite window_entropy_fin in H. injection H as H. exact H.
Qed.

(** shannon2dr on a constant image: every entropy is exactly 0. *)
Lemma shannon2dr_constant (c k : Z) (g : array2) (wn : nat) :
  constant c g -> rect wn g ->
  Forall (fun e => e = Fin 0) (entropies (shannon2dr k g))
  /\ forall i j, (i < length g)%nat -> (j < wn)%nat ->
       at2 (entimg (shannon2dr k g)) i j = 0.
Proof.
  intros Hc Hg. split.
  - rewrite (shannon2dr_entropies k g wn Hg).
    rewrite Forall_forall. intros e He.
    apply in_concat in He as (row & Hrow & He).
    apply in_map_iff in Hrow as (i & <- & _).
    apply in_map_iff in He as (j & <- & _).
    rewrite (window_entropy_R_constant c) by exact Hc. reflexivity.
  - intros i j Hi Hj. rewrite (shannon2dr_at k g wn i j Hg Hi Hj).
    rewrite (window_entropy_R_constant c) by exact Hc.
    rewrite Rtrunc_0. reflexivity.
Qed.

End EntropyMap.

(* ------------------------------------------------------------------ *)
(** * shannon1d and scipy1d: the pixel values as a distribution *)

Section FlatMethods.
Import Np Methods.

Lemma wrap64_small (z : Z) : - 2 ^ 63 <= z < 2 ^ 63 -> wrap64 z = z.
Proof.
  intros H. unfold wrap64.
  rewrite Z.mod_small by lia. lia.
Qed.

Lemma fold_add_repeat (c : Z) (n : nat) : forall acc,
  fold_left Z.add (repeat c n) acc = acc + Z.of_nat n * c.
Proof.
  induction n as [| n IH]; intros acc; [simpl; lia |].
  cbn [repeat fold_left]. rewrite IH. lia.
Qed.

Lemma constant_flatten (c : Z) (g : array2) :
  constant c g -> flatten g = repeat c (length (flatten g)).
Proof.
  intros Hc. apply all_equal_repeat. unfold flatten.
  rewrite Forall_forall. intros x Hx.
  apply in_concat in Hx as (row & Hrow & Hx).
  unfold constant in Hc. rewrite Forall_forall in Hc.
  specialize (Hc row Hrow). rewrite Forall_forall in Hc. auto.
Qed.

Lemma sum_constant (c : Z) (g : array2) :
  constant c g ->
  sum (flatten g) = wrap64 (Z.of_nat (length (flatten g)) * c).
Proof.
  intros Hc. unfold sum. rewrite (constant_flatten c g Hc) at 1.
  rewrite fold_add_repeat. reflexivity.
Qed.

Lemma shannon1d_flat (g : array2) :
  shannon1d g =
  ma_sum (map (fun p =>
                 ma_mul (fdiv (of_int p) (of_int (sum (flatten g))))
                        (ma_neg (ma_log2
                           (fdiv (of_int p) (of_int (sum (flatten g)))))))
              (flatten g)).
Proof.
  unfold shannon1d, shannon1d_entimg, shannon1d_signal, flatten.
  rewrite map_map.
  rewrite (map_ext _ (map (fun p =>
             ma_mul (fdiv (of_int p) (of_int (sum (concat g))))
                    (ma_neg (ma_log2
                       (fdiv (of_int p) (of_int (sum (concat g)))))))))
    by (intros row; rewrite map_map; reflexivity).
  rewrite <- concat_map. reflexivity.
Qed.

Lemma Rsum_repeat (t : R) (n : nat) :
  Rsum (repeat t n) = (IZR (Z.of_nat n) * t)%R.
Proof.
  induction n as [| n IH]; [simpl; lra |].
  cbn [repeat Rsum fold_right]. fold (Rsum (repeat t n)). rewrite IH.
  rewrite Nat2Z.inj_succ, succ_IZR. lra.
Qed.

Lemma map_repeat_const {A B : Type} (f : A -> B) (c : A) (n : nat) :
  map f (repeat c n) = repeat (f c) n.
Proof. induction n as [| n IH]; simpl; [| rewrite IH]; reflexivity. Qed.

Lemma ma_sum_repeat_fin (t : R) (n : nat) :
  ma_sum (repeat (Some (Fin t)) (S n)) =
  Some (Fin (IZR (Z.of_nat (S n)) * t)).
Proof.
  unfold ma_sum. cbn [repeat forallb is_masked andb]. f_equal.
  rewrite <- Rsum_repeat, <- fsum_fin. f_equal.
  change (Some (Fin t) :: repeat (Some (Fin t)) n)
    with (repeat (Some (Fin t)) (S n)).
  rewrite !map_repeat_const. reflexivity.
Qed.

(** shannon1d on a constant image of [n] pixels of a positive value: each
    pixel carries the mass [1 / n], and the entropy is [log2 n]. *)
Lemma shannon1d_constant (c : Z) (g : array2) :
  constant c g -> 0 < c -> (1 <= length (flatten g))%nat ->
  Z.of_nat (length (flatten g)) * c < 2 ^ 63 ->
  shannon1d g = Some (Fin (Rlog2 (IZR (Z.of_nat (length (flatten g)))))).
Proof.
  intros Hc Hpos Hn Hsmall.
  rewrite shannon1d_flat, (sum_constant c g Hc).
  rewrite wrap64_small by lia.
  set (n := length (flatten g)) in *.
  rewrite (constant_flatten c g Hc). fold n.
  rewrite map_repeat_const.
  assert (Hnc : (0 < IZR (Z.of_nat n * c))%R) by (apply IZR_pos; lia).
  assert (Hc' : (0 < IZR c)%R) by (apply IZR_pos; lia).
  assert (Hn' : (0 < IZR (Z.of_nat n))%R) by (apply IZR_pos; lia).
  unfold of_int. rewrite fdiv_fin by lra.
  assert (Hs : (IZR c / IZR (Z.of_nat n * c) = / IZR (Z.of_nat n))%R)
    by (rewrite mult_IZR; field; lra).
  rewrite Hs. unfold ma_log2, log2.
  rewrite ma_domained_pos by (apply Rinv_0_lt_compat; exact Hn').
  cbn [ma_neg ma_mul option_map fneg fmul].
  destruct n as [| m]; [lia |].
  rewrite ma_sum_repeat_fin. do 2 f_equal.
  rewrite ln_Rinv by exact Hn'. unfold Rlog2.
  pose proof ln2_pos. field. lra.
Qed.

Lemma fold_fadd_nan (l : list float64) : fold_left fadd l NaN = NaN.
Proof. induction l as [| x l IH]; [reflexivity | exact IH]. Qed.

Lemma fsum_nan (l : list float64) : fsum (NaN :: l) = NaN.
Proof. unfold fsum. cbn [fold_left fadd]. apply fold_fadd_nan. Qed.

Lemma of_int_0 : of_int 0 = Fin 0.
Proof. reflexivity. Qed.

(** On an all-zero image the pixel sum is zero and every entry of the
    normalised signal is 0 / 0 = NaN. *)
Lemma zero_image_signal (g : array2) :
  constant 0 g ->
  Forall (Forall (eq NaN)) (shannon1d_signal g)
  /\ Forall (eq NaN) (scipy1d_signal g).
Proof.
  intros Hc.
  assert (Ht : of_int (sum (flatten g)) = Fin 0).
  { rewrite (sum_constant 0 g Hc), Z.mul_0_r. reflexivity. }
  unfold shannon1d_signal, scipy1d_signal. rewrite Ht. split.
  - rewrite Forall_forall. intros row Hrow.
    apply in_map_iff in Hrow as (row' & <- & Hrow').
    rewrite Forall_forall. intros s Hs.
    apply in_map_iff in Hs as (p & <- & Hp).
    unfold constant in Hc. rewrite Forall_forall in Hc.
    specialize (Hc row' Hrow'). rewrite Forall_forall in Hc.
    rewrite <- (Hc p Hp). rewrite of_int_0, fdiv_zero_zero. reflexivity.
  - rewrite Forall_forall. intros s Hs.
    apply in_map_iff in Hs as (p & <- & Hp).
    rewrite (constant_flatten 0 g Hc) in Hp. apply repeat_spec in Hp.
    subst p. rewrite of_int_0, fdiv_zero_zero. reflexivity.
Qed.

(** The entropy of shannon1d on an all-zero image is the masked constant,
    that of scipy1d is NaN. *)
Lemma zero_image_entropy (g : array2) :
  constant 0 g -> (1 <= length (flatten g))%nat ->
  shannon1d g = None /\ scipy1d g = NaN.
Proof.
  intros Hc Hn.
  assert (Ht : of_int (sum (flatten g)) = Fin 0).
  { rewrite (sum_constant 0 g Hc), Z.mul_0_r. reflexivity. }
  split.
  - rewrite shannon1d_flat, Ht. apply ma_sum_all_masked.
    rewrite Forall_forall. intros m Hm.
    apply in_map_iff in Hm as (p & <- & Hp).
    rewrite (constant_flatten 0 g Hc) in Hp. apply repeat_spec in Hp.
    subst p. rewrite of_int_0, fdiv_zero_zero. reflexivity.
  - unfold scipy1d, spentropy, scipy1d_signal. rewrite Ht.
    rewrite (constant_flatten 0 g Hc).
    destruct (length (flatten g)) as [| m]; [lia |].
    cbn [repeat map]. rewrite of_int_0, fdiv_zero_zero.
    rewrite fsum_nan. cbn [fdiv entr]. rewrite ?fsum_nan. reflexivity.
Qed.

(** C7, as stated, fails on an all-zero image: the pixel sum is 0, both
    flat-array methods divide by it, every entry of the signal is NaN, the
    entropy of shannon1d is the masked constant and that of scipy1d is
    NaN. *)
Lemma C7_zero_image_divides_by_zero :
  sum (flatten [[0; 0]]) = 0
  /\ shannon1d_signal [[0; 0]] = [[NaN; NaN]]
  /\ scipy1d_signal [[0; 0]] = [NaN; NaN]
  /\ shannon1d [[0; 0]] = None
  /\ scipy1d [[0; 0]] = NaN.
Proof.
  assert (Hc : constant 0 [[0; 0]]) by (repeat constructor).
  split; [reflexivity |].
  split.
  { unfold shannon1d_signal.
    change (of_int (sum (flatten [[0; 0]]))) with (Fin 0).
    cbn [map]. rewrite of_int_0, fdiv_zero_zero. reflexivity. }
  split.
  { unfold scipy1d_signal.
    change (of_int (sum (flatten [[0; 0]]))) with (Fin 0).
    cbn [map flatten concat app]. rewrite of_int_0, fdiv_zero_zero.
    reflexivity. }
  apply (zero_image_entropy _ Hc). simpl. lia.
Qed.

(** C7 (amended): in shannon2dr a non-empty window of identical elements
    gives the single outcome the probability 1 and the entropy 0, an empty
    window gives no outcome and the entropy 0 without any division, the
    entropy of every window is a finite number, and with a valid kernel
    size no window is empty; on an all-zero image, however, shannon1d and
    scipy1d divide every pixel by the zero pixel sum, so that every entry
    of the signal is NaN, the entropy of shannon1d is the masked constant
    and that of scipy1d is NaN. *)
Theorem C7_degenerate_distributions :
  (forall c n,
     probs (repeat c (S n)) = [Fin 1]
     /\ window_entropy (repeat c (S n)) = Fin 0)
  /\ (probs [] = [] /\ window_entropy [] = Fin 0)
  /\ (forall region, exists x, window_entropy region = Fin x)
  /\ (forall k g wn i j,
        Main.argtypekernelsize k = Py.Ok k -> rect wn g ->
        (i < length g)%nat -> (j < wn)%nat ->
        cell_region k g (Z.of_nat i) (Z.of_nat j) <> [])
  /\ (forall g,
        constant 0 g ->
        Forall (Forall (eq NaN)) (shannon1d_signal g)
        /\ Forall (eq NaN) (scipy1d_signal g))
  /\ (forall g,
        constant 0 g -> (1 <= length (flatten g))%nat ->
        shannon1d g = None /\ scipy1d g = NaN).
Proof.
  split; [intros c n; split;
          [apply probs_single | apply window_entropy_single] |].
  split; [apply window_entropy_empty |].
  split; [intros region; eexists; apply window_entropy_fin |].
  split.
  { intros k g wn i j Hk Hg Hi Hj Hnil.
    destruct (kernrad_valid k k Hk) as (_ & _ & Hr).
    pose proof (cell_region_holds_cell k g wn i j Hg Hr Hi Hj) as Hin.
    rewrite Hnil in Hin. destruct Hin. }
  split; [apply zero_image_signal | apply zero_image_entropy].
Qed.

End FlatMethods.

(* ------------------------------------------------------------------ *)
(** * Constant images *)

Section ConstantImages.
Import Np Methods.

Lemma in_zip_with {A B C : Type} (f : A -> B -> C)
    (xs : list A) (ys : list B) (z : C) :
  In z (zip_with f xs ys) ->
  exists x y, In x xs /\ In y ys /\ z = f x y.
Proof.
  unfold zip_with. intros H.
  apply in_map_iff in H as ([x y] & <- & Hin).
  exists x, y. split; [eapply in_combine_l; eauto |].
  split; [eapply in_combine_r; eauto | reflexivity].
Qed.

Lemma rowsub_constant (c : Z) (xs ys : list Z) :
  Forall (eq c) xs -> Forall (eq c) ys -> Forall (eq 0) (rowsub xs ys).
Proof.
  intros Hx Hy. rewrite Forall_forall in *. intros z Hz.
  apply in_zip_with in Hz as (x & y & Hx' & Hy' & ->).
  rewrite <- (Hx x Hx'), <- (Hy y Hy'), Z.sub_diag. reflexivity.
Qed.

Lemma constant_row (c : Z) (g : array2) (row : list Z) :
  constant c g -> In row g -> Forall (eq c) row.
Proof.
  unfold constant. rewrite Forall_forall. auto.
Qed.

(** Both gradients of a constant image vanish. *)
Lemma delentropy_fx_constant (c : Z) (g : array2) :
  constant c g -> constant 0 (delentropy_fx g).
Proof.
  intros Hc. rewrite delentropy_fx_unfold. unfold constant.
  rewrite Forall_forall. intros row Hrow.
  apply in_firstn, in_skipn in Hrow.
  apply in_map_iff in Hrow as (row' & <- & Hrow').
  pose proof (constant_row c g row' Hc Hrow') as Hr.
  apply (rowsub_constant c); [apply Forall_skipn | apply Forall_firstn];
    exact Hr.
Qed.

Lemma delentropy_fy_constant (c : Z) (g : array2) :
  constant c g -> constant 0 (delentropy_fy g).
Proof.
  intros Hc. rewrite delentropy_fy_unfold. unfold constant.
  rewrite Forall_forall. intros row Hrow.
  apply in_map_iff in Hrow as (row' & <- & Hrow').
  apply Forall_firstn, Forall_skipn.
  apply in_zip_with in Hrow' as (x & y & Hx & Hy & ->).
  apply in_skipn in Hx. apply in_firstn in Hy.
  apply (rowsub_constant c); eapply constant_row; eauto.
Qed.

Lemma flatten_nonempty (a : array2) (wn : nat) :
  rect wn a -> (1 <= length a)%nat -> (1 <= wn)%nat ->
  (1 <= length (flatten a))%nat.
Proof.
  intros Ha Hl Hw. destruct a as [| row a]; [simpl in Hl; lia |].
  unfold flatten. cbn [concat]. rewrite length_app.
  inversion Ha; subst. lia.
Qed.

Lemma fold_max_repeat (n : nat) : fold_left Z.max (repeat 0 n) 0 = 0.
Proof. induction n as [| n IH]; [reflexivity | exact IH]. Qed.

Lemma np_max_abs_zeros (n : nat) : Np.max (abs (repeat 0 (S n))) = Py.Ok 0.
Proof.
  unfold abs. rewrite map_repeat_const.
  change (wrap64 (Z.abs 0)) with 0. cbn [repeat Np.max].
  rewrite fold_max_repeat. reflexivity.
Qed.

Lemma count_all {A : Type} (f : A -> bool) (l : list A) :
  (forall x, In x l -> f x = true) -> count f l = Z.of_nat (length l).
Proof.
  intros H. unfold count. f_equal. f_equal.
  induction l as [| x l IH]; [reflexivity |].
  simpl. rewrite (H x) by (left; reflexivity). f_equal.
  apply IH. intros y Hy. apply H. right. exact Hy.
Qed.

(** The joint histogram of two all-zero gradient arrays: one bin, holding
    every pair. *)
Lemma delentropy_hist_zeros (fx fy : array2) (n m : nat) :
  flatten fx = repeat 0 n -> flatten fy = repeat 0 m ->
  delentropy_hist fx fy 0 = [[Z.of_nat (Nat.min n m)]].
Proof.
  intros Hx Hy. unfold delentropy_hist, histogram2d. rewrite Hx, Hy.
  change (Py.range 0 (2 * 0 + 1)) with [0]. cbn [map]. do 2 f_equal.
  rewrite count_all.
  - rewrite length_combine, !repeat_length. reflexivity.
  - intros [x y] Hin.
    pose proof (in_combine_l _ _ _ _ Hin) as Hx'.
    pose proof (in_combine_r _ _ _ _ Hin) as Hy'.
    apply repeat_spec in Hx'. apply repeat_spec in Hy'. subst. reflexivity.
Qed.

(** The entropy of a one-bin histogram is 0: the density is 1 and
    [log2 1 = 0]. *)
Lemma delentropy_entropy_one_bin (n : Z) :
  0 < n -> delentropy_entropy [[n]] = Some (Fin 0).
Proof.
  intros Hn. unfold delentropy_entropy, delentropy_terms, delentropy_density.
  unfold flatten. cbn [concat map app]. unfold fsum. cbn [fold_left].
  unfold of_int. cbn [fadd].
  assert (Hp : (0 < IZR n)%R) by (apply IZR_pos; exact Hn).
  rewrite fdiv_fin by lra.
  replace (IZR n / (0 + IZR n))%R with 1%R by (field; lra).
  unfold ma_log2, log2. rewrite ma_domained_pos by lra.
  cbn [ma_neg ma_mul option_map fneg fmul]. unfold ma_sum.
  cbn [forallb is_masked andb map filled0 option_map]. unfold fsum.
  cbn [fold_left fadd]. rewrite fdiv_fin by lra.
  do 2 f_equal. rewrite ln_1. unfold Rdiv. ring.
Qed.

Lemma delentropy_pipeline_zeros (fx fy : array2) :
  constant 0 fx -> constant 0 fy ->
  (1 <= length (flatten fx))%nat -> (1 <= length (flatten fy))%nat ->
  exists out,
    delentropy_pipeline fx fy = Py.Ok out
    /\ del_entropy out = Some (Fin 0).
Proof.
  intros Hx Hy Hnx Hny.
  pose proof (constant_flatten 0 fx Hx) as Ex.
  pose proof (constant_flatten 0 fy Hy) as Ey.
  assert (Hj : delentropy_jrng fx fy = Py.Ok 0).
  { unfold delentropy_jrng. rewrite Ex, Ey.
    destruct (length (flatten fx)) as [| n]; [lia |].
    destruct (length (flatten fy)) as [| m]; [lia |].
    rewrite !np_max_abs_zeros. reflexivity. }
  pose proof (delentropy_pipeline_cases fx fy) as Hc.
  rewrite Hj in Hc. change (255 <? 0) with false in Hc.
  destruct Hc as (out & Hout & _ & He). exists out.
  split; [exact Hout |].
  rewrite He, (delentropy_hist_zeros fx fy _ _ Ex Ey).
  apply delentropy_entropy_one_bin. lia.
Qed.

(** delentropy2d on a constant image of at least 3x3 pixels. *)
Lemma delentropy2d_constant (c : Z) (g : array2) (wn : nat) :
  constant c g -> rect wn g -> (3 <= length g)%nat -> (3 <= wn)%nat ->
  exists out,
    delentropy2d g = Py.Ok out /\ del_entropy out = Some (Fin 0).
Proof.
  intros Hc Hg Hh Hw. unfold delentropy2d.
  apply delentropy_pipeline_zeros.
  - apply (delentropy_fx_constant c); exact Hc.
  - apply (delentropy_fy_constant c); exact Hc.
  - apply (flatten_nonempty _ (wn - 2)); [| rewrite delentropy_fx_rows; lia | lia].
    apply rect_of_rows. intros r Hr. rewrite delentropy_fx_rows in Hr.
    apply delentropy_fx_row_length; assumption.
  - apply (flatten_nonempty _ (wn - 2)); [| rewrite delentropy_fy_rows; lia | lia].
    apply rect_of_rows. intros r Hr. rewrite delentropy_fy_rows in Hr.
    apply delentropy_fy_row_length; assumption.
Qed.

(** C3, as stated, fails for shannon1d: on the constant image [1 1] it
    returns log2 2 = 1, not 0. *)
Lemma C3_shannon1d_constant_not_zero :
  constant 1 [[1; 1]]
  /\ shannon1d [[1; 1]] = Some (Fin 1)
  /\ Fin 1 <> Fin 0.
Proof.
  assert (Hc : constant 1 [[1; 1]]) by (repeat constructor).
  split; [exact Hc |]. split.
  - rewrite (shannon1d_constant 1 _ Hc); [| lia | simpl; lia | simpl; lia].
    change (IZR (Z.of_nat (length (flatten [[1; 1]])))) with 2%R.
    rewrite Rlog2_2. reflexivity.
  - intros H. injection H as H. lra.
Qed.

(** C3 (amended): on a constant image the sliding-window method
    (shannon2dr) computes entropy exactly 0 for every cell and stores 0 in
    every cell of the map, and delentropy2d (image of at least 3x3 pixels)
    returns entropy exactly 0; shannon1d, which takes the pixel values
    themselves as the masses of the distribution, returns log2 n on a
    constant image of n pixels of a positive value, which is 0 only for
    n = 1. *)
Theorem C3_constant_image (c : Z) (g : array2) (wn : nat)
    (Hc : constant c g) (Hg : rect wn g) :
  (forall k,
     Forall (fun e => e = Fin 0) (entropies (shannon2dr k g))
     /\ forall i j, (i < length g)%nat -> (j < wn)%nat ->
          at2 (entimg (shannon2dr k g)) i j = 0)
  /\ ((3 <= length g)%nat -> (3 <= wn)%nat ->
      exists out,
        delentropy2d g = Py.Ok out /\ del_entropy out = Some (Fin 0))
  /\ (0 < c -> (1 <= length (flatten g))%nat ->
      Z.of_nat (length (flatten g)) * c < 2 ^ 63 ->
      shannon1d g = Some (Fin (Rlog2 (IZR (Z.of_nat (length (flatten g)))))))
  /\ (forall n : nat, Rlog2 (IZR (Z.of_nat n)) = 0%R -> (n <= 1)%nat).
Proof.
  split; [intros k; apply (shannon2dr_constant c k g wn Hc Hg) |].
  split; [apply (delentropy2d_constant c g wn Hc Hg) |].
  split; [apply (shannon1d_constant c g Hc) |].
  intros n Hn. destruct (le_lt_dec n 1) as [Hle | Hgt]; [exact Hle |].
  exfalso. unfold Rlog2 in Hn. pose proof ln2_pos as H2.
  assert (Hl : (0 < ln (IZR (Z.of_nat n)))%R).
  { rewrite <- ln_1. apply ln_increasing; [lra |].
    apply (IZR_lt 1). lia. }
  assert (Heq : (ln (IZR (Z.of_nat n)) = 0)%R).
  { apply (Rmult_eq_reg_r (/ ln 2)); [| apply Rinv_neq_0_compat; lra].
    unfold Rdiv in Hn. rewrite Hn. ring. }
  lra.
Qed.

Lemma C3_constant_image_witness :
  constant 7 (repeat (repeat 7 3) 3)
  /\ rect 3 (repeat (repeat 7 3) 3)
  /\ (exists out,
        delentropy2d (repeat (repeat 7 3) 3) = Py.Ok out
        /\ del_entropy out = Some (Fin 0))
  /\ shannon1d (repeat (repeat 7 3) 3) =
     Some (Fin (Rlog2
             (IZR (Z.of_nat (length (flatten (repeat (repeat 7 3) 3))))))).
Proof.
  assert (Hc : constant 7 (repeat (repeat 7 3) 3)) by (repeat constructor).
  assert (Hg : rect 3 (repeat (repeat 7 3) 3)) by (repeat constructor).
  split; [exact Hc |]. split; [exact Hg |].
  pose proof (C3_constant_image 7 _ 3 Hc Hg) as (_ & Hd & Hs & _).
  split.
  - apply Hd; simpl; lia.
  - apply Hs; simpl; lia.
Defined.

End ConstantImages.

(* ------------------------------------------------------------------ *)
(** * delentropy2d: negation of the gradient field *)

Section Negation.
Import Np Methods.

Lemma fadd_comm (a b : float64) : fadd a b = fadd b a.
Proof.
  destruct a as [x | s |], b as [y | t |]; simpl; try reflexivity.
  - f_equal. apply Rplus_comm.
  - destruct s, t; reflexivity.
Qed.

Lemma fadd_assoc (a b c : float64) : fadd a (fadd b c) = fadd (fadd a b) c.
Proof.
  destruct a as [x | s |], b as [y | t |], c as [z | u |]; simpl;
    try reflexivity;
    try (destruct s); try (destruct t); try (destruct u); try reflexivity.
  f_equal. symmetry. apply Rplus_assoc.
Qed.

Lemma fold_fadd_shift (l : list float64) : forall a x,
  fold_left fadd l (fadd a x) = fadd (fold_left fadd l a) x.
Proof.
  induction l as [| y l IH]; intros a x; [reflexivity |].
  cbn [fold_left]. rewrite <- IH. f_equal.
  rewrite <- !fadd_assoc. f_equal. apply fadd_comm.
Qed.

(** The sum of a float list does not depend on the direction in which it
    is traversed (exact arithmetic). *)
Lemma fsum_rev (l : list float64) : fsum (rev l) = fsum l.
Proof.
  unfold fsum. induction l as [| x l IH]; [reflexivity |].
  cbn [rev fold_left]. rewrite fold_left_app. cbn [fold_left].
  rewrite IH. symmetry. apply fold_fadd_shift.
Qed.

Lemma ma_sum_rev (l : list masked) : ma_sum (rev l) = ma_sum l.
Proof.
  unfold ma_sum.
  replace (forallb is_masked (rev l)) with (forallb is_masked l).
  - rewrite map_rev, fsum_rev. reflexivity.
  - induction l as [| x l IH]; [reflexivity |].
    cbn [rev forallb]. rewrite forallb_app. cbn [forallb].
    rewrite <- IH. rewrite andb_true_r. apply andb_comm.
Qed.

Lemma concat_rev_rows {A : Type} (l : list (list A)) :
  concat (rev (map (@rev A) l)) = rev (concat l).
Proof.
  induction l as [| x l IH]; [reflexivity |].
  cbn [map rev concat]. rewrite concat_app, rev_app_distr, IH.
  cbn [concat]. rewrite app_nil_r. reflexivity.
Qed.

Lemma delentropy_entropy_flat (hist : array2) :
  delentropy_entropy hist =
  option_map (fun e => fdiv e (Fin 2))
    (ma_sum
       (map (fun h =>
               ma_mul (fdiv (of_int h) (fsum (map of_int (flatten hist))))
                 (ma_neg (ma_log2
                    (fdiv (of_int h) (fsum (map of_int (flatten hist)))))))
            (flatten hist))).
Proof.
  unfold delentropy_entropy, delentropy_terms, delentropy_density, flatten.
  do 2 f_equal. rewrite map_map.
  rewrite (map_ext _ (map (fun h =>
             ma_mul (fdiv (of_int h) (fsum (map of_int (concat hist))))
               (ma_neg (ma_log2
                  (fdiv (of_int h) (fsum (map of_int (concat hist)))))))))
    by (intros row; rewrite map_map; reflexivity).
  rewrite <- concat_map. reflexivity.
Qed.

(** The entropy of a histogram read backwards along both axes. *)
Lemma delentropy_entropy_rev (hist : array2) :
  delentropy_entropy (rev (map (@rev Z) hist)) = delentropy_entropy hist.
Proof.
  rewrite !delentropy_entropy_flat. unfold flatten.
  rewrite concat_rev_rows.
  assert (Ht : fsum (map of_int (rev (concat hist)))
               = fsum (map of_int (concat hist)))
    by (rewrite map_rev; apply fsum_rev).
  rewrite Ht. rewrite map_rev, ma_sum_rev. reflexivity.
Qed.

(** A table over [range(0, n)] read backwards. *)
Lemma map_range_rev {A : Type} (F F' : Z -> A) (n : Z) :
  (forall a, 0 <= a < n -> F' a = F (n - 1 - a)) ->
  map F' (Py.range 0 n) = rev (map F (Py.range 0 n)).
Proof.
  intros H.
  destruct (map F' (Py.range 0 n)) as [| d0 rest] eqn:E.
  - assert (Hl : length (map F' (Py.range 0 n)) = O) by (rewrite E; reflexivity).
    rewrite length_map, range_length in Hl.
    unfold Py.range. replace (Z.to_nat (n - 0)) with O by lia. reflexivity.
  - rewrite <- E. clear E rest.
    apply (nth_ext _ _ d0 d0).
    + rewrite length_rev, !length_map. reflexivity.
    + intros i Hi. rewrite length_map, range_length in Hi.
      rewrite rev_nth by (rewrite length_map, range_length; exact Hi).
      rewrite length_map, range_length.
      rewrite (nth_map_lt F' _ i d0 0) by (rewrite range_length; exact Hi).
      rewrite (nth_map_lt F _ _ d0 0) by (rewrite range_length; lia).
      rewrite !range_nth by lia. rewrite H by lia. f_equal. lia.
Qed.

Lemma combine_map_both {A B : Type} (f : A -> B) (xs ys : list A) :
  combine (map f xs) (map f ys) =
  map (fun p => (f (fst p), f (snd p))) (combine xs ys).
Proof.
  revert ys; induction xs as [| x xs IH]; intros ys; [reflexivity |].
  destruct ys as [| y ys]; [reflexivity |].
  simpl. rewrite IH. reflexivity.
Qed.

Lemma count_map {A B : Type} (f : B -> bool) (h : A -> B) (l : list A) :
  count f (map h l) = count (fun x => f (h x)) l.
Proof.
  unfold count. f_equal. induction l as [| x l IH]; [reflexivity |].
  simpl. destruct (f (h x)); simpl; rewrite IH; reflexivity.
Qed.

Lemma count_ext_in {A : Type} (f g : A -> bool) (l : list A) :
  (forall x, In x l -> f x = g x) -> count f l = count g l.
Proof.
  intros H. unfold count. f_equal. f_equal.
  induction l as [| x l IH]; [reflexivity |].
  simpl. rewrite (H x) by (left; reflexivity).
  rewrite IH by (intros y Hy; apply H; right; exact Hy). reflexivity.
Qed.

(** The bin of a negated sample is the mirrored bin. *)
Lemma in_bin_neg (J a v : Z) :
  0 <= J -> - J <= v <= J ->
  in_bin (2 * J + 1) (- J) J a (- v) =
  in_bin (2 * J + 1) (- J) J (2 * J - a) v.
Proof.
  intros HJ Hv. unfold in_bin.
  rewrite !hist_bin_integer by lia.
  destruct (Z.eqb_spec (- v + J) a), (Z.eqb_spec (v + J) (2 * J - a));
    auto; lia.
Qed.

Lemma flatten_neg2 (a : array2) :
  flatten (neg2 a) = map (fun v => wrap64 (- v)) (flatten a).
Proof. unfold flatten, neg2. symmetry. apply concat_map. Qed.

Lemma bounded_flatten (a : array2) :
  bounded a -> Forall (fun v => -255 <= v <= 255) (flatten a).
Proof.
  intros H. unfold flatten. rewrite Forall_forall. intros x Hx.
  apply in_concat in Hx as (row & Hrow & Hx).
  unfold bounded in H. rewrite Forall_forall in H.
  specialize (H row Hrow). rewrite Forall_forall in H. auto.
Qed.

Lemma neg_bounded_list (l : list Z) :
  Forall (fun v => -255 <= v <= 255) l ->
  map (fun v => wrap64 (- v)) l = map Z.opp l
  /\ abs (map (fun v => wrap64 (- v)) l) = abs l
  /\ abs l = map Z.abs l.
Proof.
  intros H. rewrite Forall_forall in H.
  assert (E : map (fun v => wrap64 (- v)) l = map Z.opp l).
  { apply map_ext_in. intros v Hv. specialize (H v Hv).
    apply wrap64_small. lia. }
  split; [exact E |]. split.
  - rewrite E. unfold abs. rewrite map_map. apply map_ext.
    intros v. rewrite Z.abs_opp. reflexivity.
  - unfold abs. apply map_ext_in. intros v Hv. specialize (H v Hv).
    apply wrap64_small. lia.
Qed.

Lemma delentropy_jrng_neg (fx fy : array2) :
  bounded fx -> bounded fy ->
  delentropy_jrng (neg2 fx) (neg2 fy) = delentropy_jrng fx fy.
Proof.
  intros Hx Hy. unfold delentropy_jrng. rewrite !flatten_neg2.
  destruct (neg_bounded_list _ (bounded_flatten fx Hx)) as (_ & -> & _).
  destruct (neg_bounded_list _ (bounded_flatten fy Hy)) as (_ & -> & _).
  reflexivity.
Qed.

(** Under the invariant of the gradient pair, [J] is at most 255 and
    every element lies in [-J, J]. *)
Lemma delentropy_jrng_bounds (fx fy : array2) (J : Z) :
  bounded fx -> bounded fy -> delentropy_jrng fx fy = Py.Ok J ->
  0 <= J <= 255
  /\ Forall (fun v => - J <= v <= J) (flatten fx)
  /\ Forall (fun v => - J <= v <= J) (flatten fy).
Proof.
  intros Hx Hy HJ.
  destruct (delentropy_jrng_spec fx fy J HJ) as [Hin Hmax].
  pose proof (bounded_flatten fx Hx) as Bx.
  pose proof (bounded_flatten fy Hy) as By.
  destruct (neg_bounded_list _ Bx) as (_ & _ & Ax).
  destruct (neg_bounded_list _ By) as (_ & _ & Ay).
  rewrite Ax, Ay in Hin, Hmax.
  rewrite Forall_forall in Bx, By.
  split; [| split].
  - apply in_app_or in Hin as [Hin | Hin];
      apply in_map_iff in Hin as (v & <- & Hv);
      [specialize (Bx v Hv) | specialize (By v Hv)]; lia.
  - rewrite Forall_forall. intros v Hv.
    assert (Z.abs v <= J)
      by (apply Hmax, in_or_app; left; apply in_map; exact Hv).
    lia.
  - rewrite Forall_forall. intros v Hv.
    assert (Z.abs v <= J)
      by (apply Hmax, in_or_app; right; apply in_map; exact Hv).
    lia.
Qed.

(** The joint histogram of the negated pair is the histogram of the pair
    read backwards along both axes. *)
Lemma delentropy_hist_neg (fx fy : array2) (J : Z) :
  bounded fx -> bounded fy -> 0 <= J ->
  Forall (fun v => - J <= v <= J) (flatten fx) ->
  Forall (fun v => - J <= v <= J) (flatten fy) ->
  delentropy_hist (neg2 fx) (neg2 fy) J =
  rev (map (@rev Z) (delentropy_hist fx fy J)).
Proof.
  intros Hx Hy HJ Rx Ry. unfold delentropy_hist, histogram2d.
  rewrite !flatten_neg2.
  destruct (neg_bounded_list _ (bounded_flatten fx Hx)) as (-> & _ & _).
  destruct (neg_bounded_list _ (bounded_flatten fy Hy)) as (-> & _ & _).
  rewrite combine_map_both.
  set (nb := 2 * J + 1). set (ps := combine (flatten fx) (flatten fy)).
  set (cnt := fun a b =>
                count (fun p => in_bin nb (- J) J a (fst p)
                                && in_bin nb (- J) J b (snd p)) ps).
  assert (Hcnt : forall a b,
             count (fun p => in_bin nb (- J) J a (fst p)
                             && in_bin nb (- J) J b (snd p))
                   (map (fun p => (- fst p, - snd p)) ps)
             = cnt (nb - 1 - a) (nb - 1 - b)).
  { intros a b. rewrite count_map. unfold cnt. apply count_ext_in.
    intros [x y] Hin. cbn [fst snd].
    rewrite Forall_forall in Rx, Ry.
    pose proof (Rx x (in_combine_l _ _ _ _ Hin)).
    pose proof (Ry y (in_combine_r _ _ _ _ Hin)).
    unfold nb. rewrite !in_bin_neg by lia.
    replace (2 * J + 1 - 1 - a) with (2 * J - a) by lia.
    replace (2 * J + 1 - 1 - b) with (2 * J - b) by lia.
    reflexivity. }
  rewrite (map_ext _ (fun a => map (fun b => cnt (nb - 1 - a) (nb - 1 - b))
                                   (Py.range 0 nb)))
    by (intros a; apply map_ext; intros b; apply Hcnt).
  fold (cnt). rewrite map_map.
  rewrite (map_range_rev
             (fun a => rev (map (fun b => cnt a b) (Py.range 0 nb)))
             (fun a => map (fun b => cnt (nb - 1 - a) (nb - 1 - b))
                           (Py.range 0 nb)) nb).
  - reflexivity.
  - intros a Ha.
    apply (map_range_rev (fun b => cnt (nb - 1 - a) b)). reflexivity.
Qed.

(** C6: for every gradient pair within [-255, 255] (so that J <= 255) on
    which delentropy2d's pipeline returns, the pipeline also returns on
    the negated pair (-fx, -fy), and with the same entropy: J is
    unchanged, the joint histogram is read backwards along both axes, and
    the density, the masked terms and their halved sum are those of the
    original (over exact arithmetic). *)
Theorem C6_negation_invariance (fx fy : array2) (out : delentropy_out)
    (Hx : bounded fx) (Hy : bounded fy)
    (Hout : delentropy_pipeline fx fy = Py.Ok out) :
  exists out',
    delentropy_pipeline (neg2 fx) (neg2 fy) = Py.Ok out'
    /\ del_entropy out' = del_entropy out
    /\ del_hist out' = rev (map (@rev Z) (del_hist out)).
Proof.
  pose proof (delentropy_pipeline_cases fx fy) as Hc.
  pose proof (delentropy_pipeline_cases (neg2 fx) (neg2 fy)) as Hn.
  rewrite (delentropy_jrng_neg fx fy Hx Hy) in Hn.
  destruct (delentropy_jrng fx fy) as [J | e] eqn:EJ;
    [| rewrite Hout in Hc; discriminate].
  destruct (delentropy_jrng_bounds fx fy J Hx Hy EJ) as (HJ & Rx & Ry).
  destruct (Z.ltb_spec 255 J) as [Hgt | Hle]; [lia |].
  destruct Hc as (o & Ho & Hh & He).
  rewrite Hout in Ho. injection Ho as <-.
  destruct Hn as (out' & Hout' & Hh' & He').
  exists out'. split; [exact Hout' |].
  pose proof (delentropy_hist_neg fx fy J Hx Hy (proj1 HJ) Rx Ry) as Hrev.
  split.
  - rewrite He', He, Hrev. apply delentropy_entropy_rev.
  - rewrite Hh', Hh. exact Hrev.
Qed.

Lemma C6_negation_invariance_witness :
  exists out out',
    delentropy_pipeline sample_fx sample_fy = Py.Ok out
    /\ delentropy_pipeline (neg2 sample_fx) (neg2 sample_fy) = Py.Ok out'
    /\ del_entropy out' = del_entropy out.
Proof.
  assert (Hx : bounded sample_fx) by (repeat constructor; lia).
  assert (Hy : bounded sample_fy) by (repeat constructor; lia).
  pose proof (delentropy_pipeline_cases sample_fx sample_fy) as Hc.
  replace (delentropy_jrng sample_fx sample_fy) with (Py.Ok (A := Z) 2)
    in Hc by (vm_compute; reflexivity).
  change (255 <? 2) with false in Hc.
  destruct Hc as (out & Hout & _).
  destruct (C6_negation_invariance sample_fx sample_fy out Hx Hy Hout)
    as (out' & Hout' & He & _).
  exists out, out'. repeat split; assumption.
Defined.

End Negation.

(* ================================================================== *)
(** * Further properties of the code *)

(* ------------------------------------------------------------------ *)
(** * main.py: the validators and the dispatch *)

Section Script.
Import Np Methods.


(** Every method name that the validator of main.py lets through selects
    a branch of [main]; every other name would fall through the chain.
    The default name selects the delentropy branch. *)
Theorem main_dispatch_total (val : string) :
  (Main.parse_method (Some val) = Py.Ok val
   <-> exists m, Main.main_dispatch val = Some m)
  /\ Main.main_dispatch Main.method_default = Some Main.delentropy.
Proof.
  split; [| reflexivity].
  unfold Main.parse_method, Main.argtypemethod, Main.main_dispatch.
  destruct (String.eqb val "pseudo-spatial");
    destruct (String.eqb val "2d-delentropy");
    destruct (String.eqb val "2d-gradient"); cbn [negb andb];
    split; intros H; try reflexivity; try discriminate; eauto;
    destruct H as [m H]; discriminate.
Qed.

End Script.

(* ------------------------------------------------------------------ *)
(** * The two delentropy implementations *)

Section DelentropyValue.
Import Np Methods.

Lemma term_methods (d : float64) :
  ma_mul d (ma_neg (ma_log2 d)) = option_map (fun t => Fin (- t)) (plog2p d).
Proof.
  destruct d as [x | s |]; [| destruct s; reflexivity | reflexivity].
  unfold plog2p. destruct (Rlt_dec 0 x) as [Hpos | Hneg].
  - unfold ma_log2, log2. rewrite ma_domained_pos by exact Hpos.
    cbn [ma_neg ma_mul option_map fneg fmul]. do 2 f_equal. ring.
  - unfold ma_log2, ma_domained.
    replace (fle (Fin x) (Fin 0)) with true
      by (symmetry; apply fle_fin; lra).
    rewrite orb_true_r. reflexivity.
Qed.

Lemma term_script (d : float64) :
  option_map (fun e => fdiv e (Fin 2)) (ma_mul d (ma_log2 d)) =
  option_map (fun t => Fin (t / 2)) (plog2p d).
Proof.
  destruct d as [x | s |]; [| destruct s; reflexivity | reflexivity].
  unfold plog2p. destruct (Rlt_dec 0 x) as [Hpos | Hneg].
  - unfold ma_log2, log2. rewrite ma_domained_pos by exact Hpos.
    cbn [ma_mul option_map fmul]. rewrite fdiv_fin by lra. reflexivity.
  - unfold ma_log2, ma_domained.
    replace (fle (Fin x) (Fin 0)) with true
      by (symmetry; apply fle_fin; lra).
    rewrite orb_true_r. reflexivity.
Qed.

(** The sum of a masked array whose entries are all finite. *)
Lemma ma_sum_of_terms (f : R -> R) (ts : list (option R)) :
  f 0%R = 0%R ->
  ma_sum (map (option_map (fun t => Fin (f t))) ts) =
  if forallb (fun o => match o with None => true | Some _ => false end) ts
  then None
  else Some (Fin (Rsum (map (fun o => f (unmask o)) ts))%R).
Proof.
  intros Hf. unfold ma_sum.
  replace (forallb is_masked (map (option_map (fun t => Fin (f t))) ts))
    with (forallb (fun o : option R =>
                     match o with None => true | Some _ => false end) ts).
  - destruct (forallb _ ts); [reflexivity |]. f_equal.
    rewrite <- fsum_fin, !map_map. f_equal. apply map_ext.
    intros [t |]; cbn [option_map filled0 unmask]; [| rewrite Hf]; reflexivity.
  - induction ts as [| [t |] ts IH]; cbn [map forallb option_map is_masked];
      [reflexivity | reflexivity | exact IH].
Qed.

Lemma Rsum_neg_half (rs : list R) :
  (Rsum (map (fun r => - r) rs) / 2 = - Rsum (map (fun r => r / 2) rs))%R.
Proof.
  induction rs as [| r rs IH]; cbn [map Rsum fold_right]; [lra |].
  fold (Rsum (map (fun r => (- r)%R) rs)).
  fold (Rsum (map (fun r => (r / 2)%R) rs)). lra.
Qed.

(** The entropy of [delentropy2d] over the reals: half the sum of
    [- p log2 p] over the filled bins, or the masked constant when no bin
    holds a positive finite density. *)
Lemma delentropy_entropy_value (hist : array2) :
  delentropy_entropy hist =
  let ts := map (fun h => plog2p (fdiv (of_int h)
                                    (fsum (map of_int (flatten hist)))))
                (flatten hist) in
  if forallb (fun o => match o with None => true | Some _ => false end) ts
  then None
  else Some (Fin (Rsum (map (fun o => - unmask o) ts) / 2)%R).
Proof.
  rewrite delentropy_entropy_flat. cbv zeta.
  rewrite (map_ext _ (fun h => option_map (fun t => Fin (- t))
             (plog2p (fdiv (of_int h) (fsum (map of_int (flatten hist)))))))
    by (intros h; apply term_methods).
  rewrite <- (map_map (fun h => plog2p (fdiv (of_int h)
                                 (fsum (map of_int (flatten hist)))))
                      (option_map (fun t => Fin (- t)))).
  rewrite (ma_sum_of_terms (fun t => (- t)%R)) by lra.
  destruct (forallb _ _); [reflexivity |].
  cbn [option_map]. rewrite fdiv_fin by lra. reflexivity.
Qed.

Lemma method_delentropy_entropy_value (hist : array2) :
  Main.method_delentropy_entropy hist =
  let ts := map (fun h => plog2p (fdiv (of_int h)
                                    (fsum (map of_int (flatten hist)))))
                (flatten hist) in
  if forallb (fun o => match o with None => true | Some _ => false end) ts
  then None
  else Some (Fin (- Rsum (map (fun o => unmask o / 2) ts))%R).
Proof.
  unfold Main.method_delentropy_entropy, delentropy_density. cbv zeta.
  unfold flatten. rewrite !map_map.
  rewrite (map_ext _ (map (fun h => option_map (fun t => Fin (t / 2))
             (plog2p (fdiv (of_int h) (fsum (map of_int (concat hist))))))))
    by (intros row; rewrite !map_map; apply map_ext; intros h;
        apply term_script).
  rewrite <- concat_map.
  rewrite <- (map_map (fun h => plog2p (fdiv (of_int h)
                                 (fsum (map of_int (concat hist)))))
                      (option_map (fun t => Fin (t / 2)))).
  rewrite (ma_sum_of_terms (fun t => (t / 2)%R)) by lra.
  destruct (forallb _ _); [reflexivity |].
  cbn [ma_neg option_map fneg]. rewrite ?map_map. reflexivity.
Qed.

(** The script [main.py] and the module [methods.py] compute the same
    delentropy: halving every term and negating the sum, or negating every
    term and halving the sum, and they fail on the same images with the
    same exception. *)
Theorem method_delentropy_agrees (g : array2) :
  Main.method_delentropy g =
  match delentropy2d g with
  | Py.Ok out => Py.Ok (del_entropy out)
  | Py.Raise e => Py.Raise e
  end.
Proof.
  unfold Main.method_delentropy, delentropy2d, delentropy_pipeline, Py.bind.
  destruct (delentropy_jrng (delentropy_fx g) (delentropy_fy g)) as [J | e];
    [| reflexivity].
  destruct (255 <? J); [reflexivity |]. cbn [del_entropy]. f_equal.
  rewrite method_delentropy_entropy_value, delentropy_entropy_value.
  cbv zeta. destruct (forallb _ _); [reflexivity |].
  do 2 f_equal.
  rewrite <- (map_map unmask (fun r => (- r)%R)).
  rewrite <- (map_map unmask (fun r => (r / 2)%R)).
  symmetry. apply Rsum_neg_half.
Qed.

End DelentropyValue.

(* ------------------------------------------------------------------ *)
(** * delentropy2d: small images, 8-bit images, brightness offsets *)

Section DelentropyEdges.
Import Np Methods.

Lemma flatten_empty_rows (a : array2) : rect 0 a -> flatten a = [].
Proof.
  induction 1 as [| row a Hrow _ IH]; [reflexivity |].
  unfold flatten in *. cbn [concat]. rewrite IH.
  destruct row; [reflexivity | discriminate Hrow].
Qed.

Lemma delentropy_fx_rect (g : array2) (wn : nat) :
  rect wn g -> rect (wn - 2) (delentropy_fx g).
Proof.
  intros Hg. apply rect_of_rows. intros r Hr.
  rewrite delentropy_fx_rows in Hr. apply delentropy_fx_row_length; assumption.
Qed.

Lemma delentropy_fy_rect (g : array2) (wn : nat) :
  rect wn g -> rect (wn - 2) (delentropy_fy g).
Proof.
  intros Hg. apply rect_of_rows. intros r Hr.
  rewrite delentropy_fy_rows in Hr. apply delentropy_fy_row_length; assumption.
Qed.

Lemma small_image_no_gradient (g : array2) (wn : nat) :
  rect wn g -> (length g < 3)%nat \/ (wn < 3)%nat ->
  flatten (delentropy_fx g) = [].
Proof.
  intros Hg [Hh | Hw].
  - pose proof (delentropy_fx_rows g) as Hr.
    destruct (delentropy_fx g); [reflexivity | simpl in Hr; lia].
  - apply flatten_empty_rows.
    replace O with (wn - 2)%nat by lia. apply delentropy_fx_rect, Hg.
Qed.

Lemma delentropy2d_value_error (g : array2) (wn : nat) :
  rect wn g ->
  (delentropy2d g = Py.Raise Py.ValueError
   <-> (length g < 3)%nat \/ (wn < 3)%nat).
Proof.
  intros Hg.
  unfold delentropy2d.
  pose proof (delentropy_pipeline_cases (delentropy_fx g) (delentropy_fy g))
    as Hc.
  split.
  - intros Hv.
    destruct (le_lt_dec 3 (length g)) as [Hh | Hh]; [| left; exact Hh].
    destruct (le_lt_dec 3 wn) as [Hw | Hw]; [| right; exact Hw].
    exfalso.
    assert (Nx : (1 <= length (flatten (delentropy_fx g)))%nat).
    { apply (flatten_nonempty _ (wn - 2));
        [apply delentropy_fx_rect, Hg | rewrite delentropy_fx_rows; lia | lia]. }
    assert (Ny : (1 <= length (flatten (delentropy_fy g)))%nat).
    { apply (flatten_nonempty _ (wn - 2));
        [apply delentropy_fy_rect, Hg | rewrite delentropy_fy_rows; lia | lia]. }
    unfold delentropy_jrng, Py.bind, Np.max, abs in Hc.
    destruct (flatten (delentropy_fx g)) as [| x xs]; [simpl in Nx; lia |].
    destruct (flatten (delentropy_fy g)) as [| y ys]; [simpl in Ny; lia |].
    cbn [map] in Hc.
    match type of Hc with
    | if ?b then _ else _ => destruct b
    end.
    + rewrite Hv in Hc. discriminate.
    + destruct Hc as (out & Hout & _). rewrite Hv in Hout. discriminate.
  - intros Hsmall.
    pose proof (small_image_no_gradient g wn Hg Hsmall) as Hx.
    unfold delentropy_jrng, Py.bind in Hc. rewrite Hx in Hc. exact Hc.
Qed.

(** delentropy2d needs an image of at least 3x3 pixels: on a smaller one
    the gradient arrays are empty and [np.max] raises ValueError; on a
    larger one it never does. *)
Theorem delentropy2d_too_small (g : array2) (wn : nat) (Hg : rect wn g) :
  delentropy2d g = Py.Raise Py.ValueError
  <-> (length g < 3)%nat \/ (wn < 3)%nat.
Proof. apply delentropy2d_value_error. exact Hg. Qed.

Lemma delentropy2d_too_small_witness :
  rect 2 [[1; 2]; [3; 4]; [5; 6]]
  /\ (delentropy2d [[1; 2]; [3; 4]; [5; 6]] = Py.Raise Py.ValueError
      <-> (length [[1; 2]; [3; 4]; [5; 6]] < 3)%nat \/ (2 < 3)%nat).
Proof.
  assert (H : rect 2 [[1; 2]; [3; 4]; [5; 6]]) by (repeat constructor).
  split; [exact H | apply (delentropy2d_too_small _ 2 H)].
Defined.

(** The gradients of an 8-bit image lie in [-255, 255]. *)
Lemma eight_bit_row (g : array2) (row : list Z) :
  eight_bit g -> In row g -> Forall (fun p => 0 <= p <= 255) row.
Proof. unfold eight_bit. rewrite Forall_forall. auto. Qed.

Lemma rowsub_bounded (xs ys : list Z) :
  Forall (fun p => 0 <= p <= 255) xs -> Forall (fun p => 0 <= p <= 255) ys ->
  Forall (fun v => -255 <= v <= 255) (rowsub xs ys).
Proof.
  intros Hx Hy. rewrite Forall_forall in *. intros z Hz.
  apply in_zip_with in Hz as (x & y & Hx' & Hy' & ->).
  specialize (Hx x Hx'). specialize (Hy y Hy').
  rewrite wrap64_small; lia.
Qed.

Lemma delentropy_fx_bounded (g : array2) :
  eight_bit g -> bounded (delentropy_fx g).
Proof.
  intros Hg. rewrite delentropy_fx_unfold. unfold bounded.
  rewrite Forall_forall. intros row Hrow.
  apply in_firstn, in_skipn in Hrow.
  apply in_map_iff in Hrow as (row' & <- & Hrow').
  pose proof (eight_bit_row g row' Hg Hrow') as Hr.
  apply rowsub_bounded; [apply Forall_skipn | apply Forall_firstn]; exact Hr.
Qed.

Lemma delentropy_fy_bounded (g : array2) :
  eight_bit g -> bounded (delentropy_fy g).
Proof.
  intros Hg. rewrite delentropy_fy_unfold. unfold bounded.
  rewrite Forall_forall. intros row Hrow.
  apply in_map_iff in Hrow as (row' & <- & Hrow').
  apply Forall_firstn, Forall_skipn.
  apply in_zip_with in Hrow' as (x & y & Hx & Hy & ->).
  apply in_skipn in Hx. apply in_firstn in Hy.
  apply rowsub_bounded; eapply eight_bit_row; eauto.
Qed.

(** On an 8-bit image the range assertion of delentropy2d never fires:
    every gradient lies in [-255, 255]; and if the image has at least
    3x3 pixels the method returns. *)
Theorem delentropy2d_eight_bit (g : array2) (wn : nat)
    (H8 : eight_bit g) (Hg : rect wn g) :
  delentropy2d g <> Py.Raise Py.AssertionError
  /\ ((3 <= length g)%nat -> (3 <= wn)%nat ->
      exists out J,
        delentropy2d g = Py.Ok out
        /\ delentropy_jrng (delentropy_fx g) (delentropy_fy g) = Py.Ok J
        /\ 0 <= J <= 255).
Proof.
  pose proof (delentropy_fx_bounded g H8) as Bx.
  pose proof (delentropy_fy_bounded g H8) as By.
  pose proof (delentropy_pipeline_cases (delentropy_fx g) (delentropy_fy g))
    as Hc.
  unfold delentropy2d.
  destruct (delentropy_jrng (delentropy_fx g) (delentropy_fy g))
    as [J | e] eqn:EJ.
  - destruct (delentropy_jrng_bounds _ _ J Bx By EJ) as (HJ & _ & _).
    destruct (Z.ltb_spec 255 J) as [Hgt | Hle]; [lia |].
    destruct Hc as (out & Hout & _). rewrite Hout.
    split; [discriminate |]. intros _ _. exists out, J. auto.
  - pose proof (delentropy_jrng_raises _ _ e EJ) as ->. rewrite Hc.
    split; [discriminate |]. intros Hh Hw. exfalso.
    assert (Hv : delentropy2d g = Py.Raise Py.ValueError)
      by (unfold delentropy2d; exact Hc).
    apply (delentropy2d_value_error g wn Hg) in Hv. lia.
Qed.

Lemma delentropy2d_eight_bit_witness :
  eight_bit img5 /\ rect 5 img5
  /\ exists out J,
       delentropy2d img5 = Py.Ok out
       /\ delentropy_jrng (delentropy_fx img5) (delentropy_fy img5) = Py.Ok J
       /\ 0 <= J <= 255.
Proof.
  assert (H8 : eight_bit img5) by (repeat constructor; lia).
  assert (Hg : rect 5 img5) by (repeat constructor).
  split; [exact H8 |]. split; [exact Hg |].
  apply (proj2 (delentropy2d_eight_bit img5 5 H8 Hg)); simpl; lia.
Defined.

Lemma zip_with_map_both {A B C : Type} (F : B -> B -> C) (f : A -> B)
    (xs ys : list A) :
  zip_with F (map f xs) (map f ys) = zip_with (fun x y => F (f x) (f y)) xs ys.
Proof.
  unfold zip_with. rewrite combine_map_both, map_map. reflexivity.
Qed.

Lemma rowsub_offset (c : Z) (xs ys : list Z) :
  rowsub (map (Z.add c) xs) (map (Z.add c) ys) = rowsub xs ys.
Proof.
  unfold rowsub. rewrite zip_with_map_both. unfold zip_with.
  apply map_ext. intros [x y]. cbn [fst snd]. f_equal. lia.
Qed.

Lemma delentropy_fx_offset (c : Z) (g : array2) :
  delentropy_fx (offset c g) = delentropy_fx g.
Proof.
  rewrite !delentropy_fx_unfold. unfold offset.
  rewrite length_map, map_map. do 2 f_equal.
  apply map_ext. intros row.
  rewrite length_map, skipn_map, firstn_map. apply rowsub_offset.
Qed.

Lemma delentropy_fy_offset (c : Z) (g : array2) :
  delentropy_fy (offset c g) = delentropy_fy g.
Proof.
  rewrite !delentropy_fy_unfold. unfold offset.
  rewrite length_map, skipn_map, firstn_map. f_equal.
  fold (zip_with rowsub (skipn 2 g) (firstn (length g - 2) g)).
  rewrite (zip_with_map_both rowsub (map (Z.add c))).
  unfold zip_with. apply map_ext. intros [x y]. apply rowsub_offset.
Qed.

(** delentropy2d sees only differences of pixels: adding one constant to
    every pixel changes nothing of what it returns or raises. *)
Theorem delentropy2d_offset_invariant (c : Z) (g : array2) :
  delentropy2d (offset c g) = delentropy2d g.
Proof.
  unfold delentropy2d.
  rewrite delentropy_fx_offset, delentropy_fy_offset. reflexivity.
Qed.

End DelentropyEdges.

(* ------------------------------------------------------------------ *)
(** * delentropy2d: the mass of the joint histogram *)

Section HistogramMass.
Import Np Methods.

Lemma Zsum_concat (ll : list (list Z)) : Zsum (concat ll) = Zsum (map Zsum ll).
Proof.
  induction ll as [| l ll IH]; [reflexivity |].
  cbn [concat map]. rewrite Zsum_app, IH. reflexivity.
Qed.

Lemma Zsum_map_add {A : Type} (f g : A -> Z) (l : list A) :
  Zsum (map (fun x => f x + g x) l) = Zsum (map f l) + Zsum (map g l).
Proof.
  induction l as [| x l IH]; [reflexivity |].
  cbn [map Zsum fold_right].
  fold (Zsum (map (fun x => f x + g x) l)).
  fold (Zsum (map f l)). fold (Zsum (map g l)). lia.
Qed.

Lemma Zsum_map_zero {A : Type} (l : list A) : Zsum (map (fun _ => 0) l) = 0.
Proof. induction l as [| x l IH]; [reflexivity | exact IH]. Qed.

Lemma Zsum_map_ext {A : Type} (f g : A -> Z) (l : list A) :
  (forall x, In x l -> f x = g x) -> Zsum (map f l) = Zsum (map g l).
Proof. intros H. f_equal. apply map_ext_in. exact H. Qed.

(** Exactly one bin index of [range(0, n)] equals a given index in range. *)
Lemma Zsum_indicator (k : Z) (n : nat) :
  Zsum (map (fun b => if k =? b then 1 else 0) (Py.range 0 (Z.of_nat n))) =
  if (0 <=? k) && (k <? Z.of_nat n) then 1 else 0.
Proof.
  induction n as [| n IH].
  - cbn [Z.of_nat]. rewrite range_nil by lia. cbn [map Zsum fold_right].
    destruct (Z.leb_spec 0 k), (Z.ltb_spec k 0); cbn [andb]; lia.
  - rewrite range_0_succ, map_app, Zsum_app, IH. cbn [map Zsum fold_right].
    destruct (Z.leb_spec 0 k), (Z.ltb_spec k (Z.of_nat n)),
      (Z.ltb_spec k (Z.of_nat (S n))), (Z.eqb_spec k (Z.of_nat n));
      cbn [andb]; lia.
Qed.

Lemma count_cons {A : Type} (f : A -> bool) (x : A) (l : list A) :
  count f (x :: l) = (if f x then 1 else 0) + count f l.
Proof.
  unfold count. cbn [filter]. destruct (f x); cbn [length]; lia.
Qed.

(** The bins of the joint histogram sum to the number of pairs: every
    pair within [-J, J] lands in exactly one bin. *)
Lemma histogram2d_mass (J : Z) (ps_x ps_y : list Z) :
  0 <= J ->
  Forall (fun v => - J <= v <= J) ps_x ->
  Forall (fun v => - J <= v <= J) ps_y ->
  Zsum (flatten (histogram2d ps_x ps_y (2 * J + 1) (- J) J)) =
  Z.of_nat (length (combine ps_x ps_y)).
Proof.
  intros HJ Hx Hy. unfold histogram2d, flatten.
  rewrite Zsum_concat, map_map.
  assert (Hps : Forall (fun p => (- J <= fst p <= J) /\ (- J <= snd p <= J))
                       (combine ps_x ps_y)).
  { rewrite Forall_forall in *. intros [x y] Hin. cbn [fst snd]. split.
    - apply Hx. eapply in_combine_l; eauto.
    - apply Hy. eapply in_combine_r; eauto. }
  set (nb := 2 * J + 1). set (R := Py.range 0 nb).
  induction (combine ps_x ps_y) as [| [x y] ps IH].
  - cbn [length]. rewrite (Zsum_map_ext _ (fun _ => 0)).
    + apply Zsum_map_zero.
    + intros a _. apply Zsum_map_zero.
  - inversion Hps as [| ? ? [Hpx Hpy] Hps']; subst. cbn [fst snd] in *.
    rewrite (Zsum_map_ext _
               (fun a => (if x + J =? a then 1 else 0)
                         + Zsum (map (fun b =>
                                        count (fun p => in_bin nb (- J) J a (fst p)
                                                        && in_bin nb (- J) J b (snd p))
                                              ps) R))).
    + rewrite Zsum_map_add, (IH Hps').
      replace nb with (Z.of_nat (Z.to_nat nb)) by (unfold nb; lia).
      unfold R. replace nb with (Z.of_nat (Z.to_nat nb)) by (unfold nb; lia).
      rewrite Zsum_indicator.
      destruct (Z.leb_spec 0 (x + J)), (Z.ltb_spec (x + J) (Z.of_nat (Z.to_nat nb)));
        cbn [andb length]; unfold nb in *; lia.
    + intros a _.
      rewrite (Zsum_map_ext _
                 (fun b => (if x + J =? a
                            then (if y + J =? b then 1 else 0) else 0)
                           + count (fun p => in_bin nb (- J) J a (fst p)
                                             && in_bin nb (- J) J b (snd p))
                                   ps)).
      * rewrite Zsum_map_add. f_equal.
        destruct (x + J =? a); [| apply Zsum_map_zero].
        unfold R. replace nb with (Z.of_nat (Z.to_nat nb)) by (unfold nb; lia).
        rewrite Zsum_indicator.
        destruct (Z.leb_spec 0 (y + J)),
          (Z.ltb_spec (y + J) (Z.of_nat (Z.to_nat nb)));
          cbn [andb]; unfold nb in *; lia.
      * intros b _. rewrite count_cons. cbn [fst snd]. f_equal.
        unfold in_bin, nb. rewrite !hist_bin_integer by lia.
        destruct (x + J =? a), (y + J =? b); reflexivity.
Qed.

Lemma length_flatten_rect (a : array2) (w : nat) :
  rect w a -> length (flatten a) = (length a * w)%nat.
Proof.
  induction 1 as [| row a Hrow _ IH]; [reflexivity |].
  unfold flatten in *. cbn [concat length]. rewrite length_app, IH, Hrow.
  lia.
Qed.

Lemma fsum_of_int (l : list Z) : fsum (map of_int l) = Fin (IZR (Zsum l)).
Proof.
  unfold of_int. rewrite <- (map_map IZR Fin), fsum_fin. f_equal.
  induction l as [| x l IH]; [reflexivity |].
  cbn [map Rsum Zsum fold_right].
  fold (Rsum (map IZR l)). fold (Zsum l). rewrite IH, plus_IZR. reflexivity.
Qed.

Lemma histogram2d_nonneg (xs ys : list Z) (nbins lo hi : Z) :
  Forall (fun h => 0 <= h) (flatten (histogram2d xs ys nbins lo hi)).
Proof.
  unfold histogram2d, flatten. rewrite Forall_forall. intros h Hh.
  apply in_concat in Hh as (row & Hrow & Hh).
  apply in_map_iff in Hrow as (a & <- & _).
  apply in_map_iff in Hh as (b & <- & _). unfold count. lia.
Qed.

Lemma Zsum_pos_elem (l : list Z) :
  Forall (fun h => 0 <= h) l -> 0 < Zsum l -> exists h, In h l /\ 0 < h.
Proof.
  induction 1 as [| x l Hx Hl IH]; cbn [Zsum fold_right]; [lia |].
  fold (Zsum l). intros Hs.
  destruct (Z_lt_dec 0 x) as [Hpos | Hz].
  - exists x. split; [left; reflexivity | exact Hpos].
  - destruct IH as (h & Hin & Hh); [lia |].
    exists h. split; [right; exact Hin | exact Hh].
Qed.

Lemma Rsum_nonneg (l : list R) :
  Forall (fun r => (0 <= r)%R) l -> (0 <= Rsum l)%R.
Proof.
  induction 1 as [| x l Hx _ IH]; cbn [Rsum fold_right]; [lra |].
  fold (Rsum l). lra.
Qed.

(** [p log2 p <= 0] for a density [0 < p <= 1]. *)
Lemma plog2p_nonpos (p : R) :
  (0 < p <= 1)%R -> (p * (ln p / ln 2) <= 0)%R.
Proof.
  intros [Hp H1]. pose proof ln2_pos as H2.
  assert (Hl : (ln p <= 0)%R).
  { destruct (Req_dec p 1) as [-> | Hne]; [rewrite ln_1; lra |].
    rewrite <- ln_1. left. apply ln_increasing; lra. }
  assert (Hq : (ln p / ln 2 <= 0)%R).
  { unfold Rdiv. rewrite <- (Rmult_0_l (/ ln 2)).
    apply Rmult_le_compat_r; [left; apply Rinv_0_lt_compat; exact H2 | exact Hl]. }
  rewrite <- (Rmult_0_r p). apply Rmult_le_compat_l; lra.
Qed.

(** The entropy of a histogram of non-negative counts, not all zero, is
    a finite non-negative number. *)
Lemma delentropy_entropy_nonneg (hist : array2) :
  Forall (fun h => 0 <= h) (flatten hist) -> 0 < Zsum (flatten hist) ->
  exists e, delentropy_entropy hist = Some (Fin e) /\ (0 <= e)%R.
Proof.
  intros Hnn Hpos. rewrite delentropy_entropy_value. cbv zeta.
  rewrite fsum_of_int.
  set (N := Zsum (flatten hist)) in *.
  assert (HN : (0 < IZR N)%R) by (apply IZR_pos; exact Hpos).
  assert (Hd : forall h, of_int h = Fin (IZR h)) by reflexivity.
  destruct (Zsum_pos_elem _ Hnn Hpos) as (h0 & Hin0 & Hh0).
  match goal with
  | |- context [forallb ?f ?l] => destruct (forallb f l) eqn:Eall
  end.
  - exfalso. rewrite forallb_forall in Eall.
    specialize (Eall (plog2p (fdiv (of_int h0) (Fin (IZR N))))).
    rewrite Hd, fdiv_fin in Eall by lra. unfold plog2p in Eall.
    destruct (Rlt_dec 0 (IZR h0 / IZR N)) as [_ | Hn].
    + assert (false = true); [| discriminate].
      apply Eall. apply in_map_iff. exists h0. split; [| exact Hin0].
      rewrite Hd, fdiv_fin by lra. unfold plog2p.
      destruct (Rlt_dec 0 (IZR h0 / IZR N)) as [_ | Hn]; [reflexivity |].
      exfalso. apply Hn. apply div_IZR_pos; assumption.
    + apply Hn. apply div_IZR_pos; assumption.
  - eexists. split; [reflexivity |].
    apply Rmult_le_pos; [| lra].
    apply Rsum_nonneg. rewrite Forall_forall. intros r Hr.
    apply in_map_iff in Hr as (o & <- & Ho).
    apply in_map_iff in Ho as (h & <- & Hh).
    rewrite Hd, fdiv_fin by lra. unfold plog2p.
    destruct (Rlt_dec 0 (IZR h / IZR N)) as [Hp | _]; cbn [unmask]; [| lra].
    assert (Hle : (IZR h / IZR N <= 1)%R).
    { apply (Rmult_le_reg_r (IZR N)); [exact HN |].
      replace (IZR h / IZR N * IZR N)%R with (IZR h) by (field; lra).
      rewrite Rmult_1_l. apply IZR_le. apply Zsum_ge_elem; assumption. }
    pose proof (plog2p_nonpos _ (conj Hp Hle)). lra.
Qed.

(** What delentropy2d does on an 8-bit image of at least 3x3 pixels. *)
Lemma delentropy2d_eight_bit_run (g : array2) (wn : nat) :
  eight_bit g -> rect wn g -> (3 <= length g)%nat -> (3 <= wn)%nat ->
  exists out J,
    delentropy2d g = Py.Ok out
    /\ 0 <= J <= 255
    /\ del_hist out = delentropy_hist (delentropy_fx g) (delentropy_fy g) J
    /\ del_entropy out
       = delentropy_entropy
           (delentropy_hist (delentropy_fx g) (delentropy_fy g) J)
    /\ Zsum (flatten (delentropy_hist (delentropy_fx g) (delentropy_fy g) J))
       = Z.of_nat ((length g - 2) * (wn - 2)).
Proof.
  intros H8 Hg Hh Hw.
  pose proof (delentropy_fx_bounded g H8) as Bx.
  pose proof (delentropy_fy_bounded g H8) as By.
  pose proof (delentropy_pipeline_cases (delentropy_fx g) (delentropy_fy g))
    as Hc.
  destruct (delentropy_jrng (delentropy_fx g) (delentropy_fy g))
    as [J | e] eqn:EJ.
  - destruct (delentropy_jrng_bounds _ _ J Bx By EJ) as (HJ & Rx & Ry).
    destruct (Z.ltb_spec 255 J) as [Hgt | Hle]; [lia |].
    destruct Hc as (out & Hout & Hhist & Hent). exists out, J.
    split; [exact Hout |]. split; [exact HJ |].
    split; [exact Hhist |]. split; [exact Hent |].
    unfold delentropy_hist.
    rewrite (histogram2d_mass J _ _ (proj1 HJ) Rx Ry).
    rewrite length_combine.
    rewrite (length_flatten_rect _ (wn - 2) (delentropy_fx_rect g wn Hg)).
    rewrite (length_flatten_rect _ (wn - 2) (delentropy_fy_rect g wn Hg)).
    rewrite delentropy_fx_rows, delentropy_fy_rows, Nat.min_id. reflexivity.
  - exfalso. pose proof (delentropy_jrng_raises _ _ e EJ) as ->.
    assert (Hv : delentropy2d g = Py.Raise Py.ValueError)
      by (unfold delentropy2d; exact Hc).
    apply (delentropy2d_value_error g wn Hg) in Hv. lia.
Qed.

(** The joint histogram of delentropy2d loses no gradient pair: on an
    8-bit image of [h] rows and [w] columns (both at least 3) its bins
    sum to [(h - 2) * (w - 2)], the number of interior pixels. *)
Theorem delentropy2d_histogram_total (g : array2) (wn : nat)
    (H8 : eight_bit g) (Hg : rect wn g)
    (Hh : (3 <= length g)%nat) (Hw : (3 <= wn)%nat) :
  exists out,
    delentropy2d g = Py.Ok out
    /\ Zsum (flatten (del_hist out)) = Z.of_nat ((length g - 2) * (wn - 2)).
Proof.
  destruct (delentropy2d_eight_bit_run g wn H8 Hg Hh Hw)
    as (out & J & Hout & _ & Hhist & _ & Hsum).
  exists out. split; [exact Hout |]. rewrite Hhist. exact Hsum.
Qed.

Lemma delentropy2d_histogram_total_witness :
  exists out,
    delentropy2d img5 = Py.Ok out
    /\ Zsum (flatten (del_hist out)) = Z.of_nat ((length img5 - 2) * (5 - 2)).
Proof.
  apply (delentropy2d_histogram_total img5 5).
  - repeat constructor; lia.
  - repeat constructor.
  - simpl; lia.
  - lia.
Defined.

(** On an 8-bit image of at least 3x3 pixels the entropy that delentropy2d
    logs is a finite, non-negative number: it is never NaN, infinite or
    the masked constant. *)
Theorem delentropy2d_entropy_nonneg (g : array2) (wn : nat)
    (H8 : eight_bit g) (Hg : rect wn g)
    (Hh : (3 <= length g)%nat) (Hw : (3 <= wn)%nat) :
  exists out e,
    delentropy2d g = Py.Ok out
    /\ del_entropy out = Some (Fin e)
    /\ (0 <= e)%R.
Proof.
  destruct (delentropy2d_eight_bit_run g wn H8 Hg Hh Hw)
    as (out & J & Hout & _ & _ & Hent & Hsum).
  destruct (delentropy_entropy_nonneg
              (delentropy_hist (delentropy_fx g) (delentropy_fy g) J))
    as (e & He & Hpos).
  - apply histogram2d_nonneg.
  - rewrite Hsum. nia.
  - exists out, e. split; [exact Hout |]. split; [| exact Hpos].
    rewrite Hent. exact He.
Qed.

Lemma delentropy2d_entropy_nonneg_witness :
  exists out e,
    delentropy2d img5 = Py.Ok out
    /\ del_entropy out = Some (Fin e)
    /\ (0 <= e)%R.
Proof.
  apply (delentropy2d_entropy_nonneg img5 5).
  - repeat constructor; lia.
  - repeat constructor.
  - simpl; lia.
  - lia.
Defined.

End HistogramMass.

(* ------------------------------------------------------------------ *)
(** * kapur1d: when it raises, and what the loop selects *)

Section KapurThreshold.
Import Np Methods.

Lemma histogram_item (xs : list Z) (nbins lo hi i : Z) :
  0 <= i < nbins ->
  item (histogram xs nbins lo hi) i = count (in_bin nbins lo hi i) xs.
Proof.
  intros Hi. unfold item, histogram.
  rewrite (nth_map_lt _ _ _ 0 0) by (rewrite range_length; lia).
  rewrite range_nth by lia. f_equal. f_equal. lia.
Qed.

Lemma count_nonzero_iff {A : Type} (f : A -> bool) (xs : list A) :
  count f xs <> 0 <-> exists x, In x xs /\ f x = true.
Proof.
  unfold count. split.
  - intros H. destruct (filter f xs) as [| x l] eqn:E; [simpl in H; lia |].
    exists x. apply filter_In. rewrite E. left. reflexivity.
  - intros (x & Hin & Hf).
    assert (Hx : In x (filter f xs)) by (apply filter_In; auto).
    destruct (filter f xs); [destruct Hx | simpl; lia].
Qed.

(** The bin of a pixel in the 256-bin histogram over [0, 256]: its own
    value, 255 for the value 256, none outside. *)
Lemma in_bin_256 (i p : Z) :
  in_bin 256 0 256 i p = true
  <-> (0 <= p < 256 /\ i = p) \/ (p = 256 /\ i = 255).
Proof.
  unfold in_bin, hist_bin. change (0 =? 256) with false. cbv iota.
  destruct (Z.ltb_spec p 0) as [Hn | Hn]; cbn [orb].
  - split; [discriminate | lia].
  - destruct (Z.ltb_spec 256 p) as [Hb | Hb].
    + split; [discriminate | lia].
    + destruct (Z.eqb_spec p 256) as [-> | Hne].
      * change (256 - 1) with 255. rewrite Z.eqb_eq. lia.
      * rewrite Z.sub_0_r, Z.div_mul by lia. rewrite Z.eqb_eq. lia.
Qed.

Lemma kapur_hist_length (g : array2) : length (kapur_hist g) = 256%nat.
Proof. unfold kapur_hist. rewrite histogram_length. reflexivity. Qed.

Lemma kapur_hist_filled (g : array2) (i : Z) :
  In i (nonzero (kapur_hist g))
  <-> 0 <= i < 256
      /\ exists p, In p (flatten g)
                   /\ ((0 <= p < 256 /\ i = p) \/ (p = 256 /\ i = 255)).
Proof.
  rewrite nonzero_spec, kapur_hist_length.
  change (Z.of_nat 256) with 256. split.
  - intros [Hi Hnz]. split; [exact Hi |].
    unfold kapur_hist in Hnz. rewrite histogram_item in Hnz by exact Hi.
    apply count_nonzero_iff in Hnz as (p & Hin & Hp).
    exists p. split; [exact Hin | apply in_bin_256; exact Hp].
  - intros [Hi (p & Hin & Hp)]. split; [exact Hi |].
    unfold kapur_hist. rewrite histogram_item by exact Hi.
    apply count_nonzero_iff. exists p. split; [exact Hin |].
    apply in_bin_256. exact Hp.
Qed.

Lemma kapur1d_unfold (g : array2) :
  kapur1d g =
  (binrng <- first_last (nonzero (kapur_hist g)) ;;
   Py.Ok {| kapur_log_entropy :=
              entropy (kapur_loop (kapur_hist g) (kapur_cdf g)
                         (fst binrng) (snd binrng));
            kapur_log_threshold :=
              threshold (kapur_loop (kapur_hist g) (kapur_cdf g)
                           (fst binrng) (snd binrng));
            kapur_log_ratio :=
              option_map (fun e => fdiv e (Fin 8))
                (entropy (kapur_loop (kapur_hist g) (kapur_cdf g)
                            (fst binrng) (snd binrng)));
            kapur_entimg :=
              map (map (fun p =>
                          if p <? threshold
                                    (kapur_loop (kapur_hist g) (kapur_cdf g)
                                       (fst binrng) (snd binrng))
                          then p else 0)) g |}).
Proof. unfold kapur1d, kapur_cdf, kapur_hist. cbv zeta. reflexivity. Qed.

Lemma first_last_raises (xs : list Z) (e : Py.exn) :
  first_last xs = Py.Raise e <-> xs = [] /\ e = Py.IndexError.
Proof.
  destruct xs as [| x r]; cbn [first_last].
  - split; [intros H; injection H as <-; auto | intros [_ ->]; reflexivity].
  - split; [discriminate | intros [H _]; discriminate].
Qed.

Lemma first_last_returns (xs : list Z) (lo hi : Z) :
  first_last xs = Py.Ok (lo, hi)
  <-> exists r, xs = lo :: r /\ hi = last r lo.
Proof.
  destruct xs as [| x r]; cbn [first_last].
  - split; [discriminate | intros (r & H & _); discriminate].
  - split.
    + intros H. injection H as <- <-. eauto.
    + intros (r' & H & ->). injection H as <- <-. reflexivity.
Qed.

Lemma kapur1d_raise (g : array2) (e : Py.exn) :
  first_last (nonzero (kapur_hist g)) = Py.Raise e -> kapur1d g = Py.Raise e.
Proof. intros H. rewrite kapur1d_unfold, H. reflexivity. Qed.

Lemma kapur1d_return (g : array2) (lo hi : Z) :
  first_last (nonzero (kapur_hist g)) = Py.Ok (lo, hi) ->
  kapur1d g =
  Py.Ok {| kapur_log_entropy :=
             entropy (kapur_loop (kapur_hist g) (kapur_cdf g) lo hi);
           kapur_log_threshold :=
             threshold (kapur_loop (kapur_hist g) (kapur_cdf g) lo hi);
           kapur_log_ratio :=
             option_map (fun e => fdiv e (Fin 8))
               (entropy (kapur_loop (kapur_hist g) (kapur_cdf g) lo hi));
           kapur_entimg :=
             map (map (fun p =>
                         if p <? threshold
                                   (kapur_loop (kapur_hist g) (kapur_cdf g)
                                      lo hi)
                         then p else 0)) g |}.
Proof. intros H. rewrite kapur1d_unfold, H. reflexivity. Qed.

Lemma kapur_hist_empty (g : array2) :
  nonzero (kapur_hist g) = []
  <-> forall p, In p (flatten g) -> p < 0 \/ 256 < p.
Proof.
  split.
  - intros E p Hp.
    destruct (Z_lt_dec p 0) as [Hn | Hn]; [left; exact Hn |].
    destruct (Z_lt_dec 256 p) as [Hb | Hb]; [right; exact Hb |].
    exfalso.
    assert (Hin : In (if p =? 256 then 255 else p) (nonzero (kapur_hist g))).
    { apply kapur_hist_filled.
      destruct (Z.eqb_spec p 256) as [-> | Hne].
      - split; [lia |]. exists 256. split; [exact Hp | right; lia].
      - split; [lia |]. exists p. split; [exact Hp | left; lia]. }
    rewrite E in Hin. destruct Hin.
  - intros Hall. destruct (nonzero (kapur_hist g)) as [| x r] eqn:E;
      [reflexivity |]. exfalso.
    assert (Hin : In x (nonzero (kapur_hist g)))
      by (rewrite E; left; reflexivity).
    apply kapur_hist_filled in Hin as [_ (p & Hp & Hcase)].
    specialize (Hall p Hp). lia.
Qed.

Lemma kapur1d_raises_iff (g : array2) :
  kapur1d g = Py.Raise Py.IndexError
  <-> forall p, In p (flatten g) -> p < 0 \/ 256 < p.
Proof.
  rewrite <- kapur_hist_empty.
  destruct (first_last (nonzero (kapur_hist g))) as [[lo hi] | e] eqn:E.
  - rewrite (kapur1d_return g lo hi E).
    apply first_last_returns in E as (r & E & _). rewrite E.
    split; discriminate.
  - rewrite (kapur1d_raise g e E).
    apply first_last_raises in E as [E ->]. tauto.
Qed.

(** kapur1d raises IndexError exactly on the images without any pixel in
    [0, 256] (the empty image among them): the histogram is then empty and
    the first and last filled bins do not exist.  On every other image it
    returns. *)
Theorem kapur1d_index_error (g : array2) :
  (kapur1d g = Py.Raise Py.IndexError
   <-> forall p, In p (flatten g) -> p < 0 \/ 256 < p)
  /\ ((exists p, In p (flatten g) /\ 0 <= p <= 256) <->
      exists out, kapur1d g = Py.Ok out).
Proof.
  split; [apply kapur1d_raises_iff |].
  pose proof (kapur_hist_empty g) as He.
  destruct (first_last (nonzero (kapur_hist g))) as [[lo hi] | e] eqn:E.
  - rewrite (kapur1d_return g lo hi E).
    apply first_last_returns in E as (r & E & _).
    split; [intros _; eauto |]. intros _.
    assert (Hin : In lo (nonzero (kapur_hist g)))
      by (rewrite E; left; reflexivity).
    apply kapur_hist_filled in Hin as [_ (p & Hp & Hcase)].
    exists p. split; [exact Hp | lia].
  - rewrite (kapur1d_raise g e E).
    apply first_last_raises in E as [E ->].
    split; [| intros (out & H); discriminate].
    intros (p & Hp & Hr). exfalso.
    pose proof (proj1 He E p Hp). lia.
Qed.

End KapurThreshold.

(* ------------------------------------------------------------------ *)
(** * kapur1d: the candidates' values and the threshold selected *)

Section KapurSelection.
Import Np Methods.

Lemma xlnx_nonpos (x : R) : (0 <= x <= 1)%R -> (xlnx x <= 0)%R.
Proof.
  intros [H0 H1]. unfold xlnx.
  destruct (Req_dec x 0) as [-> | Hx]; [rewrite Rmult_0_l; lra |].
  assert (Hln : (ln x <= 0)%R).
  { destruct (Req_dec x 1) as [-> | Hx1]; [rewrite ln_1; lra |].
    rewrite <- ln_1. left. apply ln_increasing; lra. }
  nra.
Qed.

Lemma Rsum_nonpos (l : list R) :
  Forall (fun r => (r <= 0)%R) l -> (Rsum l <= 0)%R.
Proof. induction 1; simpl; lra. Qed.

Lemma ratio_unit (h c : Z) :
  0 <= h <= c -> 0 < c -> (0 <= IZR h / IZR c <= 1)%R.
Proof.
  intros Hh Hc.
  assert (Hc' : (0 < IZR c)%R) by (apply IZR_lt; exact Hc).
  assert (Hh0 : (0 <= IZR h)%R) by (apply IZR_le; lia).
  assert (Hhc : (IZR h <= IZR c)%R) by (apply IZR_le; lia).
  split.
  - apply Rmult_le_pos; [exact Hh0 |]. left. apply Rinv_0_lt_compat, Hc'.
  - apply (Rmult_le_reg_r (IZR c)); [exact Hc' |].
    unfold Rdiv. rewrite Rmult_assoc, Rinv_l, Rmult_1_r, Rmult_1_l by lra.
    exact Hhc.
Qed.

Lemma Rsum_xlnx_nonpos (l : list Z) (c : Z) :
  0 < c -> (forall h, In h l -> 0 <= h <= c) ->
  (Rsum (map (fun h => xlnx (IZR h / IZR c)) l) <= 0)%R.
Proof.
  intros Hc Hl. apply Rsum_nonpos. apply Forall_forall.
  intros r Hr. apply in_map_iff in Hr as (h & <- & Hin).
  apply xlnx_nonpos, ratio_unit; auto.
Qed.

Lemma high_partition_segment (hist : list Z) (lo hi i : Z) :
  filled_range hist lo hi -> 0 <= i + 1 -> i <= hi ->
  forall h, In h (skipn (Z.to_nat (i + 1)) hist) -> h <> 0 ->
  In h (firstn (Z.to_nat (hi - i)) (skipn (Z.to_nat (i + 1)) hist)).
Proof.
  intros Hr Hi Hle h Hin Hnz.
  rewrite <- (firstn_skipn (Z.to_nat (hi - i))
                (skipn (Z.to_nat (i + 1)) hist)) in Hin.
  apply in_app_or in Hin as [Hin | Hin]; [exact Hin |]. exfalso.
  rewrite skipn_skipn in Hin.
  replace (Z.to_nat (hi - i) + Z.to_nat (i + 1))%nat
    with (Z.to_nat (hi + 1)) in Hin by lia.
  assert (Hf : In h (filter (fun h => negb (h =? 0))
                       (skipn (Z.to_nat (hi + 1)) hist))).
  { apply filter_In. split; [exact Hin |].
    destruct (Z.eqb_spec h 0); [contradiction | reflexivity]. }
  rewrite (high_partition_empty hist lo hi Hr) in Hf. destruct Hf.
Qed.

Lemma kapur_value_nonneg (hist : list Z) (lo hi i : Z) :
  Forall (fun h => 0 <= h) hist -> filled_range hist lo hi ->
  lo <= i <= hi -> (0 <= kapur_value hist hi i)%R.
Proof.
  intros Hnn Hr Hi. pose proof (fr_lo _ _ _ Hr) as Hlo.
  unfold kapur_value.
  assert (Hlow : (Rsum (map (fun h => xlnx (IZR h /
                   IZR (Zsum (firstn (Z.to_nat (i + 1)) hist))))
                   (firstn (Z.to_nat (i + 1)) hist)) <= 0)%R).
  { pose proof (Forall_firstn _ (Z.to_nat (i + 1)) _ Hnn) as Hf.
    destruct (low_partition_filled hist lo hi Hr i (proj1 Hi))
      as (h & Hin & Hnz).
    pose proof (Zsum_ge_elem _ _ Hf Hin) as Hge.
    pose proof (proj1 (Forall_forall _ _) Hf h Hin) as Hh. cbv beta in Hh.
    apply Rsum_xlnx_nonpos; [lia |].
    intros h' Hin'. split.
    - exact (proj1 (Forall_forall _ _) Hf h' Hin').
    - apply Zsum_ge_elem; assumption. }
  assert (Hhigh : (Rsum (map (fun h => xlnx (IZR h /
                    IZR (Zsum (firstn (Z.to_nat (hi + 1)) hist)
                         - Zsum (firstn (Z.to_nat (i + 1)) hist))))
                    (filter (fun h => negb (h =? 0))
                       (skipn (Z.to_nat (i + 1)) hist))) <= 0)%R).
  { destruct (Z.eq_dec i hi) as [-> | Hne].
    - rewrite (high_partition_empty hist lo hi Hr). simpl. lra.
    - apply Rsum_xlnx_nonpos.
      + apply (high_total_pos hist lo hi Hnn Hr). lia.
      + intros h Hin. apply filter_In in Hin as [Hin Hnz].
        assert (Hh : h <> 0)
          by (destruct (Z.eqb_spec h 0); [discriminate | assumption]).
        pose proof (Forall_skipn _ (Z.to_nat (i + 1)) _ Hnn) as Hs.
        split; [exact (proj1 (Forall_forall _ _) Hs h Hin) |].
        replace (Z.to_nat (hi + 1))
          with (Z.to_nat (i + 1) + Z.to_nat (hi - i))%nat by lia.
        rewrite firstn_add, Zsum_app.
        replace (Zsum (firstn (Z.to_nat (i + 1)) hist)
                 + Zsum (firstn (Z.to_nat (hi - i))
                           (skipn (Z.to_nat (i + 1)) hist))
                 - Zsum (firstn (Z.to_nat (i + 1)) hist))
          with (Zsum (firstn (Z.to_nat (hi - i))
                        (skipn (Z.to_nat (i + 1)) hist))) by lia.
        apply Zsum_ge_elem; [apply Forall_firstn; exact Hs |].
        apply (high_partition_segment hist lo hi i Hr); auto; lia. }
  lra.
Qed.

(** The state after the loop has run over [l]: the running maximum and
    the first index that reached it. *)
Lemma kapur_fold_select (hist cdf : list Z) (hi : Z) (v : Z -> R) :
  forall (l : list Z) (st : kapur_state) (m : R),
    (forall i, In i l -> kapur_candidate hist cdf hi i = Some (Fin (v i))) ->
    entropymax st = Fin m ->
    exists M,
      entropymax (fold_left (kapur_step hist cdf hi) l st) = Fin M
      /\ (m <= M)%R
      /\ (forall i, In i l -> (v i <= M)%R)
      /\ ((threshold (fold_left (kapur_step hist cdf hi) l st) = threshold st
           /\ M = m)
          \/ exists l1 l2,
               l = l1 ++ threshold (fold_left (kapur_step hist cdf hi) l st)
                      :: l2
               /\ v (threshold (fold_left (kapur_step hist cdf hi) l st)) = M
               /\ (m < M)%R
               /\ forall i, In i l1 -> (v i < M)%R).
Proof.
  induction l as [| a l IH]; intros st m Hc Hm.
  - exists m. cbn [fold_left]. split; [exact Hm |]. split; [lra |].
    split; [intros i [] |]. left. split; reflexivity.
  - cbn [fold_left].
    pose proof (Hc a (or_introl eq_refl)) as Ha.
    assert (Hc' : forall i, In i l ->
                    kapur_candidate hist cdf hi i = Some (Fin (v i)))
      by (intros i Hi; apply Hc; right; exact Hi).
    destruct (Rlt_dec m (v a)) as [Hlt | Hge].
    + rewrite (kapur_step_up _ _ _ _ _ _ _ Ha Hm Hlt).
      destruct (IH {| entropy := Some (Fin (v a)); entropymax := Fin (v a);
                      threshold := a |} (v a) Hc' eq_refl)
        as (M & HM & Hle & Hall & Hsel).
      exists M. split; [exact HM |]. split; [lra |]. split.
      { intros i [<- | Hi]; [exact Hle | apply Hall, Hi]. }
      right. destruct Hsel as [[Ht ->] | (l1 & l2 & Hl & Hv & HltM & Hl1)].
      * exists [], l. cbn [threshold] in Ht. rewrite Ht. cbn [app].
        split; [reflexivity |]. split; [reflexivity |].
        split; [exact Hlt | intros i []].
      * exists (a :: l1), l2. cbn [app]. rewrite <- Hl.
        split; [reflexivity |]. split; [exact Hv |]. split; [lra |].
        intros i [<- | Hi]; [exact HltM | apply Hl1, Hi].
    + assert (Hle : (v a <= m)%R) by lra.
      rewrite (kapur_step_keep _ _ _ _ _ _ _ Ha Hm Hle).
      destruct (IH {| entropy := Some (Fin (v a)); entropymax := Fin m;
                      threshold := threshold st |} m Hc' eq_refl)
        as (M & HM & HleM & Hall & Hsel).
      exists M. split; [exact HM |]. split; [exact HleM |]. split.
      { intros i [<- | Hi]; [lra | apply Hall, Hi]. }
      destruct Hsel as [[Ht ->] | (l1 & l2 & Hl & Hv & HltM & Hl1)].
      * left. split; [exact Ht | reflexivity].
      * right. exists (a :: l1), l2. cbn [app]. rewrite <- Hl.
        split; [reflexivity |]. split; [exact Hv |]. split; [exact HltM |].
        intros i [<- | Hi]; [lra | apply Hl1, Hi].
Qed.

Lemma range_split_prefix (l1 l2 : list Z) (t : Z) : forall a b,
  Py.range a b = l1 ++ t :: l2 -> l1 = Py.range a t /\ a <= t < b.
Proof.
  induction l1 as [| x l1 IH]; intros a b H.
  - destruct (Z_lt_dec a b) as [Hab | Hab].
    + rewrite range_cons in H by exact Hab. cbn [app] in H.
      injection H as -> _. rewrite range_nil by lia. split; [reflexivity | lia].
    + rewrite range_nil in H by lia. discriminate.
  - destruct (Z_lt_dec a b) as [Hab | Hab].
    + rewrite range_cons in H by exact Hab. cbn [app] in H.
      injection H as <- H. apply IH in H as [-> Ht].
      rewrite (range_cons a t) by lia. split; [reflexivity | lia].
    + rewrite range_nil in H by lia. discriminate.
Qed.

(** The loop of kapur1d over the filled range of a histogram. *)
Lemma kapur_loop_select (hist : list Z) (lo hi : Z) :
  Forall (fun h => 0 <= h) hist -> filled_range hist lo hi ->
  exists M,
    entropymax (kapur_loop hist (cumsum hist) lo hi) = Fin M
    /\ (forall i, lo <= i <= hi -> (0 <= kapur_value hist hi i <= M)%R)
    /\ ((threshold (kapur_loop hist (cumsum hist) lo hi) = 0 /\ M = 0%R)
        \/ (lo <= threshold (kapur_loop hist (cumsum hist) lo hi) <= hi
            /\ kapur_value hist hi
                 (threshold (kapur_loop hist (cumsum hist) lo hi)) = M
            /\ (0 < M)%R
            /\ forall i,
                 lo <= i < threshold (kapur_loop hist (cumsum hist) lo hi) ->
                 (kapur_value hist hi i < M)%R)).
Proof.
  intros Hnn Hr. unfold kapur_loop.
  destruct (kapur_fold_select hist (cumsum hist) hi (kapur_value hist hi)
              (Py.range lo (hi + 1))
              {| entropy := None; entropymax := Fin 0; threshold := 0 |}
              0%R) as (M & HM & Hle & Hall & Hsel).
  { intros i Hi. apply in_range in Hi.
    apply (kapur_candidate_value hist lo hi Hnn Hr). lia. }
  { reflexivity. }
  exists M. split; [exact HM |]. split.
  { intros i Hi. split.
    - apply (kapur_value_nonneg hist lo hi i Hnn Hr Hi).
    - apply Hall, in_range. lia. }
  destruct Hsel as [[Ht HM0] | (l1 & l2 & Hl & Hv & HltM & Hl1)].
  - left. split; [exact Ht | exact HM0].
  - right. apply range_split_prefix in Hl as [-> Ht].
    split; [lia |]. split; [exact Hv |]. split; [exact HltM |].
    intros i Hi. apply Hl1, in_range. exact Hi.
Qed.

Lemma kapur_hist_range (g : array2) (lo hi : Z) :
  first_last (nonzero (kapur_hist g)) = Py.Ok (lo, hi) ->
  Forall (fun h => 0 <= h) (kapur_hist g)
  /\ filled_range (kapur_hist g) lo hi
  /\ 0 <= lo <= hi /\ hi <= 255.
Proof.
  intros Hrng. pose proof (first_last_filled_range _ _ _ Hrng) as Hr.
  split; [apply histogram_nonneg |]. split; [exact Hr |].
  pose proof (fr_lo _ _ _ Hr). pose proof (fr_le _ _ _ Hr).
  pose proof (fr_hi _ _ _ Hr) as Hhi. rewrite kapur_hist_length in Hhi. lia.
Qed.

(** Inside the loop of kapur1d the entropy of every candidate threshold of
    the filled range is a finite number that is not negative (never NaN,
    never masked), and so is the entropy that kapur1d logs; the logged
    ratio is that number divided by 8. *)
Theorem kapur1d_entropy_nonneg (g : array2) (lo hi : Z)
    (Hrng : first_last (nonzero (kapur_hist g)) = Py.Ok (lo, hi)) :
  (forall i, lo <= i <= hi ->
     exists v, kapur_candidate (kapur_hist g) (kapur_cdf g) hi i
               = Some (Fin v) /\ (0 <= v)%R)
  /\ exists out v,
       kapur1d g = Py.Ok out
       /\ kapur_log_entropy out = Some (Fin v)
       /\ kapur_log_ratio out = Some (Fin (v / 8))
       /\ (0 <= v)%R.
Proof.
  destruct (kapur_hist_range g lo hi Hrng) as (Hnn & Hr & Hlo & Hhi).
  assert (Hcand : forall i, lo <= i <= hi ->
            kapur_candidate (kapur_hist g) (kapur_cdf g) hi i
            = Some (Fin (kapur_value (kapur_hist g) hi i))).
  { intros i Hi. unfold kapur_cdf.
    apply (kapur_candidate_value _ lo hi Hnn Hr i Hi). }
  split.
  - intros i Hi. exists (kapur_value (kapur_hist g) hi i).
    split; [apply Hcand, Hi |].
    apply (kapur_value_nonneg _ lo hi i Hnn Hr Hi).
  - rewrite (kapur1d_return g lo hi Hrng).
    eexists. exists (kapur_value (kapur_hist g) hi hi).
    split; [reflexivity |].
    cbn [kapur_log_entropy kapur_log_ratio].
    rewrite kapur_loop_entropy by lia. rewrite Hcand by lia.
    split; [reflexivity |]. split.
    + cbn [option_map]. rewrite fdiv_fin by lra. reflexivity.
    + apply (kapur_value_nonneg _ lo hi hi Hnn Hr). lia.
Qed.

Lemma kapur1d_entropy_nonneg_witness :
  first_last (nonzero (kapur_hist img_ramp)) = Py.Ok (0, 4)
  /\ ((forall i, 0 <= i <= 4 ->
         exists v, kapur_candidate (kapur_hist img_ramp) (kapur_cdf img_ramp)
                     4 i = Some (Fin v) /\ (0 <= v)%R)
      /\ exists out v,
           kapur1d img_ramp = Py.Ok out
           /\ kapur_log_entropy out = Some (Fin v)
           /\ kapur_log_ratio out = Some (Fin (v / 8))
           /\ (0 <= v)%R).
Proof.
  split; [reflexivity |].
  apply (kapur1d_entropy_nonneg img_ramp 0 4). reflexivity.
Defined.



(** Whenever a bin is filled kapur1d returns; the filled range lies in
    0..255, the threshold is 0 or a bin of the filled range, the returned
    image has the rows of the input with every pixel at or above the
    threshold replaced by 0, so no pixel above 254 is left, and every
    negative pixel is kept. *)
Theorem kapur1d_output_bounds (g : array2) (lo hi : Z)
    (Hrng : first_last (nonzero (kapur_hist g)) = Py.Ok (lo, hi)) :
  exists out,
    kapur1d g = Py.Ok out
    /\ 0 <= lo <= hi /\ hi <= 255
    /\ (kapur_log_threshold out = 0 \/ lo <= kapur_log_threshold out <= hi)
    /\ kapur_entimg out
       = map (map (fun p => if p <? kapur_log_threshold out then p else 0)) g
    /\ map (@length Z) (kapur_entimg out) = map (@length Z) g
    /\ Forall (Forall (fun p => p <= 254)) (kapur_entimg out)
    /\ forall p, In p (flatten g) -> p < 0 -> In p (flatten (kapur_entimg out)).
Proof.
  destruct (kapur_hist_range g lo hi Hrng) as (Hnn & Hr & Hlo & Hhi).
  rewrite (kapur1d_return g lo hi Hrng).
  eexists. split; [reflexivity |].
  cbn [kapur_log_threshold kapur_entimg]. unfold kapur_cdf.
  assert (Ht : threshold (kapur_loop (kapur_hist g) (cumsum (kapur_hist g))
                            lo hi) = 0
               \/ lo <= threshold (kapur_loop (kapur_hist g)
                                     (cumsum (kapur_hist g)) lo hi) <= hi).
  { destruct (kapur_loop_select (kapur_hist g) lo hi Hnn Hr)
      as (M & _ & _ & [[Ht _] | (Ht & _)]); [left | right]; exact Ht. }
  generalize dependent (threshold (kapur_loop (kapur_hist g)
                                     (cumsum (kapur_hist g)) lo hi)).
  intros t Ht.
  split; [exact Hlo |]. split; [exact Hhi |]. split; [exact Ht |].
  split; [reflexivity |]. split.
  { rewrite map_map. apply map_ext. intros row. apply length_map. }
  split.
  { apply Forall_forall. intros row Hrow.
    apply in_map_iff in Hrow as (row0 & <- & _).
    apply Forall_forall. intros p Hp.
    apply in_map_iff in Hp as (p0 & <- & _).
    destruct (Z.ltb_spec p0 t); lia. }
  intros p Hp Hneg. unfold flatten in *.
  apply in_concat in Hp as (row & Hrow & Hp). apply in_concat.
  exists (map (fun p => if p <? t then p else 0) row).
  split; [apply in_map; exact Hrow |].
  apply in_map_iff. exists p. split; [| exact Hp].
  destruct (Z.ltb_spec p t); [reflexivity | lia].
Qed.

Lemma kapur1d_output_bounds_witness :
  first_last (nonzero (kapur_hist img_ramp)) = Py.Ok (0, 4)
  /\ exists out,
       kapur1d img_ramp = Py.Ok out
       /\ 0 <= 0 <= 4 /\ 4 <= 255
       /\ (kapur_log_threshold out = 0 \/ 0 <= kapur_log_threshold out <= 4)
       /\ kapur_entimg out
          = map (map (fun p => if p <? kapur_log_threshold out then p else 0))
                img_ramp
       /\ map (@length Z) (kapur_entimg out) = map (@length Z) img_ramp
       /\ Forall (Forall (fun p => p <= 254)) (kapur_entimg out)
       /\ forall p, In p (flatten img_ramp) -> p < 0 ->
                    In p (flatten (kapur_entimg out)).
Proof.
  split; [reflexivity |].
  apply (kapur1d_output_bounds img_ramp 0 4). reflexivity.
Defined.

Lemma Zsum_single (l : list Z) : forall b : nat,
  (forall j, j <> b -> nth j l 0 = 0) -> Zsum l = nth b l 0.
Proof.
  induction l as [| x l IH]; intros b H.
  - destruct b; reflexivity.
  - cbn [Zsum fold_right]. fold (Zsum l). destruct b as [| b].
    + rewrite (IH (length l)).
      * rewrite nth_overflow by lia. cbn [nth]. lia.
      * intros j _. apply (H (S j)). discriminate.
    + rewrite (IH b).
      * pose proof (H 0%nat) as H0. cbn [nth] in H0 |- *.
        rewrite H0 by discriminate. lia.
      * intros j Hj. apply (H (S j)). congruence.
Qed.

Lemma single_bin_value (hist : list Z) (b : Z) :
  Forall (fun h => 0 <= h) hist -> filled_range hist b b ->
  (forall j, 0 <= j < b -> item hist j = 0) ->
  kapur_value hist b b = 0%R.
Proof.
  intros Hnn Hr Hz. pose proof (fr_lo _ _ _ Hr) as Hb.
  pose proof (fr_hi _ _ _ Hr) as Hlen.
  pose proof (fr_lo_filled _ _ _ Hr) as Hfilled.
  unfold kapur_value. rewrite (high_partition_empty hist b b Hr).
  cbn [map Rsum fold_right].
  assert (Hnth : forall j, j <> Z.to_nat b ->
                   nth j (firstn (Z.to_nat (b + 1)) hist) 0 = 0).
  { intros j Hj. rewrite nth_firstn.
    destruct (Nat.ltb_spec j (Z.to_nat (b + 1))); [| reflexivity].
    pose proof (Hz (Z.of_nat j)) as Hj0. unfold item in Hj0.
    rewrite Nat2Z.id in Hj0. apply Hj0. lia. }
  assert (Hsum : Zsum (firstn (Z.to_nat (b + 1)) hist) = item hist b).
  { rewrite (Zsum_single _ (Z.to_nat b) Hnth). rewrite nth_firstn.
    destruct (Nat.ltb_spec (Z.to_nat b) (Z.to_nat (b + 1))); [| lia].
    reflexivity. }
  rewrite Hsum.
  assert (Hpos : 0 < item hist b).
  { assert (0 <= item hist b); [| lia].
    unfold item. apply (proj1 (Forall_forall _ _) Hnn). apply nth_In. lia. }
  assert (Hterms : Forall (fun r => r = 0%R)
            (map (fun h => xlnx (IZR h / IZR (item hist b)))
                 (firstn (Z.to_nat (b + 1)) hist))).
  { apply Forall_forall. intros r Hr'.
    apply in_map_iff in Hr' as (h & <- & Hin).
    destruct (In_nth _ _ 0 Hin) as (j & Hj & Hjh).
    destruct (Nat.eq_dec j (Z.to_nat b)) as [-> | Hne].
    - rewrite nth_firstn in Hjh.
      destruct (Nat.ltb_spec (Z.to_nat b) (Z.to_nat (b + 1))); [| lia].
      fold (item hist b) in Hjh. rewrite <- Hjh.
      unfold Rdiv. rewrite Rinv_r by (apply not_0_IZR; lia). apply xlnx_1.
    - rewrite (Hnth j Hne) in Hjh. rewrite <- Hjh.
      unfold Rdiv. rewrite Rmult_0_l. apply xlnx_0. }
  assert (H0 : Rsum (map (fun h => xlnx (IZR h / IZR (item hist b)))
                       (firstn (Z.to_nat (b + 1)) hist)) = 0%R).
  { induction Hterms as [| r l Hr0 _ IH]; [reflexivity |].
    cbn [Rsum fold_right]. fold (Rsum l). rewrite Hr0, IH. lra. }
  rewrite H0. lra.
Qed.

Lemma uniform_bins (g : array2) (c : Z) (i : Z) :
  constant c g -> 0 <= c <= 256 ->
  In i (nonzero (kapur_hist g)) -> i = (if c =? 256 then 255 else c).
Proof.
  intros Hc Hrange Hin.
  apply kapur_hist_filled in Hin as [_ (p & Hp & Hcase)].
  rewrite (constant_flatten c g Hc) in Hp. apply repeat_spec in Hp. subst p.
  destruct (Z.eqb_spec c 256); lia.
Qed.

(** An image with one grey level only (any value from 0 to 256, at least
    one pixel) has a single filled bin: kapur1d logs the entropy 0, leaves
    the threshold at 0 and returns the all-zero image. *)
Theorem kapur1d_uniform_image (g : array2) (c : Z)
    (Hconst : constant c g) (Hne : flatten g <> []) (Hc : 0 <= c <= 256) :
  kapur1d g =
  Py.Ok {| kapur_log_entropy := Some (Fin 0);
           kapur_log_threshold := 0;
           kapur_log_ratio := Some (Fin 0);
           kapur_entimg := map (map (fun _ => 0)) g |}.
Proof.
  destruct (first_last (nonzero (kapur_hist g))) as [[lo hi] | e] eqn:Hrng.
  2:{ exfalso. apply first_last_raises in Hrng as [Hrng _].
      pose proof (proj1 (kapur_hist_empty g) Hrng) as Hall.
      destruct (flatten g) as [| p r] eqn:E; [contradiction |].
      pose proof (constant_flatten c g Hconst) as Hf. rewrite E in Hf.
      cbn [length repeat] in Hf. injection Hf as -> _.
      specialize (Hall c (or_introl eq_refl)). lia. }
  destruct (kapur_hist_range g lo hi Hrng) as (Hnn & Hr & Hlo & Hhi).
  assert (Hbin : forall i, 0 <= i < 256 -> item (kapur_hist g) i <> 0 ->
                   i = (if c =? 256 then 255 else c)).
  { intros i Hi Hnz. apply (uniform_bins g c i Hconst Hc).
    apply nonzero_spec. rewrite kapur_hist_length. split; [exact Hi | exact Hnz]. }
  assert (Elo : lo = (if c =? 256 then 255 else c)).
  { apply Hbin; [lia | apply (fr_lo_filled _ _ _ Hr)]. }
  assert (Ehi : hi = (if c =? 256 then 255 else c)).
  { apply Hbin; [lia | apply (fr_hi_filled _ _ _ Hr)]. }
  assert (Ehl : hi = lo) by congruence. clear Ehi. subst hi.
  assert (Hval : kapur_value (kapur_hist g) lo lo = 0%R).
  { apply single_bin_value; [exact Hnn | exact Hr |].
    intros j Hj. destruct (Z.eq_dec (item (kapur_hist g) j) 0) as [E | E];
      [exact E |]. exfalso. pose proof (Hbin j ltac:(lia) E). lia. }
  assert (Hcand : kapur_candidate (kapur_hist g) (kapur_cdf g) lo lo
                  = Some (Fin 0)).
  { unfold kapur_cdf.
    rewrite (kapur_candidate_value _ lo lo Hnn Hr lo) by lia.
    rewrite Hval. reflexivity. }
  assert (Hloop : kapur_loop (kapur_hist g) (kapur_cdf g) lo lo =
                  {| entropy := Some (Fin 0); entropymax := Fin 0;
                     threshold := 0 |}).
  { unfold kapur_loop. rewrite range_snoc by lia.
    rewrite range_nil by lia. cbn [app fold_left].
    rewrite (kapur_step_keep _ _ _
               {| entropy := None; entropymax := Fin 0; threshold := 0 |}
               _ 0 0 Hcand eq_refl) by lra.
    reflexivity. }
  rewrite (kapur1d_return g lo lo Hrng). rewrite Hloop.
  cbn [entropy threshold option_map]. rewrite fdiv_fin by lra.
  f_equal. f_equal.
  - f_equal. f_equal. lra.
  - apply map_ext_in. intros row Hrow. apply map_ext_in. intros p Hp.
    pose proof (proj1 (Forall_forall _ _) Hconst row Hrow) as Hrow'.
    pose proof (proj1 (Forall_forall _ _) Hrow' p Hp) as Hp'. subst p.
    destruct (Z.ltb_spec c 0); [lia | reflexivity].
Qed.

Lemma kapur1d_uniform_image_witness :
  constant 7 [[7; 7]; [7; 7]] /\ flatten [[7; 7]; [7; 7]] <> [] /\ 0 <= 7 <= 256
  /\ kapur1d [[7; 7]; [7; 7]] =
     Py.Ok {| kapur_log_entropy := Some (Fin 0);
              kapur_log_threshold := 0;
              kapur_log_ratio := Some (Fin 0);
              kapur_entimg := map (map (fun _ => 0)) [[7; 7]; [7; 7]] |}.
Proof.
  assert (H1 : constant 7 [[7; 7]; [7; 7]]) by (repeat constructor).
  assert (H2 : flatten [[7; 7]; [7; 7]] <> []) by discriminate.
  assert (H3 : 0 <= 7 <= 256) by lia.
  split; [exact H1 |]. split; [exact H2 |]. split; [exact H3 |].
  exact (kapur1d_uniform_image [[7; 7]; [7; 7]] 7 H1 H2 H3).
Defined.

End KapurSelection.

(* ------------------------------------------------------------------ *)
(** * shannon2dr: the size of a window and the range of its entropy *)

Section ShannonWindows.
Import Np Methods.

Lemma slice_window_length {A : Type} (a b : Z) (xs : list A) :
  0 <= a -> a <= b -> b <= Z.of_nat (length xs) ->
  length (Py.slice a b xs) = Z.to_nat (b - a).
Proof.
  intros Ha Hab Hb. rewrite slice_window by assumption.
  rewrite length_firstn, length_skipn. lia.
Qed.

Lemma rect_hd (wn : nat) (g : array2) :
  rect wn g -> g <> [] -> length (hd [] g) = wn.
Proof.
  intros Hg Hne. destruct g as [| row g]; [contradiction |].
  inversion Hg; subst. reflexivity.
Qed.

Lemma region_length (g : array2) (wn : nat) (r i j : Z) :
  rect wn g -> 0 <= r ->
  0 <= i < Z.of_nat (length g) -> 0 <= j < Z.of_nat wn ->
  Z.of_nat (length (region g (Z.of_nat (length g)) (Z.of_nat wn) r i j))
  = (Z.min (Z.of_nat (length g)) (i + r) - Z.max 0 (i - r))
    * (Z.min (Z.of_nat wn) (j + r) - Z.max 0 (j - r)).
Proof.
  intros Hg Hr Hi Hj. unfold region.
  set (a := Z.max 0 (i - r)). set (b := Z.min (Z.of_nat (length g)) (i + r)).
  set (c := Z.max 0 (j - r)). set (d := Z.min (Z.of_nat wn) (j + r)).
  assert (Hrows : rect (Z.to_nat (d - c)) (map (Py.slice c d) (Py.slice a b g))).
  { apply Forall_forall. intros row Hrow.
    apply in_map_iff in Hrow as (row0 & <- & Hrow0).
    apply in_slice in Hrow0.
    pose proof (proj1 (Forall_forall _ _) Hg row0 Hrow0) as Hlen.
    cbv beta in Hlen. apply slice_window_length; subst c d; lia. }
  rewrite (length_flatten_rect _ _ Hrows), length_map.
  rewrite slice_window_length by (subst a b; lia).
  rewrite Nat2Z.inj_mul, !Z2Nat.id by (subst a b c d; lia). reflexivity.
Qed.

Lemma cell_region_length (k : Z) (g : array2) (wn : nat) (i j : Z) :
  rect wn g -> 0 <= kernrad k ->
  0 <= i < Z.of_nat (length g) -> 0 <= j < Z.of_nat wn ->
  Z.of_nat (length (cell_region k g i j))
  = (Z.min (Z.of_nat (length g)) (i + kernrad k) - Z.max 0 (i - kernrad k))
    * (Z.min (Z.of_nat wn) (j + kernrad k) - Z.max 0 (j - kernrad k)).
Proof.
  intros Hg Hr Hi Hj. unfold cell_region, shape. cbn [fst snd].
  rewrite (rect_hd wn g Hg) by (intros ->; simpl in Hi; lia).
  apply region_length; assumption.
Qed.

Lemma cell_region_size_bounds (k k' : Z) (g : array2) (wn : nat) (i j : Z) :
  Main.argtypekernelsize k = Py.Ok k' -> rect wn g ->
  0 <= i < Z.of_nat (length g) -> 0 <= j < Z.of_nat wn ->
  1 <= Z.of_nat (length (cell_region k g i j)) <= (k - 1) * (k - 1).
Proof.
  intros Hk Hg Hi Hj. destruct (kernrad_valid k k' Hk) as (_ & Hkr & Hr).
  rewrite (cell_region_length k g wn i j Hg) by (assumption || lia).
  set (r := kernrad k) in *.
  assert (1 <= Z.min (Z.of_nat (length g)) (i + r) - Z.max 0 (i - r) <= 2 * r)
    by lia.
  assert (1 <= Z.min (Z.of_nat wn) (j + r) - Z.max 0 (j - r) <= 2 * r)
    by lia.
  replace (k - 1) with (2 * r) by lia. nia.
Qed.

(** The window that shannon2dr reads for the cell [(i, j)] with a kernel
    size [k] the validator accepts: rows [i - r .. i + r - 1] and columns
    [j - r .. j + r - 1] clipped to the image, [r = (k - 1) / 2].  It
    holds between 1 and [(k - 1) * (k - 1)] pixels, and exactly
    [(k - 1) * (k - 1)] away from the border. *)
Theorem shannon2dr_window_size (k k' : Z) (g : array2) (wn : nat) (i j : Z)
    (Hk : Main.argtypekernelsize k = Py.Ok k') (Hg : rect wn g)
    (Hi : 0 <= i < Z.of_nat (length g)) (Hj : 0 <= j < Z.of_nat wn) :
  Z.of_nat (length (cell_region k g i j))
  = (Z.min (Z.of_nat (length g)) (i + kernrad k) - Z.max 0 (i - kernrad k))
    * (Z.min (Z.of_nat wn) (j + kernrad k) - Z.max 0 (j - kernrad k))
  /\ 1 <= Z.of_nat (length (cell_region k g i j)) <= (k - 1) * (k - 1)
  /\ (kernrad k <= i <= Z.of_nat (length g) - kernrad k ->
      kernrad k <= j <= Z.of_nat wn - kernrad k ->
      Z.of_nat (length (cell_region k g i j)) = (k - 1) * (k - 1)).
Proof.
  destruct (kernrad_valid k k' Hk) as (_ & Hkr & Hr).
  split; [apply cell_region_length; assumption || lia |].
  split; [apply (cell_region_size_bounds k k' g wn i j); assumption |].
  intros Hi' Hj'.
  rewrite (cell_region_length k g wn i j Hg) by (assumption || lia).
  set (r := kernrad k) in *.
  rewrite (Z.min_r (Z.of_nat (length g))), (Z.max_r 0 (i - r)) by lia.
  rewrite (Z.min_r (Z.of_nat wn)), (Z.max_r 0 (j - r)) by lia.
  replace (k - 1) with (2 * r) by lia. ring.
Qed.

Lemma shannon2dr_window_size_witness :
  Main.argtypekernelsize 3 = Py.Ok 3 /\ rect 3 img3
  /\ 0 <= 1 < Z.of_nat (length img3) /\ 0 <= 1 < Z.of_nat 3
  /\ Z.of_nat (length (cell_region 3 img3 1 1)) = (3 - 1) * (3 - 1).
Proof.
  assert (Hk : Main.argtypekernelsize 3 = Py.Ok 3) by reflexivity.
  assert (Hg : rect 3 img3) by (repeat constructor).
  assert (Hi : 0 <= 1 < Z.of_nat (length img3)) by (simpl; lia).
  assert (Hj : 0 <= 1 < Z.of_nat 3) by lia.
  split; [exact Hk |]. split; [exact Hg |]. split; [exact Hi |].
  split; [exact Hj |].
  apply (proj2 (proj2 (shannon2dr_window_size 3 3 img3 3 1 1 Hk Hg Hi Hj)));
    vm_compute; split; discriminate.
Defined.

Lemma ln_le_sub1 (x : R) : (0 < x)%R -> (ln x <= x - 1)%R.
Proof.
  intros Hx. pose proof (exp_ineq1_le (x - 1)) as H.
  replace (1 + (x - 1))%R with x in H by ring.
  destruct H as [H | H].
  - left. rewrite <- (ln_exp (x - 1)). apply ln_increasing; assumption.
  - right. assert (E : ln x = ln (exp (x - 1))) by (f_equal; exact H).
    rewrite ln_exp in E. exact E.
Qed.

Lemma ln_monotone (x y : R) : (0 < x)%R -> (x <= y)%R -> (ln x <= ln y)%R.
Proof.
  intros Hx [H | ->]; [left; apply ln_increasing; assumption | lra].
Qed.

Lemma Rlog2_monotone (x y : R) :
  (0 < x)%R -> (x <= y)%R -> (Rlog2 x <= Rlog2 y)%R.
Proof.
  intros Hx Hxy. unfold Rlog2. pose proof ln2_pos.
  apply Rmult_le_compat_r; [left; apply Rinv_0_lt_compat; assumption |].
  apply ln_monotone; assumption.
Qed.

Lemma Rlog2_square (x : R) :
  (0 < x)%R -> Rlog2 (x * x) = (2 * Rlog2 x)%R.
Proof.
  intros Hx. unfold Rlog2. rewrite ln_mult by assumption.
  pose proof ln2_pos. field. lra.
Qed.

Lemma Rlog2_pow2 (n : nat) : Rlog2 (2 ^ n) = INR n.
Proof.
  unfold Rlog2. rewrite ln_pow by lra. pose proof ln2_pos. field. lra.
Qed.

(** One term [p * log2 (1 / p)] of a window's entropy. *)
Lemma entropy_term_nonneg (p : R) :
  (0 < p <= 1)%R -> (0 <= p * Rlog2 (1 / p))%R.
Proof.
  intros [Hp Hp1]. apply Rmult_le_pos; [lra |].
  rewrite <- Rlog2_1. apply Rlog2_monotone; [lra |].
  apply (Rmult_le_reg_r p); [exact Hp |].
  unfold Rdiv. rewrite Rmult_assoc, Rinv_l by lra. lra.
Qed.

Lemma entropy_term_le (p d : R) :
  (0 < p)%R -> (0 < d)%R ->
  (p * Rlog2 (1 / p) <= (Rlog2 d - 1 / ln 2) * p + 1 / (d * ln 2))%R.
Proof.
  intros Hp Hd. pose proof ln2_pos as H2.
  assert (Hpd : (0 < 1 / (p * d))%R).
  { unfold Rdiv. rewrite Rmult_1_l. apply Rinv_0_lt_compat.
    apply Rmult_lt_0_compat; assumption. }
  pose proof (ln_le_sub1 _ Hpd) as Hln.
  unfold Rdiv in Hln. rewrite Rmult_1_l in Hln.
  rewrite ln_Rinv in Hln by (apply Rmult_lt_0_compat; assumption).
  rewrite ln_mult in Hln by assumption.
  assert (E : ln (1 / p) = (- ln p)%R)
    by (unfold Rdiv; rewrite Rmult_1_l; apply ln_Rinv; assumption).
  unfold Rlog2. rewrite E.
  assert (Hmul : (p * (- (ln p + ln d)) <= p * (/ (p * d) - 1))%R)
    by (apply Rmult_le_compat_l; lra).
  replace (p * (/ (p * d) - 1))%R with (/ d - p)%R in Hmul
    by (field; lra).
  assert (Hdiv : ((p * (- (ln p + ln d))) / ln 2 <= (/ d - p) / ln 2)%R).
  { apply Rmult_le_compat_r; [left; apply Rinv_0_lt_compat; exact H2 |].
    exact Hmul. }
  replace (p * (- ln p / ln 2))%R
    with ((p * (- (ln p + ln d))) / ln 2 + p * (ln d / ln 2))%R
    by (field; lra).
  replace ((ln d / ln 2 - 1 / ln 2) * p + 1 / (d * ln 2))%R
    with ((/ d - p) / ln 2 + p * (ln d / ln 2))%R by (field; lra).
  lra.
Qed.

Lemma Rsum_le (A : Type) (f g : A -> R) (l : list A) :
  (forall x, In x l -> (f x <= g x)%R) ->
  (Rsum (map f l) <= Rsum (map g l))%R.
Proof.
  induction l as [| x l IH]; intros H; [simpl; lra |].
  cbn [map Rsum fold_right]. fold (Rsum (map f l)). fold (Rsum (map g l)).
  pose proof (H x (or_introl eq_refl)).
  assert ((Rsum (map f l) <= Rsum (map g l))%R)
    by (apply IH; intros y Hy; apply H; right; exact Hy).
  lra.
Qed.

Lemma Rsum_affine (A : Type) (a b : R) (f : A -> R) (l : list A) :
  Rsum (map (fun x => (a * f x + b)%R) l)
  = (a * Rsum (map f l) + b * INR (length l))%R.
Proof.
  induction l as [| x l IH]; [simpl; ring |].
  cbn [map Rsum fold_right]. fold (Rsum (map f l)).
  fold (Rsum (map (fun x => a * f x + b)%R l)). rewrite IH.
  change (length (x :: l)) with (S (length l)). rewrite S_INR. ring.
Qed.

Lemma Rsum_map_IZR (A : Type) (f : A -> Z) (c : R) (l : list A) :
  Rsum (map (fun x => (IZR (f x) / c)%R) l) = (IZR (Zsum (map f l)) / c)%R.
Proof.
  induction l as [| x l IH]; [simpl; unfold Rdiv; ring |].
  cbn [map Rsum Zsum fold_right].
  fold (Rsum (map (fun x => IZR (f x) / c)%R l)). fold (Zsum (map f l)).
  rewrite IH, plus_IZR. unfold Rdiv. ring.
Qed.

Lemma Zsum_indicator_in (L : list Z) (x : Z) :
  NoDup L -> In x L ->
  Zsum (map (fun v => if v =? x then 1 else 0) L) = 1.
Proof.
  induction 1 as [| y L Hy Hnd IH]; intros Hin; [destruct Hin |].
  cbn [map Zsum fold_right].
  fold (Zsum (map (fun v => if v =? x then 1 else 0) L)).
  destruct Hin as [-> | Hin].
  - rewrite Z.eqb_refl.
    rewrite (Zsum_map_ext _ (fun _ => 0)), Zsum_map_zero; [lia |].
    intros v Hv. destruct (Z.eqb_spec v x); [subst; contradiction | reflexivity].
  - rewrite IH by exact Hin.
    destruct (Z.eqb_spec y x); [subst; contradiction | lia].
Qed.

(** The counts of the distinct values of a list add up to its length. *)
Lemma count_total (L : list Z) : forall l : list Z,
  NoDup L -> incl l L ->
  Zsum (map (fun v => count (Z.eqb v) l) L) = Z.of_nat (length l).
Proof.
  induction l as [| x l IH]; intros Hnd Hincl.
  - cbn [length]. rewrite (Zsum_map_ext _ (fun _ => 0)), Zsum_map_zero;
      [reflexivity | intros v _; reflexivity].
  - rewrite (Zsum_map_ext _ (fun v => (if v =? x then 1 else 0)
                                      + count (Z.eqb v) l))
      by (intros v _; apply count_cons).
    rewrite Zsum_map_add, Zsum_indicator_in;
      [| exact Hnd | apply Hincl; left; reflexivity].
    rewrite IH; [| exact Hnd | intros v Hv; apply Hincl; right; exact Hv].
    cbn [length]. lia.
Qed.

Lemma window_entropy_R_bounds (region : list Z) :
  region <> [] ->
  (0 <= window_entropy_R region
   <= Rlog2 (INR (length (nodup Z.eq_dec region))))%R
  /\ (1 <= length (nodup Z.eq_dec region) <= length region)%nat.
Proof.
  intros Hne. unfold window_entropy_R. cbv zeta.
  set (L := nodup Z.eq_dec region). set (n := Z.of_nat (length region)).
  assert (Hn : 0 < n) by (destruct region; [contradiction | subst n; simpl; lia]).
  assert (HnR : (0 < IZR n)%R) by (apply IZR_lt; exact Hn).
  assert (HL : (1 <= length L <= length region)%nat).
  { split.
    - destruct region as [| x r]; [contradiction |].
      assert (Hx : In x L) by (apply nodup_In; left; reflexivity).
      destruct L; [destruct Hx | simpl; lia].
    - apply NoDup_incl_length; [apply NoDup_nodup |].
      intros v Hv. apply nodup_In in Hv. exact Hv. }
  assert (Hd : (0 < INR (length L))%R) by (apply lt_0_INR; lia).
  assert (Hp : forall v, In v L ->
            (0 < IZR (count (Z.eqb v) region) / IZR n <= 1)%R).
  { intros v Hv. apply nodup_In in Hv.
    pose proof (count_member_pos v region Hv) as Hc.
    pose proof (count_le_length (Z.eqb v) region) as Hle. fold n in Hle.
    split.
    - apply Rmult_lt_0_compat; [apply IZR_lt; exact Hc |].
      apply Rinv_0_lt_compat; exact HnR.
    - apply (Rmult_le_reg_r (IZR n)); [exact HnR |].
      unfold Rdiv. rewrite Rmult_assoc, Rinv_l, Rmult_1_r, Rmult_1_l by lra.
      apply IZR_le; exact Hle. }
  split; [| exact HL]. split.
  - apply Rsum_nonneg. apply Forall_forall. intros t Ht.
    apply in_map_iff in Ht as (v & <- & Hv).
    apply entropy_term_nonneg, Hp, Hv.
  - eapply Rle_trans.
    + apply (Rsum_le Z _
               (fun v => (Rlog2 (INR (length L)) - 1 / ln 2)
                         * (IZR (count (Z.eqb v) region) / IZR n)
                         + 1 / (INR (length L) * ln 2))%R).
      intros v Hv. apply entropy_term_le; [apply Hp, Hv | exact Hd].
    + rewrite Rsum_affine, Rsum_map_IZR.
      rewrite (count_total L region (NoDup_nodup _ _))
        by (intros v Hv; apply nodup_In; exact Hv).
      fold n. pose proof ln2_pos.
      right. field. split; lra.
Qed.

Lemma Rtrunc_nonneg (x : R) :
  (0 <= x)%R -> 0 <= Rtrunc x /\ (IZR (Rtrunc x) <= x)%R.
Proof.
  intros Hx. unfold Rtrunc. destruct (Rle_dec 0 x) as [_ | Hn]; [| lra].
  destruct (base_Int_part x) as [Hle Hgt]. split; [| exact Hle].
  assert (H : (-1 < IZR (Int_part x))%R) by lra.
  apply lt_IZR in H. lia.
Qed.

Lemma window_entropy_range (k k' : Z) (g : array2) (wn : nat) (i j : Z) :
  Main.argtypekernelsize k = Py.Ok k' -> rect wn g ->
  0 <= i < Z.of_nat (length g) -> 0 <= j < Z.of_nat wn ->
  (0 <= window_entropy_R (cell_region k g i j)
   <= Rlog2 (INR (length (nodup Z.eq_dec (cell_region k g i j)))))%R
  /\ (Rlog2 (INR (length (nodup Z.eq_dec (cell_region k g i j))))
      <= Rlog2 (INR (length (cell_region k g i j))))%R
  /\ (Rlog2 (INR (length (cell_region k g i j)))
      <= 2 * Rlog2 (IZR (k - 1)))%R.
Proof.
  intros Hk Hg Hi Hj.
  pose proof (cell_region_size_bounds k k' g wn i j Hk Hg Hi Hj) as Hsize.
  destruct (kernrad_valid k k' Hk) as (_ & Hkr & Hr).
  destruct (window_entropy_R_bounds (cell_region k g i j)) as [Hb Hd].
  { intros E. rewrite E in Hsize. simpl in Hsize. lia. }
  split; [exact Hb |]. split.
  - apply Rlog2_monotone; [apply lt_0_INR; lia | apply le_INR; lia].
  - rewrite <- Rlog2_square by (apply IZR_lt; lia).
    rewrite <- mult_IZR. rewrite INR_IZR_INZ.
    apply Rlog2_monotone; [apply IZR_lt; lia | apply IZR_le; lia].
Qed.

(** Every window entropy of shannon2dr is a finite number between 0 and
    the base-2 logarithm of the number of distinct values of the window,
    hence at most the logarithm of the window's size and at most
    [2 * log2 (k - 1)]; so are the entries of [entropies], and the cells
    of the returned map (truncated to integers) lie in the same range. *)
Theorem shannon2dr_entropy_range (k k' : Z) (g : array2) (wn : nat)
    (Hk : Main.argtypekernelsize k = Py.Ok k') (Hg : rect wn g) :
  (forall i j, (i < length g)%nat -> (j < wn)%nat ->
     exists x,
       window_entropy (cell_region k g (Z.of_nat i) (Z.of_nat j)) = Fin x
       /\ (0 <= x)%R
       /\ (x <= Rlog2 (INR (length (nodup Z.eq_dec
                              (cell_region k g (Z.of_nat i) (Z.of_nat j))))))%R
       /\ (x <= Rlog2 (INR (length
                              (cell_region k g (Z.of_nat i) (Z.of_nat j)))))%R
       /\ (x <= 2 * Rlog2 (IZR (k - 1)))%R)
  /\ Forall (fun e => exists x,
               e = Fin x /\ (0 <= x <= 2 * Rlog2 (IZR (k - 1)))%R)
            (entropies (shannon2dr k g))
  /\ (k <= 2 ^ 32 ->
      forall i j, (i < length g)%nat -> (j < wn)%nat ->
        0 <= at2 (entimg (shannon2dr k g)) i j <= 64
        /\ (IZR (at2 (entimg (shannon2dr k g)) i j)
            <= 2 * Rlog2 (IZR (k - 1)))%R).
Proof.
  assert (Hcell : forall i j, (i < length g)%nat -> (j < wn)%nat ->
            (0 <= window_entropy_R (cell_region k g (Z.of_nat i) (Z.of_nat j))
             <= Rlog2 (INR (length (nodup Z.eq_dec
                              (cell_region k g (Z.of_nat i) (Z.of_nat j))))))%R
            /\ (Rlog2 (INR (length (nodup Z.eq_dec
                              (cell_region k g (Z.of_nat i) (Z.of_nat j)))))
                <= Rlog2 (INR (length
                              (cell_region k g (Z.of_nat i) (Z.of_nat j)))))%R
            /\ (Rlog2 (INR (length
                              (cell_region k g (Z.of_nat i) (Z.of_nat j))))
                <= 2 * Rlog2 (IZR (k - 1)))%R).
  { intros i j Hi Hj. apply (window_entropy_range k k' g wn); auto; lia. }
  split; [| split].
  - intros i j Hi Hj. destruct (Hcell i j Hi Hj) as ([H0 H1] & H2 & H3).
    exists (window_entropy_R (cell_region k g (Z.of_nat i) (Z.of_nat j))).
    split; [apply window_entropy_fin |]. repeat split; lra.
  - rewrite (shannon2dr_entropies k g wn Hg). apply Forall_forall.
    intros e He. apply in_concat in He as (row & Hrow & He).
    apply in_map_iff in Hrow as (i & <- & Hi).
    apply in_map_iff in He as (j & <- & Hj).
    apply in_range in Hi. apply in_range in Hj.
    destruct (Hcell (Z.to_nat i) (Z.to_nat j)) as ([H0 H1] & H2 & H3);
      [lia | lia |].
    rewrite !Z2Nat.id in * by lia.
    eexists. split; [reflexivity |]. lra.
  - intros Hk32 i j Hi Hj. rewrite (shannon2dr_at k g wn i j Hg Hi Hj).
    destruct (Hcell i j Hi Hj) as ([H0 H1] & H2 & H3).
    destruct (Rtrunc_nonneg _ H0) as [Ht0 Ht1].
    destruct (kernrad_valid k k' Hk) as (_ & Hkr & Hr).
    assert (H64 : (2 * Rlog2 (IZR (k - 1)) <= 64)%R).
    { assert (Rlog2 (IZR (k - 1)) <= Rlog2 (2 ^ 32))%R.
      { apply Rlog2_monotone; [apply IZR_lt; lia |].
        replace (2 ^ 32)%R with (IZR (2 ^ 32)) by (simpl; lra).
        apply IZR_le. lia. }
      rewrite Rlog2_pow2 in H. simpl in H. lra. }
    assert (Hle : Rtrunc (window_entropy_R
                    (cell_region k g (Z.of_nat i) (Z.of_nat j))) <= 64).
    { apply le_IZR. lra. }
    rewrite wrap64_small by lia. split; [lia | lra].
Qed.

Lemma shannon2dr_entropy_range_witness :
  Main.argtypekernelsize 3 = Py.Ok 3 /\ rect 3 img3
  /\ Forall (fun e => exists x,
               e = Fin x /\ (0 <= x <= 2 * Rlog2 (IZR (3 - 1)))%R)
            (entropies (shannon2dr 3 img3)).
Proof.
  assert (Hk : Main.argtypekernelsize 3 = Py.Ok 3) by reflexivity.
  assert (Hg : rect 3 img3) by (repeat constructor).
  split; [exact Hk |]. split; [exact Hg |].
  exact (proj1 (proj2 (shannon2dr_entropy_range 3 3 img3 3 Hk Hg))).
Defined.

Lemma slice_map {A B : Type} (f : A -> B) (a b : Z) (l : list A) :
  Py.slice a b (map f l) = map f (Py.slice a b l).
Proof.
  unfold Py.slice. rewrite length_map, skipn_map, firstn_map. reflexivity.
Qed.

Lemma region_map (f : Z -> Z) (g : array2) (h w r i j : Z) :
  region (map (map f) g) h w r i j = map f (region g h w r i j).
Proof.
  unfold region, flatten. rewrite slice_map, map_map.
  rewrite concat_map, map_map. f_equal. apply map_ext.
  intros row. apply slice_map.
Qed.

Lemma shape_map (f : Z -> Z) (g : array2) : shape (map (map f) g) = shape g.
Proof.
  unfold shape. rewrite length_map. f_equal.
  destruct g as [| row g]; [reflexivity |]. cbn [map hd].
  rewrite length_map. reflexivity.
Qed.

Lemma region_in_image (g : array2) (h w r i j x : Z) :
  In x (region g h w r i j) -> In x (flatten g).
Proof.
  unfold region, flatten. intros Hx.
  apply in_concat in Hx as (row & Hrow & Hx).
  apply in_map_iff in Hrow as (row0 & <- & Hrow0).
  apply in_slice in Hx. apply in_slice in Hrow0.
  apply in_concat. exists row0. split; assumption.
Qed.

Section Recoding.
Variable f : Z -> Z.
Variable l : list Z.
Hypothesis f_inj : forall x y, In x l -> In y l -> f x = f y -> x = y.

Lemma nodup_map_inj (xs : list Z) :
  incl xs l -> nodup Z.eq_dec (map f xs) = map f (nodup Z.eq_dec xs).
Proof.
  induction xs as [| x xs IH]; intros Hincl; [reflexivity |].
  assert (Hxs : incl xs l) by (intros y Hy; apply Hincl; right; exact Hy).
  cbn [map nodup].
  destruct (in_dec Z.eq_dec (f x) (map f xs)) as [Hin | Hin];
    destruct (in_dec Z.eq_dec x xs) as [Hin' | Hin'].
  - apply IH, Hxs.
  - exfalso. apply in_map_iff in Hin as (y & Hy & Hyin).
    apply f_inj in Hy; [subst; contradiction | apply Hxs, Hyin |].
    apply Hincl. left. reflexivity.
  - exfalso. apply Hin, in_map, Hin'.
  - cbn [map]. f_equal. apply IH, Hxs.
Qed.

Lemma count_map_inj (xs : list Z) (v : Z) :
  incl xs l -> In v l ->
  count (Z.eqb (f v)) (map f xs) = count (Z.eqb v) xs.
Proof.
  intros Hincl Hv. rewrite count_map. apply count_ext_in.
  intros x Hx. destruct (Z.eqb_spec (f v) (f x)) as [E | E];
    destruct (Z.eqb_spec v x) as [E' | E']; try reflexivity.
  - exfalso. apply E'. apply f_inj; [exact Hv | apply Hincl, Hx | exact E].
  - exfalso. apply E. f_equal. exact E'.
Qed.

Lemma window_entropy_map_inj (xs : list Z) :
  incl xs l -> window_entropy (map f xs) = window_entropy xs.
Proof.
  intros Hincl. unfold window_entropy, probs.
  rewrite length_map, (nodup_map_inj xs Hincl), !map_map.
  f_equal. apply map_ext_in. intros v Hv. apply nodup_In in Hv.
  rewrite (count_map_inj xs v Hincl) by (apply Hincl, Hv). reflexivity.
Qed.

End Recoding.

(** shannon2dr depends on the pattern of equal pixels only: renaming the
    grey values by any function that is injective on the pixels of the
    image changes neither the list of entropies nor the entropy map. *)
Theorem shannon2dr_recoding_invariant (k : Z) (g : array2) (wn : nat)
    (f : Z -> Z) (Hg : rect wn g)
    (Hf : forall x y, In x (flatten g) -> In y (flatten g) ->
                      f x = f y -> x = y) :
  shannon2dr k (map (map f) g) = shannon2dr k g.
Proof.
  assert (Hg' : rect wn (map (map f) g)).
  { apply Forall_forall. intros row Hrow.
    apply in_map_iff in Hrow as (row0 & <- & Hrow0).
    rewrite length_map. exact (proj1 (Forall_forall _ _) Hg row0 Hrow0). }
  rewrite (shannon2dr_closed_form k _ wn Hg').
  rewrite (shannon2dr_closed_form k g wn Hg).
  rewrite shape_map.
  assert (Hcell : forall i j,
            window_entropy (cell_region k (map (map f) g) i j)
            = window_entropy (cell_region k g i j)).
  { intros i j. unfold cell_region. rewrite shape_map, region_map.
    apply (window_entropy_map_inj f (flatten g) Hf).
    intros x Hx. apply region_in_image in Hx. exact Hx. }
  f_equal.
  - f_equal. apply map_ext. intros i. apply map_ext. intros j. apply Hcell.
  - apply map_ext. intros i. apply map_ext. intros j. rewrite Hcell.
    reflexivity.
Qed.

Lemma shannon2dr_recoding_invariant_witness :
  rect 3 img3
  /\ (forall x y, In x (flatten img3) -> In y (flatten img3) ->
                  2 * x + 5 = 2 * y + 5 -> x = y)
  /\ shannon2dr 3 (map (map (fun p => 2 * p + 5)) img3) = shannon2dr 3 img3.
Proof.
  assert (Hg : rect 3 img3) by (repeat constructor).
  assert (Hf : forall x y, In x (flatten img3) -> In y (flatten img3) ->
                           2 * x + 5 = 2 * y + 5 -> x = y)
    by (intros x y _ _ H; lia).
  split; [exact Hg |]. split; [exact Hf |].
  exact (shannon2dr_recoding_invariant 3 img3 3 (fun p => 2 * p + 5) Hg Hf).
Defined.

End ShannonWindows.

(* ------------------------------------------------------------------ *)
(** * shannon1d and scipy1d: the value of the entropy *)

Section FlatValues.
Import Np Methods.

Lemma fold_add_Zsum (xs : list Z) : forall acc,
  fold_left Z.add xs acc = acc + Zsum xs.
Proof.
  induction xs as [| x xs IH]; intros acc; cbn [fold_left Zsum fold_right].
  - lia.
  - rewrite IH. fold (Zsum xs). lia.
Qed.

Lemma sum_Zsum (xs : list Z) :
  - 2 ^ 63 <= Zsum xs < 2 ^ 63 -> sum xs = Zsum xs.
Proof.
  intros H. unfold sum. rewrite fold_add_Zsum, Z.add_0_l.
  apply wrap64_small, H.
Qed.

Lemma nonnegative_flatten (g : array2) :
  nonnegative g -> Forall (fun p => 0 <= p) (flatten g).
Proof.
  intros Hg. apply Forall_forall. intros p Hp.
  apply in_concat in Hp as (row & Hrow & Hp).
  exact (proj1 (Forall_forall _ _)
           (proj1 (Forall_forall _ _) Hg row Hrow) p Hp).
Qed.

Lemma Rsum_scal (A : Type) (a : R) (f : A -> R) (l : list A) :
  Rsum (map (fun x => (a * f x)%R) l) = (a * Rsum (map f l))%R.
Proof.
  induction l as [| x l IH]; cbn [map Rsum fold_right]; [ring |].
  fold (Rsum (map (fun x => (a * f x)%R) l)). fold (Rsum (map f l)).
  rewrite IH. ring.
Qed.

Lemma Rsum_ext_in (A : Type) (f g : A -> R) (l : list A) :
  (forall x, In x l -> f x = g x) -> Rsum (map f l) = Rsum (map g l).
Proof. intros H. f_equal. apply map_ext_in, H. Qed.

Lemma ln_8 : ln 8 = (3 * ln 2)%R.
Proof.
  replace 8%R with (2 * (2 * 2))%R by lra.
  rewrite !ln_mult by lra. ring.
Qed.

Section Masses.
Variable xs : list Z.
Hypothesis xs_nonneg : Forall (fun p => 0 <= p) xs.
Hypothesis xs_total : 0 < Zsum xs.

Lemma mass_share (p : Z) :
  In p xs -> (0 <= IZR p / IZR (Zsum xs) <= 1)%R.
Proof.
  intros Hp. apply ratio_unit; [| exact xs_total]. split.
  - exact (proj1 (Forall_forall _ _) xs_nonneg p Hp).
  - apply Zsum_ge_elem; assumption.
Qed.

Lemma shares_total :
  Rsum (map (fun p => (IZR p / IZR (Zsum xs))%R) xs) = 1%R.
Proof.
  rewrite (Rsum_map_IZR Z (fun p => p) (IZR (Zsum xs)) xs), map_id.
  unfold Rdiv. apply Rinv_r. apply not_0_IZR. lia.
Qed.

Lemma flat_entropy_nonneg : (0 <= flat_entropy xs)%R.
Proof.
  unfold flat_entropy. pose proof ln2_pos as H2.
  assert (H : (Rsum (map (fun p => xlnx (IZR p / IZR (Zsum xs))) xs) <= 0)%R).
  { apply Rsum_nonpos, Forall_forall. intros t Ht.
    apply in_map_iff in Ht as (p & <- & Hp).
    apply xlnx_nonpos, mass_share, Hp. }
  apply Rmult_le_pos; [lra |]. left. apply Rinv_0_lt_compat, H2.
Qed.

Lemma flat_entropy_le : (flat_entropy xs <= Rlog2 (INR (length xs)))%R.
Proof.
  pose proof ln2_pos as H2.
  assert (Hn : (0 < INR (length xs))%R).
  { apply lt_0_INR. destruct xs; [simpl in xs_total; lia | simpl; lia]. }
  unfold flat_entropy.
  replace (- Rsum (map (fun p => xlnx (IZR p / IZR (Zsum xs))) xs) / ln 2)%R
    with (Rsum (map (fun p => (- / ln 2) * xlnx (IZR p / IZR (Zsum xs)))%R xs))
    by (rewrite Rsum_scal; field; lra).
  eapply Rle_trans.
  - apply (Rsum_le Z _
             (fun p => (Rlog2 (INR (length xs)) - 1 / ln 2)
                       * (IZR p / IZR (Zsum xs))
                       + 1 / (INR (length xs) * ln 2))%R).
    intros p Hp. destruct (mass_share p Hp) as [[Hq | Hq] _].
    + pose proof (entropy_term_le _ _ Hq Hn) as Ht.
      assert (E : ln (1 / (IZR p / IZR (Zsum xs)))
                  = (- ln (IZR p / IZR (Zsum xs)))%R)
        by (unfold Rdiv at 1; rewrite Rmult_1_l; apply ln_Rinv; exact Hq).
      unfold Rlog2 at 1 in Ht. rewrite E in Ht. unfold xlnx.
      set (q := (IZR p / IZR (Zsum xs))%R) in *.
      replace (- / ln 2 * (q * ln q))%R with (q * (- ln q / ln 2))%R
        by (field; lra).
      exact Ht.
    + rewrite <- Hq, xlnx_0, Rmult_0_r, Rmult_0_r, Rplus_0_l.
      left. unfold Rdiv. rewrite Rmult_1_l. apply Rinv_0_lt_compat.
      apply Rmult_lt_0_compat; assumption.
  - rewrite Rsum_affine, shares_total. right. field. split; lra.
Qed.

Lemma some_pixel_positive : exists p, In p xs /\ 0 < p.
Proof. apply Zsum_pos_elem; assumption. Qed.

Lemma plog2p_share (p : Z) :
  In p xs ->
  plog2p (fdiv (of_int p) (of_int (Zsum xs)))
  = if p =? 0 then None
    else Some (IZR p / IZR (Zsum xs)
               * (ln (IZR p / IZR (Zsum xs)) / ln 2))%R.
Proof.
  intros Hp. unfold of_int.
  rewrite fdiv_fin by (apply not_0_IZR; lia). unfold plog2p.
  pose proof (proj1 (Forall_forall _ _) xs_nonneg p Hp) as Hp0.
  cbv beta in Hp0.
  destruct (Z.eqb_spec p 0) as [-> | Hne].
  - destruct (Rlt_dec 0 (0 / IZR (Zsum xs))) as [H | H]; [| reflexivity].
    unfold Rdiv in H. rewrite Rmult_0_l in H. lra.
  - destruct (Rlt_dec 0 (IZR p / IZR (Zsum xs))) as [H | H]; [reflexivity |].
    exfalso. apply H. apply div_IZR_pos; lia.
Qed.

Lemma shannon1d_terms_value :
  ma_sum (map (fun p =>
                 ma_mul (fdiv (of_int p) (of_int (Zsum xs)))
                        (ma_neg (ma_log2
                           (fdiv (of_int p) (of_int (Zsum xs))))))
              xs)
  = Some (Fin (flat_entropy xs)).
Proof.
  rewrite (map_ext _ (fun p => option_map (fun t => Fin (- t))
                         (plog2p (fdiv (of_int p) (of_int (Zsum xs))))))
    by (intros p; apply term_methods).
  rewrite <- (map_map (fun p => plog2p (fdiv (of_int p) (of_int (Zsum xs))))
                      (option_map (fun t => Fin (- t)))).
  rewrite (ma_sum_of_terms Ropp) by lra.
  destruct some_pixel_positive as (q & Hq & Hqpos).
  destruct (forallb _ _) eqn:Hall.
  - exfalso. rewrite forallb_forall in Hall.
    specialize (Hall (plog2p (fdiv (of_int q) (of_int (Zsum xs))))
                  (in_map _ _ _ Hq)).
    rewrite (plog2p_share q Hq) in Hall.
    destruct (Z.eqb_spec q 0); [lia | discriminate].
  - do 2 f_equal. rewrite map_map. unfold flat_entropy.
    pose proof ln2_pos as H2.
    replace (- Rsum (map (fun p => xlnx (IZR p / IZR (Zsum xs))) xs) / ln 2)%R
      with (Rsum (map (fun p => (- / ln 2) * xlnx (IZR p / IZR (Zsum xs)))%R
                      xs))
      by (rewrite Rsum_scal; field; lra).
    apply Rsum_ext_in. intros p Hp. rewrite (plog2p_share p Hp).
    destruct (Z.eqb_spec p 0) as [-> | Hne]; cbn [unmask].
    + unfold Rdiv at 1. rewrite Rmult_0_l, xlnx_0. ring.
    + unfold xlnx. set (s := (IZR p / IZR (Zsum xs))%R). field. lra.
Qed.

Lemma spentropy_shares :
  spentropy (map (fun p => fdiv (of_int p) (of_int (Zsum xs))) xs) (ln 8)
  = Fin (flat_entropy xs / 3).
Proof.
  pose proof ln2_pos as H2.
  assert (HS : IZR (Zsum xs) <> 0%R) by (apply not_0_IZR; lia).
  assert (Hsig : map (fun p => fdiv (of_int p) (of_int (Zsum xs))) xs
                 = map Fin (map (fun p => (IZR p / IZR (Zsum xs))%R) xs)).
  { rewrite map_map. apply map_ext. intros p. unfold of_int.
    apply fdiv_fin, HS. }
  rewrite Hsig. unfold spentropy. cbv zeta.
  rewrite fsum_fin, shares_total, !map_map.
  assert (Hentr : map (fun p => entr (fdiv (Fin (IZR p / IZR (Zsum xs)))
                                        (Fin 1))) xs
                  = map Fin (map (fun p =>
                                    (- (1) * xlnx (IZR p / IZR (Zsum xs)))%R)
                                 xs)).
  { rewrite map_map. apply map_ext_in. intros p Hp.
    rewrite fdiv_fin by lra.
    destruct (mass_share p Hp) as [Hq _]. unfold entr.
    set (s := (IZR p / IZR (Zsum xs))%R) in *.
    replace (s / 1)%R with s by field.
    destruct (Rlt_dec s 0) as [Hneg | _]; [lra |].
    destruct (Req_EM_T s 0) as [E | _].
    - f_equal. rewrite E, xlnx_0. ring.
    - f_equal. unfold xlnx. ring. }
  rewrite Hentr, fsum_fin, Rsum_scal.
  rewrite fdiv_fin by (rewrite ln_8; lra).
  f_equal. unfold flat_entropy. rewrite ln_8. field. lra.
Qed.

End Masses.

(** On an image without negative pixels whose pixel sum is positive (and
    fits the integer dtype), shannon1d and scipy1d measure the same
    quantity in different units: shannon1d logs the entropy of the pixel
    masses in bits, scipy1d logs it to the base 8, a third of it.  The
    entropy lies between 0 and the base-2 logarithm of the number of
    pixels. *)
Theorem flat_entropies_agree (g : array2)
    (Hnn : nonnegative g) (Htot : 0 < Zsum (flatten g) < 2 ^ 63) :
  shannon1d g = Some (Fin (flat_entropy (flatten g)))
  /\ scipy1d g = Fin (flat_entropy (flatten g) / 3)
  /\ (0 <= flat_entropy (flatten g) <= Rlog2 (INR (length (flatten g))))%R.
Proof.
  pose proof (nonnegative_flatten g Hnn) as Hxs.
  assert (Hsum : sum (flatten g) = Zsum (flatten g))
    by (apply sum_Zsum; lia).
  split; [| split].
  - rewrite shannon1d_flat, Hsum.
    apply shannon1d_terms_value; [exact Hxs | lia].
  - unfold scipy1d, scipy1d_signal. rewrite Hsum.
    apply spentropy_shares; [exact Hxs | lia].
  - split.
    + apply flat_entropy_nonneg; [exact Hxs | lia].
    + apply flat_entropy_le; [exact Hxs | lia].
Qed.

Lemma flat_entropies_agree_witness :
  nonnegative img_mixed /\ 0 < Zsum (flatten img_mixed) < 2 ^ 63
  /\ shannon1d img_mixed
     = Some (Fin (flat_entropy (flatten img_mixed)))
  /\ scipy1d img_mixed
     = Fin (flat_entropy (flatten img_mixed) / 3)
  /\ (0 <= flat_entropy (flatten img_mixed)
      <= Rlog2 (INR (length (flatten img_mixed))))%R.
Proof.
  assert (Hnn : nonnegative img_mixed)
    by (repeat constructor; lia).
  assert (Htot : 0 < Zsum (flatten img_mixed) < 2 ^ 63)
    by (vm_compute; split; reflexivity).
  split; [exact Hnn |]. split; [exact Htot |].
  exact (flat_entropies_agree img_mixed Hnn Htot).
Defined.

Lemma Zsum_scale (c : Z) (xs : list Z) :
  Zsum (map (Z.mul c) xs) = c * Zsum xs.
Proof.
  induction xs as [| x xs IH]; cbn [map Zsum fold_right]; [lia |].
  fold (Zsum (map (Z.mul c) xs)). fold (Zsum xs). rewrite IH. lia.
Qed.

Lemma flatten_scaled (c : Z) (g : array2) :
  flatten (scaled c g) = map (Z.mul c) (flatten g).
Proof. unfold flatten, scaled. symmetry. apply concat_map. Qed.

Lemma fdiv_scale (c p s : Z) :
  0 < c ->
  fdiv (of_int (c * p)) (of_int (c * s)) = fdiv (of_int p) (of_int s).
Proof.
  intros Hc. unfold of_int, fdiv.
  assert (Hc' : (0 < IZR c)%R) by (apply IZR_lt; exact Hc).
  rewrite !mult_IZR.
  destruct (Req_EM_T (IZR c * IZR s) 0) as [Hs | Hs];
    destruct (Req_EM_T (IZR s) 0) as [Hs' | Hs']; try (exfalso; nra).
  - destruct (Req_EM_T (IZR c * IZR p) 0) as [Hp | Hp];
      destruct (Req_EM_T (IZR p) 0) as [Hp' | Hp']; try (exfalso; nra);
      [reflexivity |].
    f_equal. unfold is_neg.
    destruct (Rlt_dec (IZR c * IZR p) 0); destruct (Rlt_dec (IZR p) 0);
      try reflexivity; exfalso; nra.
  - f_equal. field. split; lra.
Qed.

(** Multiplying every pixel by a positive constant changes nothing of
    what shannon1d and scipy1d compute, as long as the pixel sums fit the
    integer dtype: the signal, the returned entropy image and both
    entropies are the same. *)
Theorem flat_methods_scale_invariant (c : Z) (g : array2)
    (Hc : 0 < c)
    (Hs : - 2 ^ 63 <= Zsum (flatten g) < 2 ^ 63)
    (Hcs : - 2 ^ 63 <= c * Zsum (flatten g) < 2 ^ 63) :
  shannon1d_signal (scaled c g) = shannon1d_signal g
  /\ shannon1d_entimg (scaled c g) = shannon1d_entimg g
  /\ shannon1d (scaled c g) = shannon1d g
  /\ scipy1d (scaled c g) = scipy1d g.
Proof.
  assert (Hsum : sum (flatten (scaled c g)) = c * sum (flatten g)).
  { rewrite flatten_scaled, !sum_Zsum; rewrite ?Zsum_scale; auto. }
  assert (Hsig : shannon1d_signal (scaled c g) = shannon1d_signal g).
  { unfold shannon1d_signal. rewrite Hsum. unfold scaled.
    rewrite map_map. apply map_ext. intros row.
    rewrite map_map. apply map_ext. intros p. apply fdiv_scale, Hc. }
  assert (Hent : shannon1d_entimg (scaled c g) = shannon1d_entimg g)
    by (unfold shannon1d_entimg; rewrite Hsig; reflexivity).
  split; [exact Hsig |]. split; [exact Hent |]. split.
  - unfold shannon1d. rewrite Hent. reflexivity.
  - unfold scipy1d, scipy1d_signal. rewrite Hsum, flatten_scaled.
    rewrite map_map. f_equal. apply map_ext. intros p. apply fdiv_scale, Hc.
Qed.

Lemma flat_methods_scale_invariant_witness :
  0 < 3 /\ - 2 ^ 63 <= Zsum (flatten img_mixed) < 2 ^ 63
  /\ - 2 ^ 63 <= 3 * Zsum (flatten img_mixed) < 2 ^ 63
  /\ shannon1d (scaled 3 img_mixed) = shannon1d img_mixed
  /\ scipy1d (scaled 3 img_mixed) = scipy1d img_mixed.
Proof.
  assert (Hc : 0 < 3) by lia.
  assert (Hs : - 2 ^ 63 <= Zsum (flatten img_mixed) < 2 ^ 63)
    by (vm_compute; split; [discriminate | reflexivity]).
  assert (Hcs : - 2 ^ 63 <= 3 * Zsum (flatten img_mixed) < 2 ^ 63)
    by (vm_compute; split; [discriminate | reflexivity]).
  split; [exact Hc |]. split; [exact Hs |]. split; [exact Hcs |].
  exact (proj2 (proj2 (flat_methods_scale_invariant 3 img_mixed
                         Hc Hs Hcs))).
Defined.

End FlatValues.

(* ------------------------------------------------------------------ *)
(** * gradient2d *)

Section Gradient2d.
Import Np Methods.

Lemma gradient2d_cases (g : array2) :
  gradient2d g =
  if (Z.of_nat (length g) <? 2) || (Z.of_nat (length (hd [] g)) <? 2)
  then Py.Raise Py.ValueError
  else Py.Ok
         (map (fun i =>
                 map (fun j =>
                        invert (to_int
                          (fadd (gradient_at (fun k => pixel g k j)
                                   (Z.of_nat (length g)) i)
                                (gradient_at (fun k => pixel g i k)
                                   (Z.of_nat (length (hd [] g))) j))))
                     (Py.range 0 (Z.of_nat (length (hd [] g)))))
              (Py.range 0 (Z.of_nat (length g)))).
Proof.
  unfold gradient2d, gradient, shape. cbn [fst snd].
  destruct ((Z.of_nat (length g) <? 2) || (Z.of_nat (length (hd [] g)) <? 2));
    [reflexivity |].
  cbn [Py.bind fst snd]. f_equal.
  rewrite zip_with_map_same, map_map. apply map_ext. intros i.
  rewrite zip_with_map_same, map_map. reflexivity.
Qed.

Lemma gradient2d_raises (g : array2) (wn : nat) :
  rect wn g ->
  (gradient2d g = Py.Raise Py.ValueError
   <-> (length g < 2)%nat \/ (wn < 2)%nat).
Proof.
  intros Hg. rewrite gradient2d_cases.
  destruct g as [| row g].
  - cbn [length hd]. cbn. split; [intros _; left; lia | reflexivity].
  - assert (Hw : length (hd [] (row :: g)) = wn) by (inversion Hg; auto).
    rewrite Hw.
    destruct (Z.ltb_spec (Z.of_nat (length (row :: g))) 2) as [Hh | Hh];
      destruct (Z.ltb_spec (Z.of_nat wn) 2) as [Hw' | Hw']; cbn [orb].
    + split; [intros _; left; lia | reflexivity].
    + split; [intros _; left; lia | reflexivity].
    + split; [intros _; right; lia | reflexivity].
    + split; [discriminate | intros [H' | H']; lia].
Qed.

Lemma gradient2d_returns (g : array2) (wn : nat) :
  rect wn g -> (2 <= length g)%nat -> (2 <= wn)%nat ->
  gradient2d g =
  Py.Ok (map (fun i =>
                map (fun j =>
                       invert (to_int
                         (fadd (gradient_at (fun k => pixel g k j)
                                  (Z.of_nat (length g)) i)
                               (gradient_at (fun k => pixel g i k)
                                  (Z.of_nat wn) j))))
                    (Py.range 0 (Z.of_nat wn)))
             (Py.range 0 (Z.of_nat (length g)))).
Proof.
  intros Hg Hh Hw. rewrite gradient2d_cases.
  rewrite (rect_hd wn g Hg) by (intros ->; simpl in Hh; lia).
  destruct (Z.ltb_spec (Z.of_nat (length g)) 2); [lia |].
  destruct (Z.ltb_spec (Z.of_nat wn) 2); [lia |]. reflexivity.
Qed.

(** gradient2d raises ValueError (from np.gradient) exactly when the
    image has fewer than two rows or fewer than two columns; on every
    other rectangular image it returns an integer image of the same
    shape. *)
Theorem gradient2d_value_error (g : array2) (wn : nat) (Hg : rect wn g) :
  (gradient2d g = Py.Raise Py.ValueError
   <-> (length g < 2)%nat \/ (wn < 2)%nat)
  /\ ((2 <= length g)%nat -> (2 <= wn)%nat ->
      exists img,
        gradient2d g = Py.Ok img /\ length img = length g /\ rect wn img).
Proof.
  split; [apply gradient2d_raises, Hg |].
  intros Hh Hw. rewrite (gradient2d_returns g wn Hg Hh Hw).
  eexists. split; [reflexivity |]. split.
  - rewrite length_map, range_length. lia.
  - apply Forall_forall. intros row Hrow.
    apply in_map_iff in Hrow as (i & <- & _).
    rewrite length_map, range_length. lia.
Qed.

Lemma gradient2d_value_error_witness :
  rect 3 img3
  /\ (gradient2d img3 = Py.Raise Py.ValueError
      <-> (length img3 < 2)%nat \/ (3 < 2)%nat).
Proof.
  assert (Hg : rect 3 img3) by (repeat constructor).
  split; [exact Hg |].
  exact (proj1 (gradient2d_value_error img3 3 Hg)).
Defined.

Lemma eight_bit_pixel (g : array2) (i j : Z) :
  eight_bit g -> 0 <= pixel g i j <= 255.
Proof.
  intros H8. unfold pixel.
  destruct (Nat.lt_ge_cases (Z.to_nat i) (length g)) as [Hi | Hi].
  - pose proof (eight_bit_row g _ H8 (nth_In g [] Hi)) as Hrow.
    destruct (Nat.lt_ge_cases (Z.to_nat j) (length (nth (Z.to_nat i) g [])))
      as [Hj | Hj].
    + exact (proj1 (Forall_forall _ _) Hrow _ (nth_In _ 0 Hj)).
    + rewrite (nth_overflow _ 0 Hj). lia.
  - rewrite (nth_overflow g [] Hi). destruct (Z.to_nat j); simpl; lia.
Qed.

Lemma gradient_at_bounded (f : Z -> Z) (n i : Z) :
  (forall k, 0 <= f k <= 255) ->
  exists x, gradient_at f n i = Fin x /\ (-255 <= x <= 255)%R.
Proof.
  intros Hf.
  assert (Hd : forall a b, (-255 <= IZR (f a) - IZR (f b) <= 255)%R).
  { intros a b. pose proof (Hf a) as Ha. pose proof (Hf b) as Hb.
    rewrite <- minus_IZR. split; apply IZR_le; lia. }
  unfold gradient_at, of_int.
  destruct (i =? 0); [| destruct (i =? n - 1)];
    rewrite fsub_fin, fdiv_fin by lra; eexists; (split; [reflexivity |]).
  - pose proof (Hd 1 0). lra.
  - pose proof (Hd (n - 1) (n - 2)). lra.
  - pose proof (Hd (i + 1) (i - 1)). lra.
Qed.

Lemma Rtrunc_bounds (x : R) (b : Z) :
  0 <= b -> (- IZR b <= x <= IZR b)%R -> - b <= Rtrunc x <= b.
Proof.
  intros Hb [Hlo Hhi]. unfold Rtrunc.
  destruct (Rle_dec 0 x) as [Hx | Hx].
  - destruct (base_Int_part x) as [Hle Hgt].
    assert (H1 : (IZR (Int_part x) <= IZR b)%R) by lra.
    assert (H2 : (-1 < IZR (Int_part x))%R) by lra.
    apply le_IZR in H1. apply lt_IZR in H2. lia.
  - destruct (base_Int_part (- x)) as [Hle Hgt].
    assert (H1 : (IZR (Int_part (- x)) <= IZR b)%R) by lra.
    assert (H2 : (-1 < IZR (Int_part (- x)))%R) by lra.
    apply le_IZR in H1. apply lt_IZR in H2. lia.
Qed.

(** On an 8-bit image of at least 2x2 pixels every value of the image
    gradient2d returns lies in [-511, 509]: both derivatives lie in
    [-255, 255], their sum is truncated and inverted. *)
Theorem gradient2d_eight_bit (g : array2) (wn : nat)
    (H8 : eight_bit g) (Hg : rect wn g)
    (Hh : (2 <= length g)%nat) (Hw : (2 <= wn)%nat) :
  exists img,
    gradient2d g = Py.Ok img
    /\ Forall (Forall (fun v => -511 <= v <= 509)) img.
Proof.
  rewrite (gradient2d_returns g wn Hg Hh Hw).
  eexists. split; [reflexivity |].
  apply Forall_forall. intros row Hrow.
  apply in_map_iff in Hrow as (i & <- & _).
  apply Forall_forall. intros v Hv.
  apply in_map_iff in Hv as (j & <- & _).
  destruct (gradient_at_bounded (fun k => pixel g k j)
              (Z.of_nat (length g)) i) as (x & -> & Hx).
  { intros k. apply eight_bit_pixel, H8. }
  destruct (gradient_at_bounded (fun k => pixel g i k) (Z.of_nat wn) j)
    as (y & -> & Hy).
  { intros k. apply eight_bit_pixel, H8. }
  cbn [fadd to_int].
  assert (Ht : - (510) <= Rtrunc (x + y) <= 510)
    by (apply (Rtrunc_bounds (x + y) 510); [lia | lra]).
  rewrite wrap64_small by lia. unfold invert. lia.
Qed.

Lemma gradient2d_eight_bit_witness :
  eight_bit img3 /\ rect 3 img3 /\ (2 <= length img3)%nat /\ (2 <= 3)%nat
  /\ exists img,
       gradient2d img3 = Py.Ok img
       /\ Forall (Forall (fun v => -511 <= v <= 509)) img.
Proof.
  assert (H8 : eight_bit img3) by (repeat constructor; lia).
  assert (Hg : rect 3 img3) by (repeat constructor).
  assert (Hh : (2 <= length img3)%nat) by (simpl; lia).
  assert (Hw : (2 <= 3)%nat) by lia.
  split; [exact H8 |]. split; [exact Hg |]. split; [exact Hh |].
  split; [exact Hw |].
  exact (gradient2d_eight_bit img3 3 H8 Hg Hh Hw).
Defined.

Lemma gradient_at_ext (f f' : Z -> Z) (n i : Z) :
  2 <= n -> 0 <= i < n ->
  (forall k, 0 <= k < n -> f k = f' k) ->
  gradient_at f n i = gradient_at f' n i.
Proof.
  intros Hn Hi H. unfold gradient_at.
  destruct (Z.eqb_spec i 0); [rewrite !H by lia; reflexivity |].
  destruct (Z.eqb_spec i (n - 1)); rewrite !H by lia; reflexivity.
Qed.






Lemma constant_pixel (c : Z) (g : array2) (wn : nat) (i j : Z) :
  constant c g -> rect wn g ->
  0 <= i < Z.of_nat (length g) -> 0 <= j < Z.of_nat wn ->
  pixel g i j = c.
Proof.
  intros Hc Hg Hi Hj. unfold pixel.
  assert (Hi' : (Z.to_nat i < length g)%nat) by lia.
  pose proof (proj1 (Forall_forall _ _) Hc _ (nth_In g [] Hi')) as Hrow.
  symmetry. apply (proj1 (Forall_forall _ _) Hrow). apply nth_In.
  rewrite (rect_nth wn g _ Hg Hi'). lia.
Qed.

Lemma gradient_at_constant (c n i : Z) :
  gradient_at (fun _ => c) n i = Fin 0.
Proof.
  unfold gradient_at, of_int.
  destruct (i =? 0); [| destruct (i =? n - 1)];
    rewrite fsub_fin, fdiv_fin by lra; f_equal; field.
Qed.

(** On a constant image of at least 2x2 pixels both derivatives vanish
    and gradient2d returns -1 everywhere, the bitwise inverse of 0. *)
Theorem gradient2d_constant (c : Z) (g : array2) (wn : nat)
    (Hc : constant c g) (Hg : rect wn g)
    (Hh : (2 <= length g)%nat) (Hw : (2 <= wn)%nat) :
  gradient2d g = Py.Ok (map (map (fun _ => -1)) g).
Proof.
  rewrite (gradient2d_returns g wn Hg Hh Hw). f_equal.
  apply (nth_ext _ _ [] []).
  { rewrite !length_map, range_length. lia. }
  intros n Hn. rewrite length_map, range_length in Hn.
  rewrite (nth_map_lt _ _ _ [] 0) by (rewrite range_length; lia).
  rewrite (nth_map_lt _ _ _ [] []) by lia.
  rewrite range_nth by lia.
  apply (nth_ext _ _ 0 0).
  { rewrite !length_map, range_length, (rect_nth wn g _ Hg) by lia. lia. }
  intros m Hm. rewrite length_map, range_length in Hm.
  rewrite (nth_map_lt _ _ _ 0 0) by (rewrite range_length; lia).
  rewrite (nth_map_lt _ _ _ 0 0) by (rewrite (rect_nth wn g _ Hg); lia).
  rewrite range_nth by lia.
  rewrite (gradient_at_ext _ (fun _ => c)), gradient_at_constant;
    [| lia | lia | intros k Hk; apply (constant_pixel c g wn); auto; lia].
  rewrite (gradient_at_ext _ (fun _ => c)), gradient_at_constant;
    [| lia | lia | intros k Hk; apply (constant_pixel c g wn); auto; lia].
  cbn [fadd to_int]. rewrite Rplus_0_l, Rtrunc_0. reflexivity.
Qed.

Lemma gradient2d_constant_witness :
  constant 7 [[7; 7]; [7; 7]] /\ rect 2 [[7; 7]; [7; 7]]
  /\ (2 <= length [[7; 7]; [7; 7]])%nat /\ (2 <= 2)%nat
  /\ gradient2d [[7; 7]; [7; 7]]
     = Py.Ok (map (map (fun _ => -1)) [[7; 7]; [7; 7]]).
Proof.
  assert (Hc : constant 7 [[7; 7]; [7; 7]]) by (repeat constructor).
  assert (Hg : rect 2 [[7; 7]; [7; 7]]) by (repeat constructor).
  assert (Hh : (2 <= length [[7; 7]; [7; 7]])%nat) by (simpl; lia).
  assert (Hw : (2 <= 2)%nat) by lia.
  split; [exact Hc |]. split; [exact Hg |]. split; [exact Hh |].
  split; [exact Hw |].
  exact (gradient2d_constant 7 [[7; 7]; [7; 7]] 2 Hc Hg Hh Hw).
Defined.

End Gradient2d.

(* ------------------------------------------------------------------ *)
(** * main.py: method_pseudo_spatial against shannon2dr *)

Section PseudoSpatial.
Import Np Methods.

Lemma fold_left_ext_in {A B : Type} (f g : A -> B -> A) (l : list B) :
  (forall st x, In x l -> f st x = g st x) ->
  forall st, fold_left f l st = fold_left g l st.
Proof.
  induction l as [| x l IH]; intros H st; [reflexivity |].
  cbn [fold_left]. rewrite (H st x) by (left; reflexivity).
  apply IH. intros st' y Hy. apply H. right. exact Hy.
Qed.

Lemma kernel_log_bound (k : Z) :
  3 <= k <= 2 ^ 32 -> (2 * Rlog2 (IZR (k - 1)) <= 64)%R.
Proof.
  intros Hk.
  assert (H : (Rlog2 (IZR (k - 1)) <= Rlog2 (2 ^ 32))%R).
  { apply Rlog2_monotone; [apply IZR_lt; lia |].
    replace (2 ^ 32)%R with (IZR (2 ^ 32)) by (simpl; lra).
    apply IZR_le. lia. }
  rewrite Rlog2_pow2 in H. simpl in H. lra.
Qed.

(** The value stored for a cell is the same in a uint8 map and in a
    64-bit integer map. *)
Lemma stored_entropy_agrees (k k' : Z) (g : array2) (wn : nat) (i j : Z) :
  Main.argtypekernelsize k = Py.Ok k' -> k <= 2 ^ 32 -> rect wn g ->
  0 <= i < Z.of_nat (length g) -> 0 <= j < Z.of_nat wn ->
  Main.to_uint8 (window_entropy (cell_region k g i j))
  = to_int (window_entropy (cell_region k g i j))
  /\ 0 <= to_int (window_entropy (cell_region k g i j)) <= 64.
Proof.
  intros Hk Hk32 Hg Hi Hj.
  destruct (window_entropy_range k k' g wn i j Hk Hg Hi Hj)
    as ([H0 H1] & H2 & H3).
  destruct (kernrad_valid k k' Hk) as (_ & Hkr & Hr).
  pose proof (kernel_log_bound k ltac:(lia)) as H64.
  rewrite window_entropy_fin. cbn [Main.to_uint8 to_int].
  destruct (Rtrunc_nonneg _ H0) as [Ht0 Ht1].
  assert (Hle : Rtrunc (window_entropy_R (cell_region k g i j)) <= 64)
    by (apply le_IZR; lra).
  rewrite wrap64_small by lia. rewrite Z.mod_small by lia.
  split; [reflexivity | lia].
Qed.

(** The script's method_pseudo_spatial and shannon2dr of methods.py run
    the same loops; the script stores the entropies into a uint8 map,
    shannon2dr into a 64-bit integer one.  For a kernel size the validator
    accepts (up to 2^32) both produce the same list of entropies and the
    same map, whose cells lie in 0..64. *)
Theorem method_pseudo_spatial_agrees (k k' : Z) (g : array2) (wn : nat)
    (Hk : Main.argtypekernelsize k = Py.Ok k') (Hk32 : k <= 2 ^ 32)
    (Hg : rect wn g) :
  Main.method_pseudo_spatial k g = shannon2dr k g
  /\ forall i j, (i < length g)%nat -> (j < wn)%nat ->
       0 <= at2 (entimg (Main.method_pseudo_spatial k g)) i j <= 64.
Proof.
  assert (E : Main.method_pseudo_spatial k g = shannon2dr k g).
  { unfold Main.method_pseudo_spatial, shannon2dr. fold (kernrad k).
    apply fold_left_ext_in. intros st i Hi. apply in_range in Hi.
    apply fold_left_ext_in. intros st' j Hj. apply in_range in Hj.
    unfold Main.pseudo_spatial_cell, shannon2dr_cell. cbv zeta. f_equal.
    f_equal. fold (cell_region k g i j).
    unfold shape in Hi, Hj. cbn [fst snd] in Hi, Hj.
    rewrite (rect_hd wn g Hg) in Hj by (intros ->; simpl in Hi; lia).
    apply (stored_entropy_agrees k k' g wn i j Hk Hk32 Hg); lia. }
  split; [exact E |].
  intros i j Hi Hj. rewrite E, (shannon2dr_at k g wn i j Hg Hi Hj).
  pose proof (stored_entropy_agrees k k' g wn (Z.of_nat i) (Z.of_nat j)
                Hk Hk32 Hg ltac:(lia) ltac:(lia)) as [_ Hrange].
  rewrite window_entropy_fin in Hrange. exact Hrange.
Qed.

Lemma method_pseudo_spatial_agrees_witness :
  Main.argtypekernelsize 3 = Py.Ok 3 /\ 3 <= 2 ^ 32 /\ rect 3 img3
  /\ Main.method_pseudo_spatial 3 img3 = shannon2dr 3 img3.
Proof.
  assert (Hk : Main.argtypekernelsize 3 = Py.Ok 3) by reflexivity.
  assert (Hk32 : 3 <= 2 ^ 32) by (vm_compute; discriminate).
  assert (Hg : rect 3 img3) by (repeat constructor).
  split; [exact Hk |]. split; [exact Hk32 |]. split; [exact Hg |].
  exact (proj1 (method_pseudo_spatial_agrees 3 3 img3 3 Hk Hk32 Hg)).
Defined.

End PseudoSpatial.

(* ------------------------------------------------------------------ *)
(** * shannon2dr: the logged mean *)

Section MeanEntropy.
Import Np Methods.

Lemma fsum_bounded (b : R) (l : list float64) :
  Forall (fun e => exists x, e = Fin x /\ (0 <= x <= b)%R) l ->
  exists s, fsum l = Fin s /\ (0 <= s <= b * INR (length l))%R.
Proof.
  intros H.
  assert (Hl : exists rs, l = map Fin rs
                          /\ Forall (fun x => (0 <= x <= b)%R) rs).
  { induction H as [| e l (x & -> & Hx) _ (rs & -> & Hrs)].
    - exists []. split; [reflexivity | constructor].
    - exists (x :: rs). split; [reflexivity | constructor; assumption]. }
  destruct Hl as (rs & -> & Hrs). clear H. rewrite fsum_fin, length_map.
  eexists. split; [reflexivity |].
  induction Hrs as [| x rs Hx _ IH].
  - simpl. lra.
  - cbn [Rsum fold_right]. fold (Rsum rs).
    change (length (x :: rs)) with (S (length rs)). rewrite S_INR. lra.
Qed.

Lemma shannon2dr_entropies_range (k k' : Z) (g : array2) (wn : nat) :
  Main.argtypekernelsize k = Py.Ok k' -> rect wn g ->
  Forall (fun e => exists x,
            e = Fin x /\ (0 <= x <= 2 * Rlog2 (IZR (k - 1)))%R)
         (entropies (shannon2dr k g))
  /\ length (entropies (shannon2dr k g)) = (length g * wn)%nat.
Proof.
  intros Hk Hg. rewrite (shannon2dr_entropies k g wn Hg). split.
  - apply Forall_forall.
    intros e He. apply in_concat in He as (row & Hrow & He).
    apply in_map_iff in Hrow as (i & <- & Hi).
    apply in_map_iff in He as (j & <- & Hj).
    apply in_range in Hi. apply in_range in Hj.
    destruct (window_entropy_range k k' g wn i j Hk Hg)
      as ([H0 H1] & H2 & H3); [lia | lia |].
    eexists. split; [reflexivity |]. lra.
  - assert (Hrect : forall (rows : list Z),
              length (concat (map (fun i =>
                        map (fun j => Fin (window_entropy_R
                                             (cell_region k g i j)))
                            (Py.range 0 (Z.of_nat wn))) rows))
              = (length rows * wn)%nat).
    { induction rows as [| i rows IH]; [reflexivity |].
      cbn [map concat]. rewrite length_app, IH, length_map, range_length.
      cbn [length]. lia. }
    rewrite Hrect, range_length. lia.
Qed.

(** The mean that shannon2dr logs is a finite number between 0 and
    [2 * log2 (k - 1)] on every image with at least one pixel; on an image
    without pixels the list of entropies is empty and the mean is NaN. *)
Theorem shannon2dr_mean_entropy (k k' : Z) (g : array2) (wn : nat)
    (Hk : Main.argtypekernelsize k = Py.Ok k') (Hg : rect wn g) :
  ((1 <= length g)%nat -> (1 <= wn)%nat ->
   exists m,
     average (entropies (shannon2dr k g)) = Fin m
     /\ (0 <= m <= 2 * Rlog2 (IZR (k - 1)))%R)
  /\ (length g = 0%nat \/ wn = 0%nat ->
      average (entropies (shannon2dr k g)) = NaN).
Proof.
  destruct (shannon2dr_entropies_range k k' g wn Hk Hg) as [Hall Hlen].
  destruct (fsum_bounded _ _ Hall) as (s & Hs & Hsb).
  unfold average. rewrite Hs, Hlen in *. split.
  - intros Hh Hw.
    assert (Hn : (0 < INR (length g * wn))%R) by (apply lt_0_INR; nia).
    unfold of_int. rewrite <- INR_IZR_INZ.
    rewrite fdiv_fin by lra. eexists. split; [reflexivity |].
    destruct (kernrad_valid k k' Hk) as (_ & Hkr & Hr).
    assert (Hb : (0 <= 2 * Rlog2 (IZR (k - 1)))%R).
    { assert (0 <= Rlog2 (IZR (k - 1)))%R; [| lra].
      rewrite <- Rlog2_1. apply Rlog2_monotone; [lra |].
      apply IZR_le. lia. }
    split.
    + apply Rmult_le_pos; [lra |]. left. apply Rinv_0_lt_compat, Hn.
    + apply (Rmult_le_reg_r (INR (length g * wn))); [exact Hn |].
      unfold Rdiv. rewrite Rmult_assoc, Rinv_l, Rmult_1_r by lra. lra.
  - intros Hz.
    assert (E : (length g * wn = 0)%nat) by nia.
    rewrite E in *. simpl in Hsb.
    assert (s = 0%R) by lra. subst s. apply fdiv_zero_zero.
Qed.

Lemma shannon2dr_mean_entropy_witness :
  Main.argtypekernelsize 3 = Py.Ok 3 /\ rect 3 img3
  /\ exists m,
       average (entropies (shannon2dr 3 img3)) = Fin m
       /\ (0 <= m <= 2 * Rlog2 (IZR (3 - 1)))%R.
Proof.
  assert (Hk : Main.argtypekernelsize 3 = Py.Ok 3) by reflexivity.
  assert (Hg : rect 3 img3) by (repeat constructor).
  split; [exact Hk |]. split; [exact Hg |].
  apply (proj1 (shannon2dr_mean_entropy 3 3 img3 3 Hk Hg)); simpl; lia.
Defined.

End MeanEntropy.

(* ------------------------------------------------------------------ *)
(** * delentropy2d: the returned images *)

Section DelentropyOutputs.
Import Np Methods.






End DelentropyOutputs.
